(** * Twitch sub-goal overlay server: token lifecycle, metric fetch, goals

  A shallow embedding of the Express server of this repository (the
  version with token refresh and Postgres persistence) and the proofs
  of its specified properties.

  Modelling conventions.
  - A JavaScript string is a Rocq [string]: the bytes of its UTF-8 text.
    [toLowerCase] and [parseInt] are exact on ASCII text, which is what
    channel names and goals are made of; turning a string into the
    bytes of a Buffer and back is then the identity.
  - A number is an integer of [Z]; the rounding of doubles beyond 2^53
    is not modelled.
  - [undefined] (an absent query parameter or object property) is [None].
  - The two in-memory stores [tokensByChannel] and [goalsByChannel] are
    plain objects: a read [obj[key]] that finds no own property goes on
    to the prototype, so it can give a method of [Object.prototype]
    (for the key constructor, say), and a write under the key
    [__proto__] replaces the prototype instead of adding a property.
    Module [Obj] models both.
  - Outbound HTTP calls (axios) and SQL statements are answered by an
    environment that sees the whole history of effects so far; every
    effect is appended to a log carried in the state.
  - Of the body of a reply only the properties that the server reads
    are kept. A reply without a body, or whose body is no JSON object,
    is a body none of whose properties is there; the body [null], on
    which reading a property throws, is apart.
  - [await] is sequencing: one handler runs to completion. *)

From Stdlib Require Import ZArith NArith Ascii String List Lia Bool.
From stdpp Require Import base option gmap strings list.

Set Warnings "-register-all".

Local Open Scope Z_scope.

(** ** JavaScript string primitives *)

Module JS.

Definition code (c : ascii) : N := N_of_ascii c.

Definition chr (n : N) : ascii := ascii_of_N n.

(** [String.prototype.toLowerCase] on one character: A..Z go to a..z. *)
Definition lower_char (c : ascii) : ascii :=
  if ((65 <=? code c) && (code c <=? 90))%N then chr (code c + 32) else c.

Fixpoint toLowerCase (s : string) : string :=
  match s with
  | EmptyString => EmptyString
  | String c s' => String (lower_char c) (toLowerCase s')
  end.

(** Truthiness of a possibly absent string: [undefined] and the empty
    string are falsy. *)
Definition truthy (v : option string) : bool :=
  match v with
  | None => false
  | Some EmptyString => false
  | Some (String _ _) => true
  end.

(** [a || b] on possibly absent strings. *)
Definition or_else (a b : option string) : option string :=
  if truthy a then a else b.

(** White space skipped by [parseInt]: TAB, LF, VT, FF, CR, SP. *)
Definition is_space (c : ascii) : bool :=
  (((9 <=? code c) && (code c <=? 13)) || (code c =? 32))%N.

Fixpoint skip_spaces (s : string) : string :=
  match s with
  | EmptyString => EmptyString
  | String c s' => if is_space c then skip_spaces s' else s
  end.

Definition is_digit (c : ascii) : bool :=
  ((48 <=? code c) && (code c <=? 57))%N.

Definition digit_value (c : ascii) : Z := Z.of_N (code c) - 48.

(** The longest decimal prefix of [s], accumulated left to right;
    [None] when [s] starts with no digit. *)
Fixpoint digits (acc : option Z) (s : string) : option Z :=
  match s with
  | EmptyString => acc
  | String c s' =>
      if is_digit c
      then digits (Some (10 * default 0 acc + digit_value c)) s'
      else acc
  end.

(** [parseInt(s, 10)]; [None] is NaN. What follows the digits is
    ignored, as in JavaScript: 12abc and 12.9 both give 12. *)
Definition parseInt (s : string) : option Z :=
  match skip_spaces s with
  | String "-" s' => Z.opp <$> digits None s'
  | String "+" s' => digits None s'
  | s' => digits None s'
  end.

End JS.

(** ** Buffer: base64url *)

Module Base64url.

(** Six bits, most significant first. *)
Definition sextet : Type := bool * bool * bool * bool * bool * bool.

Definition sextet_to_N (x : sextet) : N :=
  let '(b5, b4, b3, b2, b1, b0) := x in
  (32 * N.b2n b5 + 16 * N.b2n b4 + 8 * N.b2n b3
   + 4 * N.b2n b2 + 2 * N.b2n b1 + N.b2n b0)%N.

Definition N_to_sextet (n : N) : sextet :=
  (N.testbit n 5, N.testbit n 4, N.testbit n 3,
   N.testbit n 2, N.testbit n 1, N.testbit n 0).

(** The URL-safe alphabet: A-Z a-z 0-9 - _ *)
Definition b64char (x : sextet) : ascii :=
  let n := sextet_to_N x in
  if (n <? 26)%N then JS.chr (65 + n)
  else if (n <? 52)%N then JS.chr (97 + (n - 26))
  else if (n <? 62)%N then JS.chr (48 + (n - 52))
  else if (n =? 62)%N then "-"%char
  else "_"%char.

(** Node's decoding table accepts both the URL-safe and the standard
    alphabet; every other character has no value. *)
Definition unbase64 (c : ascii) : option sextet :=
  let n := JS.code c in
  if ((65 <=? n) && (n <=? 90))%N then Some (N_to_sextet (n - 65))
  else if ((97 <=? n) && (n <=? 122))%N then Some (N_to_sextet (n - 97 + 26))
  else if ((48 <=? n) && (n <=? 57))%N then Some (N_to_sextet (n - 48 + 52))
  else if ((n =? 45) || (n =? 43))%N then Some (N_to_sextet 62)
  else if ((n =? 95) || (n =? 47))%N then Some (N_to_sextet 63)
  else None.

(** Three bytes are four sextets; one or two trailing bytes are padded
    with zero bits (and no "=" is written in base64url). *)
Fixpoint to_sextets (s : string) : list sextet :=
  match s with
  | EmptyString => []
  | String (Ascii x0 x1 x2 x3 x4 x5 x6 x7) EmptyString =>
      [(x7, x6, x5, x4, x3, x2); (x1, x0, false, false, false, false)]
  | String (Ascii x0 x1 x2 x3 x4 x5 x6 x7)
      (String (Ascii y0 y1 y2 y3 y4 y5 y6 y7) EmptyString) =>
      [(x7, x6, x5, x4, x3, x2); (x1, x0, y7, y6, y5, y4);
       (y3, y2, y1, y0, false, false)]
  | String (Ascii x0 x1 x2 x3 x4 x5 x6 x7)
      (String (Ascii y0 y1 y2 y3 y4 y5 y6 y7)
         (String (Ascii z0 z1 z2 z3 z4 z5 z6 z7) rest)) =>
      (x7, x6, x5, x4, x3, x2) :: (x1, x0, y7, y6, y5, y4)
      :: (y3, y2, y1, y0, z7, z6) :: (z5, z4, z3, z2, z1, z0)
      :: to_sextets rest
  end.

Fixpoint chars (l : list sextet) : string :=
  match l with
  | [] => EmptyString
  | x :: l' => String (b64char x) (chars l')
  end.

(** [Buffer.from(s).toString('base64url')] *)
Definition encode (s : string) : string := chars (to_sextets s).

(** The decoder skips characters outside the alphabet and stops at the
    first "=". *)
Fixpoint sextets_of (s : string) : list sextet :=
  match s with
  | EmptyString => []
  | String c s' =>
      if Ascii.eqb c "="%char then []
      else match unbase64 c with
           | Some x => x :: sextets_of s'
           | None => sextets_of s'
           end
  end.

Fixpoint bytes_of (l : list sextet) : string :=
  match l with
  | (x7, x6, x5, x4, x3, x2) :: (x1, x0, y7, y6, y5, y4)
    :: (y3, y2, y1, y0, z7, z6) :: (z5, z4, z3, z2, z1, z0) :: rest =>
      String (Ascii x0 x1 x2 x3 x4 x5 x6 x7)
        (String (Ascii y0 y1 y2 y3 y4 y5 y6 y7)
           (String (Ascii z0 z1 z2 z3 z4 z5 z6 z7) (bytes_of rest)))
  | [(x7, x6, x5, x4, x3, x2); (x1, x0, y7, y6, y5, y4);
     (y3, y2, y1, y0, _, _)] =>
      String (Ascii x0 x1 x2 x3 x4 x5 x6 x7)
        (String (Ascii y0 y1 y2 y3 y4 y5 y6 y7) EmptyString)
  | [(x7, x6, x5, x4, x3, x2); (x1, x0, _, _, _, _)] =>
      String (Ascii x0 x1 x2 x3 x4 x5 x6 x7) EmptyString
  | _ => EmptyString
  end.

(** [Buffer.from(s, 'base64url').toString('utf8')]: the decoded bytes,
    read back as the text they encode. *)
Definition decode (s : string) : string := bytes_of (sextets_of s).

End Base64url.

(** ** JSON: [JSON.stringify] of strings and [JSON.parse] *)

Module JSON.

Inductive json : Type :=
| JNull
| JBool (b : bool)
| JNumber (lexeme : string)
| JString (s : string)
| JArray (l : list json)
| JObject (members : list (string * json)).

Definition dquote : ascii := Ascii false true false false false true false false.
Definition backslash : ascii := Ascii false false true true true false true false.

Definition hex_digit (n : N) : ascii :=
  if (n <? 10)%N then JS.chr (48 + n) else JS.chr (97 + (n - 10)).

(** [QuoteJSONString] on one character. *)
Definition quote_char (c : ascii) : string :=
  let n := JS.code c in
  if (n =? 8)%N then String backslash "b"
  else if (n =? 9)%N then String backslash "t"
  else if (n =? 10)%N then String backslash "n"
  else if (n =? 12)%N then String backslash "f"
  else if (n =? 13)%N then String backslash "r"
  else if (n =? 34)%N then String backslash (String dquote EmptyString)
  else if (n =? 92)%N then String backslash (String backslash EmptyString)
  else if (n <? 32)%N then
    String backslash
      (String "u" (String "0" (String "0"
         (String (hex_digit (n / 16)) (String (hex_digit (n mod 16)) EmptyString)))))
  else String c EmptyString.

Fixpoint quote_chars (s : string) : string :=
  match s with
  | EmptyString => EmptyString
  | String c s' => quote_char c +:+ quote_chars s'
  end.

Definition quote (s : string) : string :=
  String dquote (quote_chars s +:+ String dquote EmptyString).

(** [JSON.stringify({ channel })] for a string [channel]. *)
Definition stringify_channel (channel : string) : string :=
  String "{" (String dquote ("channel" +:+ String dquote (String ":"
    (quote channel +:+ "}")))).

(** *** Lexing *)

Definition is_ws (c : ascii) : bool :=
  let n := JS.code c in ((n =? 32) || (n =? 9) || (n =? 10) || (n =? 13))%N.

Fixpoint skip_ws (s : string) : string :=
  match s with
  | EmptyString => EmptyString
  | String c s' => if is_ws c then skip_ws s' else s
  end.

Definition hex_value (c : ascii) : option N :=
  let n := JS.code c in
  if ((48 <=? n) && (n <=? 57))%N then Some (n - 48)%N
  else if ((97 <=? n) && (n <=? 102))%N then Some (n - 87)%N
  else if ((65 <=? n) && (n <=? 70))%N then Some (n - 55)%N
  else None.

Definition hex4 (a b c d : ascii) : option N :=
  x ← hex_value a; y ← hex_value b; z ← hex_value c; w ← hex_value d;
  Some (4096 * x + 256 * y + 16 * z + w)%N.

Definition simple_escape (e : ascii) : option ascii :=
  let n := JS.code e in
  if (n =? 34)%N then Some dquote
  else if (n =? 92)%N then Some backslash
  else if (n =? 47)%N then Some "/"%char
  else if (n =? 98)%N then Some (JS.chr 8)
  else if (n =? 102)%N then Some (JS.chr 12)
  else if (n =? 110)%N then Some (JS.chr 10)
  else if (n =? 114)%N then Some (JS.chr 13)
  else if (n =? 116)%N then Some (JS.chr 9)
  else None.

(** What a string literal is made of: a character taken as it is, or a
    UTF-16 code unit written as a [\u] escape. *)
Inductive item : Type :=
| Raw (c : ascii)
| Esc (cu : N).

(** The items of a string literal whose opening quote has been read,
    and the text after its closing quote. *)
Fixpoint string_items (s : string) : option (list item * string) :=
  match s with
  | EmptyString => None
  | String c rest =>
      if Ascii.eqb c dquote then Some ([], rest)
      else if Ascii.eqb c backslash then
        match rest with
        | EmptyString => None
        | String e rest1 =>
            if Ascii.eqb e "u"%char then
              match rest1 with
              | String h1 (String h2 (String h3 (String h4 rest2))) =>
                  cu ← hex4 h1 h2 h3 h4;
                  '(l, r) ← string_items rest2;
                  Some (Esc cu :: l, r)
              | _ => None
              end
            else
              ch ← simple_escape e;
              '(l, r) ← string_items rest1;
              Some (Raw ch :: l, r)
        end
      else if (JS.code c <? 32)%N then None
      else '(l, r) ← string_items rest; Some (Raw c :: l, r)
  end.

(** UTF-8 bytes of a code point (of a lone surrogate too). *)
Definition utf8 (cp : N) : string :=
  if (cp <? 128)%N then String (JS.chr cp) EmptyString
  else if (cp <? 2048)%N then
    String (JS.chr (192 + cp / 64)) (String (JS.chr (128 + cp mod 64)) EmptyString)
  else if (cp <? 65536)%N then
    String (JS.chr (224 + cp / 4096))
      (String (JS.chr (128 + (cp / 64) mod 64))
         (String (JS.chr (128 + cp mod 64)) EmptyString))
  else
    String (JS.chr (240 + cp / 262144))
      (String (JS.chr (128 + (cp / 4096) mod 64))
         (String (JS.chr (128 + (cp / 64) mod 64))
            (String (JS.chr (128 + cp mod 64)) EmptyString))).

Definition is_high (cu : N) : bool := ((55296 <=? cu) && (cu <=? 56319))%N.
Definition is_low (cu : N) : bool := ((56320 <=? cu) && (cu <=? 57343))%N.

(** The text of a literal: an escaped surrogate pair is one code point. *)
Fixpoint assemble (l : list item) : string :=
  match l with
  | [] => EmptyString
  | Raw c :: l' => String c (assemble l')
  | Esc hi :: l' =>
      match l' with
      | Esc lo :: l'' =>
          if is_high hi && is_low lo
          then utf8 (65536 + (hi - 55296) * 1024 + (lo - 56320)) +:+ assemble l''
          else utf8 hi +:+ assemble l'
      | _ => utf8 hi +:+ assemble l'
      end
  end.

Definition string_literal (s : string) : option (string * string) :=
  '(l, r) ← string_items s; Some (assemble l, r).

(** The text after the character [c], when [s] begins with it. *)
Definition eat (c : ascii) (s : string) : option string :=
  match s with
  | String x r => if Ascii.eqb x c then Some r else None
  | EmptyString => None
  end.

Fixpoint span_digits (s : string) : string * string :=
  match s with
  | EmptyString => (EmptyString, EmptyString)
  | String c s' =>
      if JS.is_digit c
      then let '(ds, r) := span_digits s' in (String c ds, r)
      else (EmptyString, s)
  end.

(** A single 0, or a digit from 1 to 9 and then any digits. *)
Definition int_part (s : string) : option (string * string) :=
  match s with
  | EmptyString => None
  | String c r =>
      if Ascii.eqb c "0"%char then Some ("0", r)
      else if JS.is_digit c
      then let '(ds, r') := span_digits r in Some (String c ds, r')
      else None
  end.

(** At least one digit, after [mark]. *)
Definition some_digits (mark : string) (s : string) : option (string * string) :=
  match span_digits s with
  | (EmptyString, _) => None
  | (ds, r') => Some (mark +:+ ds, r')
  end.

Definition frac_part (s : string) : option (string * string) :=
  match eat "." s with
  | Some r => some_digits "." r
  | None => Some (EmptyString, s)
  end.

Definition exp_part (s : string) : option (string * string) :=
  match s with
  | String c r =>
      if Ascii.eqb c "e"%char || Ascii.eqb c "E"%char then
        match eat "+" r with
        | Some r1 => some_digits "e+" r1
        | None =>
            match eat "-" r with
            | Some r1 => some_digits "e-" r1
            | None => some_digits "e" r
            end
        end
      else Some (EmptyString, s)
  | EmptyString => Some (EmptyString, s)
  end.

Definition number (s : string) : option (string * string) :=
  let '(sign, s0) :=
    match eat "-" s with
    | Some r => ("-", r)
    | None => (EmptyString, s)
    end in
  '(i, s1) ← int_part s0;
  '(f, s2) ← frac_part s1;
  '(e, s3) ← exp_part s2;
  Some (sign +:+ i +:+ f +:+ e, s3).

Fixpoint strip_prefix (p s : string) : option string :=
  match p, s with
  | EmptyString, _ => Some s
  | String a p', String b s' => if Ascii.eqb a b then strip_prefix p' s' else None
  | String _ _, EmptyString => None
  end.

(** *** Parsing *)

Fixpoint value (fuel : nat) (s : string) : option (json * string) :=
  match fuel with
  | O => None
  | S fuel' =>
      match skip_ws s with
      | EmptyString => None
      | String c r =>
          if Ascii.eqb c "{"%char then
            match eat "}" (skip_ws r) with
            | Some r' => Some (JObject [], r')
            | None => '(ms, r') ← members fuel' r; Some (JObject ms, r')
            end
          else if Ascii.eqb c "["%char then
            match eat "]" (skip_ws r) with
            | Some r' => Some (JArray [], r')
            | None => '(vs, r') ← elements fuel' r; Some (JArray vs, r')
            end
          else if Ascii.eqb c dquote then
            '(str, r') ← string_literal r; Some (JString str, r')
          else if Ascii.eqb c "t"%char then
            r' ← strip_prefix "rue" r; Some (JBool true, r')
          else if Ascii.eqb c "f"%char then
            r' ← strip_prefix "alse" r; Some (JBool false, r')
          else if Ascii.eqb c "n"%char then
            r' ← strip_prefix "ull" r; Some (JNull, r')
          else
            '(lexeme, r') ← number (String c r); Some (JNumber lexeme, r')
      end
  end
with elements (fuel : nat) (s : string) : option (list json * string) :=
  match fuel with
  | O => None
  | S fuel' =>
      '(v, r) ← value fuel' s;
      match eat "," (skip_ws r) with
      | Some r' => '(vs, r'') ← elements fuel' r'; Some (v :: vs, r'')
      | None =>
          match eat "]" (skip_ws r) with
          | Some r' => Some ([v], r')
          | None => None
          end
      end
  end
with members (fuel : nat) (s : string) : option (list (string * json) * string) :=
  match fuel with
  | O => None
  | S fuel' =>
      r ← eat dquote (skip_ws s);
      '(k, r1) ← string_literal r;
      r2 ← eat ":" (skip_ws r1);
      '(v, r3) ← value fuel' r2;
      match eat "," (skip_ws r3) with
      | Some r4 => '(ms, r5) ← members fuel' r4; Some ((k, v) :: ms, r5)
      | None =>
          match eat "}" (skip_ws r3) with
          | Some r4 => Some ([(k, v)], r4)
          | None => None
          end
      end
  end.

(** [JSON.parse(s)]; [None] is a SyntaxError. The fuel is enough for
    every text: see [value_fuel_enough]. *)
Definition parse (s : string) : option json :=
  '(v, r) ← value (2 * String.length s + 2) s;
  match skip_ws r with
  | EmptyString => Some v
  | String _ _ => None
  end.

(** The own property [k] of a parsed object: the last member of that
    name wins. *)
Fixpoint member (k : string) (ms : list (string * json)) : option json :=
  match ms with
  | [] => None
  | (k', v) :: ms' =>
      match member k ms' with
      | Some v' => Some v'
      | None => if String.eqb k' k then Some v else None
      end
  end.

End JSON.

(** ** Plain objects used as maps

    [tokensByChannel] and [goalsByChannel] are created by [{}] and
    written only by [obj[key] = literal]. Such an object has own
    properties, one per key written, and a prototype: [Object.prototype]
    at first, and the literal last assigned under the key [__proto__]
    from then on, for that assignment runs the setter inherited from
    [Object.prototype], which installs the literal as prototype and adds
    no own property. The object is represented by a finite map from
    strings to literals: an own property under its key, the installed
    prototype, if there is one, under the key [__proto__], which no own
    property has. A write [obj[key] = r] is then [<[key := r]> obj] for
    every key; a read follows the prototype chain. *)

Module Obj.

(** The primitive values met in these objects. *)
Inductive Prim : Type :=
| Undefined
| Null
| Str (s : string)
| Num (n : Z).

(** What a read [obj[key]] gives, [R] being the type of the literals
    written: a primitive, one of the literals, or a builtin, that is
    [Object.prototype] itself or one of its methods. A builtin is truthy
    and has none of the properties that the server reads. *)
Inductive Value (R : Type) : Type :=
| Primitive (p : Prim)
| Lit (r : R)
| Builtin.

Arguments Primitive {R} p.
Arguments Lit {R} r.
Arguments Builtin {R}.

(** The own properties of a literal, by name: primitives all. *)
Class Literal (R : Type) := property : R → string → option Prim.

Definition of_string (v : option string) : Prim :=
  match v with
  | Some s => Str s
  | None => Undefined
  end.

(** The key whose getter and setter on [Object.prototype] give access to
    the prototype of an object. *)
Definition proto : string := "__proto__".

(** The data properties of [Object.prototype]: its methods. *)
Definition methods : list string :=
  ["constructor"; "hasOwnProperty"; "isPrototypeOf"; "propertyIsEnumerable";
   "toLocaleString"; "toString"; "valueOf";
   "__defineGetter__"; "__defineSetter__"; "__lookupGetter__"; "__lookupSetter__"].

Definition is_method (key : string) : bool := existsb (String.eqb key) methods.

(** [obj[key]]: an own property; else a property of the installed
    prototype; else what [Object.prototype] has under that key, where
    the getter of [__proto__] gives the prototype of the object, which
    is [Object.prototype] when none was installed (an installed one was
    found in the first step). *)
Definition get {R} `{Literal R} (obj : gmap string R) (key : string) : Value R :=
  match obj !! key with
  | Some r => Lit r
  | None =>
      match obj !! proto ≫= λ p, property p key with
      | Some v => Primitive v
      | None =>
          if String.eqb key proto || is_method key then Builtin
          else Primitive Undefined
      end
  end.

(** Truthiness, as [if (!v)] tests it. *)
Definition truthy {R} (v : Value R) : bool :=
  match v with
  | Primitive Undefined | Primitive Null => false
  | Primitive (Str EmptyString) => false
  | Primitive (Str (String _ _)) => true
  | Primitive (Num n) => negb (n =? 0)
  | Lit _ | Builtin => true
  end.

(** [v?.field], and [v.field] for a truthy [v], for a field of the
    literals: a string, a number or a builtin has no such property. *)
Definition field {R A} (f : R → option A) (v : Value R) : option A :=
  match v with
  | Lit r => f r
  | _ => None
  end.

End Obj.

(** ** The server: data, environment and effects *)

(** A value of [tokensByChannel]. A field is [None] when the provider's
    reply had no such property. *)
Record TokenInfo : Type := mkTokenInfo {
  access_token : option string;
  refresh_token : option string;
  broadcaster_id : option string
}.

#[global] Instance token_literal : Obj.Literal TokenInfo :=
  fun r name =>
    if String.eqb name "access_token" then Some (Obj.of_string (access_token r))
    else if String.eqb name "refresh_token" then Some (Obj.of_string (refresh_token r))
    else if String.eqb name "broadcaster_id" then Some (Obj.of_string (broadcaster_id r))
    else None.

(** A value of [goalsByChannel], the literal with the one property
    [goal], is given by that number. *)
#[global] Instance goal_literal : Obj.Literal Z :=
  fun goal name => if String.eqb name "goal" then Some (Obj.Num goal) else None.

(** A row of the table [twitch_tokens] without its key [channel]; the
    three columns are [text NOT NULL]. *)
Record Row : Type := mkRow {
  row_broadcaster_id : string;
  row_access_token : string;
  row_refresh_token : string
}.

(** An element of the array [data] of a reply: of a user only [id] is read. *)
Record Item : Type := mkItem { id : option string }.

(** The properties the server reads from the body of a reply. *)
Record Payload : Type := mkPayload {
  p_access_token : option string;
  p_refresh_token : option string;
  p_data : option (list Item);
  p_total : option Z
}.

Inductive Grant : Type :=
| AuthorizationCode (code : option string)
| RefreshToken (token : string).

(** The three outbound calls made through axios. *)
Inductive Request : Type :=
| PostToken (grant : Grant)
| GetUsers (bearer : option string)
| GetSubscriptions (broadcaster : option string) (bearer : option string).

(** The four SQL statements sent through [query]. *)
Inductive Statement : Type :=
| CreateTable
| SelectTokens
| UpsertToken (channel : string) (broadcaster access refresh : option string)
| UpdateToken (channel : string) (access refresh : option string).

Inductive Effect : Type :=
| Http (r : Request)
| Sql (q : Statement).

(** What comes back from the provider: a status and the body as axios
    hands it over in [res.data], or nothing at all (a transport-level
    fault). [data] is [None] when [res.data] is [null] (the body is the
    JSON text null): reading a property of it throws. A reply without a
    body, for which [res.data] is the empty string, and a body that is
    no JSON object are payloads none of whose properties is there. *)
Inductive Reply : Type :=
| Status (status : Z) (data : option Payload)
| NetworkError.

Record Env : Type := mkEnv {
  provider : list Effect → Request → Reply;
  db_up : list Effect → Statement → bool
}.

(** The two in-memory stores are plain objects, represented as module
    [Obj] says and read with [Obj.get]. [twitch_tokens] is the table of
    that name, keyed by its primary key [channel]; it is [None] when
    [DATABASE_URL] is not set: there is then no pool and no durable
    store. *)
Record State : Type := mkState {
  tokensByChannel : gmap string TokenInfo;
  goalsByChannel : gmap string Z;
  twitch_tokens : option (gmap string Row);
  log : list Effect
}.

Definition set_tokens (f : gmap string TokenInfo → gmap string TokenInfo)
    (st : State) : State :=
  mkState (f (tokensByChannel st)) (goalsByChannel st) (twitch_tokens st) (log st).

Definition set_goals (f : gmap string Z → gmap string Z) (st : State) : State :=
  mkState (tokensByChannel st) (f (goalsByChannel st)) (twitch_tokens st) (log st).

Definition set_table (t : gmap string Row) (st : State) : State :=
  mkState (tokensByChannel st) (goalsByChannel st) (Some t) (log st).

Definition record (e : Effect) (st : State) : State :=
  mkState (tokensByChannel st) (goalsByChannel st) (twitch_tokens st) (log st ++ [e]).

Inductive Exn : Type :=
| TypeError
| SyntaxError
| AxiosError (status : option Z)
| DbError.

Inductive Completion (A : Type) : Type :=
| Normal (a : A)
| Throw (e : Exn).

Arguments Normal {A} a.
Arguments Throw {A} e.

(** A computation of the server: it reads and writes the state and
    either returns or throws. *)
Definition M (A : Type) : Type := State → Completion A * State.

Definition ret {A} (a : A) : M A := fun st => (Normal a, st).

Definition throw {A} (e : Exn) : M A := fun st => (Throw e, st).

Definition bind {A B} (m : M A) (k : A → M B) : M B :=
  fun st =>
    match m st with
    | (Normal a, st') => k a st'
    | (Throw e, st') => (Throw e, st')
    end.

Definition try_catch {A} (m : M A) (handler : Exn → M A) : M A :=
  fun st =>
    match m st with
    | (Normal a, st') => (Normal a, st')
    | (Throw e, st') => handler e st'
    end.

Definition get : M State := fun st => (Normal st, st).

Definition modify (f : State → State) : M unit := fun st => (Normal tt, f st).

Notation "'let!' x := m 'in' k" := (bind m (fun x => k))
  (at level 10, x name, m at level 100, k at level 200).
Notation "'do!' m 'in' k" := (bind m (fun _ => k))
  (at level 10, m at level 100, k at level 200).

(** What a handler sends back. *)
Inductive Body : Type :=
| Text (s : string)
| Redirect (state : string)      (* to the provider's authorize URL *)
| Connected (channel : string)   (* Twitch connected for channel ... *)
| GoalUpdated (goal : Z)         (* Sub goal updated to ... *)
| Json (current goal : Z).       (* the object with current and goal *)

Record Response : Type := mkResponse { status : Z; body : Body }.

Section Server.

Variable env : Env.

(** [axios.get] and [axios.post]: the promise resolves on a 2xx status
    and rejects otherwise; the error of a transport fault has no
    [response]. *)
Definition axios (r : Request) : M (option Payload) :=
  fun st =>
    let st' := record (Http r) st in
    match provider env (log st) r with
    | Status s data =>
        if (200 <=? s) && (s <? 300) then (Normal data, st')
        else (Throw (AxiosError (Some s)), st')
    | NetworkError => (Throw (AxiosError None), st')
    end.

(** What a statement does to the table; [None] when it violates a
    [NOT NULL] constraint. *)
Definition exec (q : Statement) (t : gmap string Row)
    : option (gmap string Row * list (string * Row)) :=
  match q with
  | CreateTable => Some (t, [])
  | SelectTokens => Some (t, map_to_list t)
  | UpsertToken channel (Some b) (Some a) (Some r) =>
      Some (<[channel := mkRow b a r]> t, [])
  | UpsertToken _ _ _ _ => None
  | UpdateToken channel a r =>
      match t !! channel with
      | None => Some (t, [])
      | Some old =>
          match a, r with
          | Some a', Some r' =>
              Some (<[channel := mkRow (row_broadcaster_id old) a' r']> t, [])
          | _, _ => None
          end
      end
  end.

(** db.js, [query]: throws without a pool, and when the statement fails. *)
Definition query (q : Statement) : M (list (string * Row)) :=
  fun st =>
    match twitch_tokens st with
    | None => (Throw DbError, st)
    | Some t =>
        let st' := record (Sql q) st in
        if db_up env (log st) q then
          match exec q t with
          | Some (t', rows) => (Normal rows, set_table t' st')
          | None => (Throw DbError, st')
          end
        else (Throw DbError, st')
    end.

(** [process.env.DATABASE_URL] as a condition. *)
Definition DATABASE_URL (st : State) : bool :=
  match twitch_tokens st with Some _ => true | None => false end.

Definition when_db (m : M unit) : M unit :=
  fun st => if DATABASE_URL st then m st else (Normal tt, st).

(** *** DB init and load *)

Definition initDb : M unit := do! query CreateTable in ret tt.

Definition load_row (tokens : gmap string TokenInfo) (kv : string * Row)
    : gmap string TokenInfo :=
  <[JS.toLowerCase (fst kv) :=
      mkTokenInfo (Some (row_access_token (snd kv)))
                  (Some (row_refresh_token (snd kv)))
                  (Some (row_broadcaster_id (snd kv)))]> tokens.

Definition loadTokens : M unit :=
  try_catch
    (let! rows := query SelectTokens in
     modify (set_tokens (fun tokens => fold_left load_row rows tokens)))
    (fun _ => ret tt).

Definition start : M unit :=
  when_db (try_catch (do! initDb in loadTokens) (fun _ => ret tt)).

(** *** OAuth start *)

Definition auth_twitch (channel : option string) : Response :=
  match channel with
  | Some (String c s) =>
      mkResponse 302
        (Redirect (Base64url.encode (JSON.stringify_channel (String c s))))
  | _ =>
      mkResponse 400
        (Text "Missing channel query param, e.g. /auth/twitch?channel=yourchannel")
  end.

(** *** OAuth callback *)

Record CallbackQuery : Type := mkCallbackQuery {
  q_code : option string;
  q_state : option string;
  q_error : option string;
  q_error_description : option string
}.

(** [decoded.channel] *)
Definition get_channel (decoded : JSON.json) : Completion (option JSON.json) :=
  match decoded with
  | JSON.JNull => Throw TypeError
  | JSON.JObject ms => Normal (JSON.member "channel" ms)
  | _ => Normal None
  end.

(** [v.toLowerCase()]: only a string has that method. *)
Definition call_toLowerCase (v : option JSON.json) : Completion string :=
  match v with
  | Some (JSON.JString s) => Normal (JS.toLowerCase s)
  | _ => Throw TypeError
  end.

(** The first [try] block of the callback. *)
Definition decode_state (state : option string) : Completion string :=
  match state with
  | None => Throw TypeError
  | Some s =>
      match JSON.parse (Base64url.decode s) with
      | None => Throw SyntaxError
      | Some decoded =>
          match get_channel decoded with
          | Normal v => call_toLowerCase v
          | Throw e => Throw e
          end
      end
  end.

(** [const { access_token, refresh_token } = res.data] *)
Definition tokens_of (data : option Payload) : M (option string * option string) :=
  match data with
  | None => throw TypeError
  | Some p => ret (p_access_token p, p_refresh_token p)
  end.

(** [userRes.data.data[0]] and then [user.id] *)
Definition user_id (data : option Payload) : M (option string) :=
  match data with
  | None => throw TypeError
  | Some p =>
      match p_data p with
      | None => throw TypeError
      | Some [] => throw TypeError
      | Some (user :: _) => ret (id user)
      end
  end.

Definition complete_authorization (code : option string) (channel : string)
    : M Response :=
  try_catch
    (let! tokenRes := axios (PostToken (AuthorizationCode code)) in
     let! tokens := tokens_of tokenRes in
     let! userRes := axios (GetUsers (fst tokens)) in
     let! uid := user_id userRes in
     do! modify (set_tokens
                   <[channel := mkTokenInfo (fst tokens) (snd tokens) uid]>) in
     do! when_db (do! query (UpsertToken channel uid (fst tokens) (snd tokens)) in
                  ret tt) in
     ret (mkResponse 200 (Connected channel)))
    (fun _ =>
       ret (mkResponse 500
              (Text "Failed to complete Twitch OAuth. Check server logs."))).

Definition auth_twitch_callback (q : CallbackQuery) : M Response :=
  if JS.truthy (q_error q) then
    ret (mkResponse 400
           (Text ("Twitch error: " +:+
                  default EmptyString (JS.or_else (q_error_description q) (q_error q)))))
  else
    match decode_state (q_state q) with
    | Throw _ => ret (mkResponse 400 (Text "Invalid state"))
    | Normal channel => complete_authorization (q_code q) channel
    end.

(** *** Token refresh helper *)

(** [tokenInfo] is whatever the caller read from [tokensByChannel]. The
    literal written is the spread of [tokenInfo] with the two new
    tokens: of the three properties it keeps [broadcaster_id]. *)
Definition refreshAccessToken (channel : string) (tokenInfo : Obj.Value TokenInfo)
    : M (Obj.Value TokenInfo) :=
  match Obj.field refresh_token tokenInfo with
  | Some (String c s) =>
      try_catch
        (let! res := axios (PostToken (RefreshToken (String c s))) in
         let! tokens := tokens_of res in
         do! modify (set_tokens
                       <[channel := mkTokenInfo (fst tokens) (snd tokens)
                                      (Obj.field broadcaster_id tokenInfo)]>) in
         do! when_db (do! query (UpdateToken channel (fst tokens) (snd tokens)) in
                      ret tt) in
         let! st := get in
         ret (Obj.get (tokensByChannel st) channel))
        (fun _ => ret (Obj.Primitive Obj.Null))
  | _ => ret (Obj.Primitive Obj.Null)
  end.

(** *** Sub count helper *)

(** [res.data.total ?? res.data.data?.length ?? 0] *)
Definition total_of (data : option Payload) : M Z :=
  match data with
  | None => throw TypeError
  | Some p =>
      match p_total p with
      | Some total => ret total
      | None =>
          match p_data p with
          | Some items => ret (Z.of_nat (length items))
          | None => ret 0
          end
      end
  end.

Definition doRequest (tokenInfo : Obj.Value TokenInfo) (access : option string)
    : M Z :=
  let! res := axios (GetSubscriptions (Obj.field broadcaster_id tokenInfo) access) in
  total_of res.

(** [err.response?.status === 401] *)
Definition is_unauthorized (err : Exn) : bool :=
  match err with
  | AxiosError (Some s) => s =? 401
  | _ => false
  end.

Definition getCurrentSubsForChannel (channel : string) : M (option Z) :=
  let key := JS.toLowerCase channel in
  let! st := get in
  let tokenInfo := Obj.get (tokensByChannel st) key in
  if Obj.truthy tokenInfo then
    try_catch
      (let! total := doRequest tokenInfo (Obj.field access_token tokenInfo) in
       ret (Some total))
      (fun err =>
         if is_unauthorized err then
           let! refreshed := refreshAccessToken key tokenInfo in
           if Obj.truthy refreshed then
             try_catch
               (let! total := doRequest tokenInfo (Obj.field access_token refreshed) in
                ret (Some total))
               (fun _ => ret None)
           else ret None
         else ret None)
  else ret None.

(** *** Set goal *)

Record GoalRequest : Type := mkGoalRequest {
  body_channel : option string;
  query_channel : option string;
  body_goal : option string;
  query_goal : option string
}.

(** [(req.body.channel || req.query.channel || '').toLowerCase()] *)
Definition goal_channel (req : GoalRequest) : string :=
  JS.toLowerCase
    (default EmptyString
       (JS.or_else (JS.or_else (body_channel req) (query_channel req))
          (Some EmptyString))).

(** [req.body.goal || req.query.goal] *)
Definition goal_string (req : GoalRequest) : option string :=
  JS.or_else (body_goal req) (query_goal req).

Definition api_setgoal (req : GoalRequest) : M Response :=
  match goal_channel req with
  | EmptyString => ret (mkResponse 400 (Text "Missing channel"))
  | String _ _ as channel =>
      match goal_string req with
      | Some (String _ _ as goalStr) =>
          match JS.parseInt goalStr with
          | Some goal =>
              if goal <=? 0
              then ret (mkResponse 400 (Text "Goal must be a positive integer"))
              else
                do! modify (set_goals <[channel := goal]>) in
                ret (mkResponse 200 (GoalUpdated goal))
          | None => ret (mkResponse 400 (Text "Goal must be a positive integer"))
          end
      | _ => ret (mkResponse 400 (Text "Missing goal"))
      end
  end.

(** *** Subgoal API *)

(** [(req.query.channel || 'test').toLowerCase()] *)
Definition subgoal_channel (channel : option string) : string :=
  JS.toLowerCase (default EmptyString (JS.or_else channel (Some "test"))).

(** [goalsByChannel[channel]?.goal || 50] *)
Definition getGoal (st : State) (channel : string) : Z :=
  match Obj.field Some (Obj.get (goalsByChannel st) channel) with
  | Some goal => if goal =? 0 then 50 else goal
  | None => 50
  end.

Definition api_subgoal (channel : option string) : M Response :=
  let channel := subgoal_channel channel in
  let! st := get in
  let goal := getGoal st channel in
  let! current := getCurrentSubsForChannel channel in
  match current with
  | None => ret (mkResponse 200 (Json 0 goal))
  | Some current => ret (mkResponse 200 (Json current goal))
  end.

(** *** The server as a transition system *)

Inductive Op : Type :=
| OpStart
| OpAuthTwitch (channel : option string)
| OpAuthCallback (q : CallbackQuery)
| OpSetGoal (req : GoalRequest)
| OpSubGoal (channel : option string).

(** The state after an operation; an operation whose handler lets an
    exception escape leaves the state the handler reached. *)
Definition step (op : Op) (st : State) : State :=
  match op with
  | OpStart => snd (start st)
  | OpAuthTwitch _ => st
  | OpAuthCallback q => snd (auth_twitch_callback q st)
  | OpSetGoal req => snd (api_setgoal req st)
  | OpSubGoal channel => snd (api_subgoal channel st)
  end.

(** The process begins with both in-memory stores empty, whatever the
    durable table holds. *)
Definition initial (table : option (gmap string Row)) : State :=
  mkState ∅ ∅ table [].

Inductive reachable : State → Prop :=
| reachable_initial table : reachable (initial table)
| reachable_step op st : reachable st → reachable (step op st).

End Server.

(** ** Vocabulary of the specification *)

(** The metric requests (GET helix/subscriptions) among some effects. *)
Definition is_metric_request (e : Effect) : bool :=
  match e with
  | Http (GetSubscriptions _ _) => true
  | _ => false
  end.

Definition metric_requests (l : list Effect) : nat :=
  length (List.filter is_metric_request l).

(** The token refreshes (POST oauth2/token, grant refresh_token). *)
Definition is_refresh_request (e : Effect) : bool :=
  match e with
  | Http (PostToken (RefreshToken _)) => true
  | _ => false
  end.

Definition refresh_requests (l : list Effect) : nat :=
  length (List.filter is_refresh_request l).

(** A computation that, from every state, appends to the log at most
    [m] metric requests and at most [r] token refreshes. *)
Definition emits {A} (c : M A) (m r : nat) : Prop :=
  ∀ st, ∃ new,
    log (snd (c st)) = log st ++ new
    ∧ (metric_requests new ≤ m)%nat ∧ (refresh_requests new ≤ r)%nat.

(** A computation that never throws. *)
Definition total {A} (c : M A) : Prop :=
  ∀ st, ∃ a st', c st = (Normal a, st').

(** A computation that keeps a property of the state. *)
Definition preserves {A} (I : State → Prop) (c : M A) : Prop :=
  ∀ st, I st → I (snd (c st)).

(** What holds of the two in-memory stores in every reachable state:
    their keys are lowercase and every stored goal is positive. *)
Definition stores_ok (st : State) : Prop :=
  (∀ k, is_Some (tokensByChannel st !! k) → JS.toLowerCase k = k)
  ∧ (∀ k, is_Some (goalsByChannel st !! k) → JS.toLowerCase k = k)
  ∧ (∀ k g, goalsByChannel st !! k = Some g → 0 < g).

(** A reply that makes the promise of axios resolve. *)
Definition resolves (r : Reply) : bool :=
  match r with
  | Status s _ => (200 <=? s) && (s <? 300)
  | NetworkError => false
  end.

(** The identity fetch gives no user: the promise rejects (a status
    outside 2xx or no reply at all), or the body has no first user. *)
Definition identity_failed (r : Reply) : bool :=
  match r with
  | Status s (Some p) =>
      negb ((200 <=? s) && (s <? 300))
      || match p_data p with Some (_ :: _) => false | _ => true end
  | Status _ None => true
  | NetworkError => true
  end.

(** The record of a channel in the durable store, in the shape in which
    [loadTokens] hands a row to the cache. *)
Definition stored_record (st : State) (channel : string) : option TokenInfo :=
  t ← twitch_tokens st;
  row ← t !! channel;
  Some (mkTokenInfo (Some (row_access_token row)) (Some (row_refresh_token row))
          (Some (row_broadcaster_id row))).

(** A goal value that parses to a positive integer, and that integer. *)
Definition positive_goal (goalStr : option string) : option Z :=
  match goalStr with
  | Some s =>
      match JS.parseInt s with
      | Some n => if 0 <? n then Some n else None
      | None => None
      end
  | None => None
  end.

(** A state parameter from which a channel can be read: base64url of a
    JSON object whose member [channel] is a string. *)
Definition well_formed_state (state : option string) : Prop :=
  ∃ s ms c,
    state = Some s
    ∧ JSON.parse (Base64url.decode s) = Some (JSON.JObject ms)
    ∧ JSON.member "channel" ms = Some (JSON.JString c).

Definition lowercase (s : string) : Prop := JS.toLowerCase s = s.

Definition keys_lowercase {V} (m : gmap string V) : Prop :=
  ∀ k, is_Some (m !! k) → lowercase k.

(** Two optional channel names that differ in letter case only. *)
Definition same_channel (a b : option string) : Prop :=
  JS.toLowerCase <$> a = JS.toLowerCase <$> b.

(** *** Sample environments *)

Definition sample_payload : Payload :=
  mkPayload (Some "access-1") (Some "refresh-1") (Some [mkItem (Some "4242")]) (Some 120).

(** Every call is answered 200 with [sample_payload]; the database is up. *)
Definition env_ok : Env :=
  mkEnv (fun _ _ => Status 200 (Some sample_payload)) (fun _ _ => true).

(** The metric endpoint always answers 401. *)
Definition env_unauthorized : Env :=
  mkEnv (fun _ r =>
           match r with
           | GetSubscriptions _ _ => Status 401 None
           | _ => Status 200 (Some sample_payload)
           end)
        (fun _ _ => true).

(** The token exchange works, the identity fetch is answered 503. *)
Definition env_no_identity : Env :=
  mkEnv (fun _ r =>
           match r with
           | GetUsers _ => Status 503 None
           | _ => Status 200 (Some sample_payload)
           end)
        (fun _ _ => true).

(** No reply ever arrives. *)
Definition env_offline : Env :=
  mkEnv (fun _ _ => NetworkError) (fun _ _ => true).

(** The provider answers 400 to every call. *)
Definition env_rejecting : Env :=
  mkEnv (fun _ _ => Status 400 None) (fun _ _ => true).

Definition sample_info : TokenInfo :=
  mkTokenInfo (Some "access-0") (Some "refresh-0") (Some "4242").

Definition sample_row : Row := mkRow "4242" "access-0" "refresh-0".

(** A state in which channel foo is authorized, in memory and on disk. *)
Definition sample_state : State :=
  mkState {["foo" := sample_info]} ∅ (Some {["foo" := sample_row]}) [].

(** The state parameter that [auth_twitch] makes for channel Foo. *)
Definition sample_oauth_state : string := "eyJjaGFubmVsIjoiRm9vIn0".

Definition sample_callback : CallbackQuery :=
  mkCallbackQuery (Some "code-1") (Some sample_oauth_state) None None.

(** The item as which [JSON.string_items] reads back a character that
    [JSON.quote_char] wrote: a unicode escape for a control character
    that has no short escape, the character otherwise. *)
Definition item_of (c : ascii) : JSON.item :=
  let n := JS.code c in
  if ((n <? 32) && negb ((n =? 8) || (n =? 9) || (n =? 10) || (n =? 12) || (n =? 13)))%N
  then JSON.Esc n
  else JSON.Raw c.

Fixpoint items_of (s : string) : list JSON.item :=
  match s with
  | EmptyString => []
  | String c s' => item_of c :: items_of s'
  end.

(** ** The earlier server of src/server.js

    The same routes without token refresh: [loadTokens] has no
    [try]/[catch] of its own and [getCurrentSubsForChannel] gives up on
    the first error. *)

Module Legacy.

Definition loadTokens (env : Env) : M unit :=
  let! rows := query env SelectTokens in
  modify (set_tokens (fun tokens => fold_left load_row rows tokens)).

Definition start (env : Env) : M unit :=
  when_db (try_catch (do! initDb env in loadTokens env) (fun _ => ret tt)).

Definition getCurrentSubsForChannel (env : Env) (channel : string) : M (option Z) :=
  let key := JS.toLowerCase channel in
  let! st := get in
  let tokenInfo := Obj.get (tokensByChannel st) key in
  if Obj.truthy tokenInfo then
    try_catch
      (let! res := axios env (GetSubscriptions (Obj.field broadcaster_id tokenInfo)
                                (Obj.field access_token tokenInfo)) in
       let! total := total_of res in
       ret (Some total))
      (fun _ => ret None)
  else ret None.

End Legacy.

(** ** More vocabulary *)

(** The count that [total_of] reads from a body: the field [total], else
    the length of [data], else 0. *)
Definition total_in (p : Payload) : Z :=
  match p_total p with
  | Some total => total
  | None =>
      match p_data p with
      | Some items => Z.of_nat (length items)
      | None => 0
      end
  end.

(** The outcome of one metric request, as [getCurrentSubsForChannel]
    returns it: the count read from the body of a 2xx reply, null when
    the status is another one, when no reply comes and when the body is
    [null]. *)
Definition metric_outcome (r : Reply) : option Z :=
  match r with
  | Status s (Some p) => if (200 <=? s) && (s <? 300) then Some (total_in p) else None
  | _ => None
  end.

(** A first metric reply that makes the helper return null without a
    refresh: a transport fault, a status that is neither 2xx nor 401, or
    a 2xx reply whose body is [null]. (A 2xx reply without a body is no
    such reply: its count is 0.) *)
Definition fails_otherwise (r : Reply) : bool :=
  match r with
  | Status s data =>
      if (200 <=? s) && (s <? 300)
      then match data with None => true | Some _ => false end
      else negb (s =? 401)
  | NetworkError => true
  end.

(** The keys under which a literal of [tokensByChannel] has a property. *)
Definition token_property (k : string) : bool :=
  existsb (String.eqb k) ["access_token"; "refresh_token"; "broadcaster_id"].

(** A read of [tokensByChannel] under [k] cannot see a literal written
    under [key]: the keys differ and, when [key] is [__proto__], so that
    the literal becomes the prototype, [k] names no property of it. *)
Definition reads_apart (key k : string) : Prop :=
  k ≠ key ∧ (key = Obj.proto → token_property k = false).

(** What a metric fetch or a token refresh for [key] leaves alone: the
    goals; what is read from the cache under the keys apart from [key],
    and what was written under any other key; that the cache holds a
    record for [key]; the set of channels that have a row, the rows of
    the other channels and the broadcaster id of the row of [key]. *)
Definition refresh_frame (key : string) (st st' : State) : Prop :=
  goalsByChannel st' = goalsByChannel st
  ∧ (∀ k, reads_apart key k →
       Obj.get (tokensByChannel st') k = Obj.get (tokensByChannel st) k)
  ∧ (∀ k, k ≠ key → tokensByChannel st' !! k = tokensByChannel st !! k)
  ∧ (∀ info, Obj.get (tokensByChannel st) key = Obj.Lit info →
       ∃ info', Obj.get (tokensByChannel st') key = Obj.Lit info')
  ∧ match twitch_tokens st, twitch_tokens st' with
    | None, None => True
    | Some t, Some t' =>
        dom t' = dom t
        ∧ (∀ k, k ≠ key → t' !! k = t !! k)
        ∧ (∀ old new, t !! key = Some old → t' !! key = Some new →
             row_broadcaster_id new = row_broadcaster_id old)
    | _, _ => False
    end.

(** What the goal API leaves alone: everything but the goals. *)
Definition only_goals_change (st st' : State) : Prop :=
  tokensByChannel st' = tokensByChannel st
  ∧ twitch_tokens st' = twitch_tokens st
  ∧ log st' = log st.

(** The record that [loadTokens] makes of a row. *)
Definition info_of_row (row : Row) : TokenInfo :=
  mkTokenInfo (Some (row_access_token row)) (Some (row_refresh_token row))
    (Some (row_broadcaster_id row)).

(** The database answers every statement. *)
Definition database_up (env : Env) : Prop := ∀ l q, db_up env l q = true.

(** The first metric request is answered 401, later ones 200 with
    [sample_payload]; token calls succeed. *)
Definition env_expired_once : Env :=
  mkEnv (fun l r =>
           match r, l with
           | GetSubscriptions _ _, [] => Status 401 None
           | _, _ => Status 200 (Some sample_payload)
           end)
        (fun _ _ => true).

(** A reply to the code-for-token exchange after which the callback
    gives up: no reply, a status outside 2xx, or a 2xx reply whose body
    is [null]. (After a 2xx reply without a body the callback goes on,
    with both tokens undefined.) *)
Definition exchange_failed (r : Reply) : bool :=
  match r with
  | Status s (Some _) => negb ((200 <=? s) && (s <? 300))
  | Status _ None => true
  | NetworkError => true
  end.

(** The database answers no statement. *)
Definition env_database_down : Env :=
  mkEnv (fun _ _ => Status 200 (Some sample_payload)) (fun _ _ => false).

(** Every key of the table, if there is one, is lowercase. *)
Definition table_keys_lowercase (st : State) : Prop :=
  ∀ t k, twitch_tokens st = Some t → is_Some (t !! k) → JS.toLowerCase k = k.

(** The state after a sequence of operations. *)
Definition run_ops (env : Env) (ops : list Op) (st : State) : State :=
  fold_left (fun st op => step env op st) ops st.

(** The metric endpoint answers 401 and the token endpoint 400: the
    access token has expired and the refresh token is no longer good. *)
Definition env_revoked : Env :=
  mkEnv (fun _ r =>
           match r with
           | GetSubscriptions _ _ => Status 401 None
           | _ => Status 400 None
           end)
        (fun _ _ => true).

(** Channel foo is authorized, but its record has no refresh token. *)
Definition sample_state_no_refresh : State :=
  mkState {["foo" := mkTokenInfo (Some "access-0") None (Some "4242")]} ∅ None [].

(** A 2xx reply without a body, as the server sees it. *)
Definition no_body : Payload := mkPayload None None None None.

(** Every call is answered 200 without a body. *)
Definition env_no_body : Env :=
  mkEnv (fun _ _ => Status 200 (Some no_body)) (fun _ _ => true).

(** The body of a reply, if one came and is not [null]. *)
Definition reply_body (r : Reply) : option Payload :=
  match r with
  | Status _ data => data
  | NetworkError => None
  end.

(** The id of the first user of a body, if it has one. *)
Definition first_user_id (p : Payload) : option string :=
  match p_data p with
  | Some (user :: _) => id user
  | _ => None
  end.

(** What the callback sends for a code and a channel when nothing stops
    it, read off the replies of the provider: the exchange of the code;
    the identity fetch, with the access token of the reply to the
    exchange; the upsert of the id of the first user of the reply to the
    identity fetch and of the two tokens of the reply to the exchange. *)
Definition callback_trace (env : Env) (st : State) (code : option string)
    (channel : string) : list Effect :=
  let exchange := PostToken (AuthorizationCode code) in
  let tokens := reply_body (provider env (log st) exchange) in
  let access := tokens ≫= p_access_token in
  let refresh := tokens ≫= p_refresh_token in
  let identity := GetUsers access in
  let user := reply_body (provider env (log st ++ [Http exchange]) identity) in
  [Http exchange; Http identity;
   Sql (UpsertToken channel (user ≫= first_user_id) access refresh)].

(** The record that the callback makes of the provider's replies when
    both have a body other than [null] and the second one has a first
    user: the two tokens of the reply to the exchange and the id of that
    user. *)
Definition authorized_record (env : Env) (st : State) (code : option string)
    : option TokenInfo :=
  let exchange := PostToken (AuthorizationCode code) in
  match reply_body (provider env (log st) exchange) with
  | Some tokens =>
      match reply_body (provider env (log st ++ [Http exchange])
                          (GetUsers (p_access_token tokens))) with
      | Some users =>
          match p_data users with
          | Some (user :: _) =>
              Some (mkTokenInfo (p_access_token tokens) (p_refresh_token tokens)
                      (id user))
          | _ => None
          end
      | None => None
      end
  | None => None
  end.

(** * Proofs *)

(** ** Strings *)

Lemma lower_char_idempotent c : JS.lower_char (JS.lower_char c) = JS.lower_char c.
Proof. destruct c as [[] [] [] [] [] [] [] []]; reflexivity. Qed.

Lemma toLowerCase_idempotent s : JS.toLowerCase (JS.toLowerCase s) = JS.toLowerCase s.
Proof.
  induction s as [|c s IH]; simpl; [reflexivity|].
  by rewrite lower_char_idempotent, IH.
Qed.

Lemma toLowerCase_lowercase s : lowercase (JS.toLowerCase s).
Proof. apply toLowerCase_idempotent. Qed.

Lemma toLowerCase_empty s : JS.toLowerCase s = EmptyString ↔ s = EmptyString.
Proof. destruct s; simpl; split; congruence. Qed.

Lemma truthy_toLowerCase s : JS.truthy (Some (JS.toLowerCase s)) = JS.truthy (Some s).
Proof. by destruct s. Qed.

(** ** Base64url: decoding undoes encoding *)

Lemma unbase64_b64char x :
  Ascii.eqb (Base64url.b64char x) "="%char = false
  ∧ Base64url.unbase64 (Base64url.b64char x) = Some x.
Proof.
  destruct x as [[[[[[] []] []] []] []] []]; split; vm_compute; reflexivity.
Qed.

Lemma sextets_of_chars l : Base64url.sextets_of (Base64url.chars l) = l.
Proof.
  induction l as [|x l IH]; simpl; [reflexivity|].
  destruct (unbase64_b64char x) as [-> ->]. by rewrite IH.
Qed.

Lemma bytes_of_to_sextets : ∀ s, Base64url.bytes_of (Base64url.to_sextets s) = s.
Proof.
  fix IH 1.
  intros [|[x0 x1 x2 x3 x4 x5 x6 x7] [|[y0 y1 y2 y3 y4 y5 y6 y7]
            [|[z0 z1 z2 z3 z4 z5 z6 z7] rest]]]; simpl; try reflexivity.
  by rewrite IH.
Qed.

Lemma decode_encode s : Base64url.decode (Base64url.encode s) = s.
Proof.
  unfold Base64url.decode, Base64url.encode.
  by rewrite sextets_of_chars, bytes_of_to_sextets.
Qed.

(** ** JSON: parsing undoes quoting *)

Lemma append_cons x (a b : string) : String x a +:+ b = String x (a +:+ b).
Proof. reflexivity. Qed.

Lemma append_nil (b : string) : EmptyString +:+ b = b.
Proof. reflexivity. Qed.

Lemma string_items_raw c rest :
  Ascii.eqb c JSON.dquote = false → Ascii.eqb c JSON.backslash = false →
  (JS.code c <? 32)%N = false →
  JSON.string_items (String c rest)
  = '(l, r) ← JSON.string_items rest; Some (JSON.Raw c :: l, r).
Proof. intros H1 H2 H3. simpl. by rewrite H1, H2, H3. Qed.

Lemma string_items_simple e ch rest :
  Ascii.eqb e "u"%char = false → JSON.simple_escape e = Some ch →
  JSON.string_items (String JSON.backslash (String e rest))
  = '(l, r) ← JSON.string_items rest; Some (JSON.Raw ch :: l, r).
Proof. intros H1 H2. simpl. by rewrite H1, H2. Qed.

Lemma string_items_unicode h1 h2 h3 h4 cu rest :
  JSON.hex4 h1 h2 h3 h4 = Some cu →
  JSON.string_items
    (String JSON.backslash (String "u" (String h1 (String h2 (String h3 (String h4 rest))))))
  = '(l, r) ← JSON.string_items rest; Some (JSON.Esc cu :: l, r).
Proof. intros H. simpl. by rewrite H. Qed.

Lemma string_items_quote_char c rest :
  JSON.string_items (JSON.quote_char c +:+ rest)
  = '(l, r) ← JSON.string_items rest; Some (item_of c :: l, r).
Proof.
  destruct c as [[] [] [] [] [] [] [] []];
  match goal with
  | |- JSON.string_items (JSON.quote_char ?c +:+ rest) = _ =>
      let q := eval vm_compute in (JSON.quote_char c) in
      let i := eval vm_compute in (item_of c) in
      change (JSON.quote_char c) with q; change (item_of c) with i
  end;
  rewrite ?append_cons, append_nil;
  first
    [ apply string_items_unicode; vm_compute; reflexivity
    | apply string_items_simple; vm_compute; reflexivity
    | apply string_items_raw; vm_compute; reflexivity ].
Qed.

Lemma assemble_raw c l : JSON.assemble (JSON.Raw c :: l) = String c (JSON.assemble l).
Proof. reflexivity. Qed.

Lemma assemble_esc_ascii n l :
  (n <? 128)%N = true →
  JSON.assemble (JSON.Esc n :: l) = String (JS.chr n) (JSON.assemble l).
Proof.
  intros H.
  assert (Hhigh : JSON.is_high n = false).
  { unfold JSON.is_high. apply N.ltb_lt in H.
    apply andb_false_iff. left. apply N.leb_gt. lia. }
  assert (Hutf : JSON.utf8 n = String (JS.chr n) EmptyString).
  { unfold JSON.utf8. by rewrite H. }
  destruct l as [|[c|lo] l']; simpl; rewrite ?Hhigh, Hutf; reflexivity.
Qed.

Lemma assemble_item_of c l :
  JSON.assemble (item_of c :: l) = String c (JSON.assemble l).
Proof.
  destruct c as [[] [] [] [] [] [] [] []];
  match goal with
  | |- JSON.assemble (item_of ?c :: l) = _ =>
      let i := eval vm_compute in (item_of c) in change (item_of c) with i
  end;
  first
    [ apply assemble_raw
    | match goal with
      | |- JSON.assemble (JSON.Esc ?n :: _) = _ =>
          exact (assemble_esc_ascii n l eq_refl)
      end ].
Qed.

Lemma append_assoc (a b c : string) : (a +:+ b) +:+ c = a +:+ (b +:+ c).
Proof.
  induction a as [|x a IH]; [reflexivity|].
  by rewrite !append_cons, IH.
Qed.

Lemma string_items_quote_chars s rest :
  JSON.string_items (JSON.quote_chars s +:+ String JSON.dquote rest)
  = Some (items_of s, rest).
Proof.
  induction s as [|c s IH]; [reflexivity|].
  simpl JSON.quote_chars. rewrite append_assoc, string_items_quote_char, IH.
  reflexivity.
Qed.

Lemma assemble_items_of s : JSON.assemble (items_of s) = s.
Proof.
  induction s as [|c s IH]; [reflexivity|].
  simpl items_of. by rewrite assemble_item_of, IH.
Qed.

Lemma string_literal_quote_chars s rest :
  JSON.string_literal (JSON.quote_chars s +:+ String JSON.dquote rest)
  = Some (s, rest).
Proof.
  unfold JSON.string_literal. rewrite string_items_quote_chars. simpl.
  by rewrite assemble_items_of.
Qed.

(** One step of each of the three mutually recursive parsers. *)

Lemma value_unfold fuel s :
  JSON.value (S fuel) s =
  match JSON.skip_ws s with
  | EmptyString => None
  | String c r =>
      if Ascii.eqb c "{"%char then
        match JSON.eat "}" (JSON.skip_ws r) with
        | Some r' => Some (JSON.JObject [], r')
        | None => '(ms, r') ← JSON.members fuel r; Some (JSON.JObject ms, r')
        end
      else if Ascii.eqb c "["%char then
        match JSON.eat "]" (JSON.skip_ws r) with
        | Some r' => Some (JSON.JArray [], r')
        | None => '(vs, r') ← JSON.elements fuel r; Some (JSON.JArray vs, r')
        end
      else if Ascii.eqb c JSON.dquote then
        '(str, r') ← JSON.string_literal r; Some (JSON.JString str, r')
      else if Ascii.eqb c "t"%char then
        r' ← JSON.strip_prefix "rue" r; Some (JSON.JBool true, r')
      else if Ascii.eqb c "f"%char then
        r' ← JSON.strip_prefix "alse" r; Some (JSON.JBool false, r')
      else if Ascii.eqb c "n"%char then
        r' ← JSON.strip_prefix "ull" r; Some (JSON.JNull, r')
      else
        '(lexeme, r') ← JSON.number (String c r); Some (JSON.JNumber lexeme, r')
  end.
Proof. reflexivity. Qed.

Lemma elements_unfold fuel s :
  JSON.elements (S fuel) s =
  '(v, r) ← JSON.value fuel s;
  match JSON.eat "," (JSON.skip_ws r) with
  | Some r' => '(vs, r'') ← JSON.elements fuel r'; Some (v :: vs, r'')
  | None =>
      match JSON.eat "]" (JSON.skip_ws r) with
      | Some r' => Some ([v], r')
      | None => None
      end
  end.
Proof. reflexivity. Qed.

Lemma members_unfold fuel s :
  JSON.members (S fuel) s =
  r ← JSON.eat JSON.dquote (JSON.skip_ws s);
  '(k, r1) ← JSON.string_literal r;
  r2 ← JSON.eat ":" (JSON.skip_ws r1);
  '(v, r3) ← JSON.value fuel r2;
  match JSON.eat "," (JSON.skip_ws r3) with
  | Some r4 => '(ms, r5) ← JSON.members fuel r4; Some ((k, v) :: ms, r5)
  | None =>
      match JSON.eat "}" (JSON.skip_ws r3) with
      | Some r4 => Some ([(k, v)], r4)
      | None => None
      end
  end.
Proof. reflexivity. Qed.

Lemma skip_ws_head c r : JSON.is_ws c = false → JSON.skip_ws (String c r) = String c r.
Proof. intros H. simpl. by rewrite H. Qed.

Lemma key_literal rest :
  JSON.string_literal
    (String "c" (String "h" (String "a" (String "n" (String "n" (String "e"
       (String "l" (String JSON.dquote rest))))))))
  = Some ("channel", rest).
Proof. reflexivity. Qed.

Lemma value_stringify_channel fuel channel :
  JSON.value (S (S (S fuel))) (JSON.stringify_channel channel)
  = Some (JSON.JObject [("channel", JSON.JString channel)], EmptyString).
Proof.
  unfold JSON.stringify_channel, JSON.quote.
  repeat (rewrite ?append_cons, ?append_nil, ?append_assoc).
  rewrite value_unfold, !skip_ws_head by reflexivity.
  change (Ascii.eqb "{" "{") with true. cbv iota.
  change (JSON.eat "}" (String JSON.dquote ?r)) with (@None string). cbv iota.
  rewrite members_unfold, skip_ws_head by reflexivity.
  change (JSON.eat JSON.dquote (String JSON.dquote ?r)) with (Some r).
  cbn [mbind option_bind]. rewrite key_literal. cbn [mbind option_bind].
  rewrite skip_ws_head by reflexivity.
  change (JSON.eat ":" (String ":" ?r)) with (Some r). cbn [mbind option_bind].
  rewrite value_unfold, skip_ws_head by reflexivity.
  change (Ascii.eqb JSON.dquote "{") with false.
  change (Ascii.eqb JSON.dquote "[") with false.
  change (Ascii.eqb JSON.dquote JSON.dquote) with true. cbv iota.
  rewrite string_literal_quote_chars. reflexivity.
Qed.

Lemma parse_stringify_channel channel :
  JSON.parse (JSON.stringify_channel channel)
  = Some (JSON.JObject [("channel", JSON.JString channel)]).
Proof.
  unfold JSON.parse.
  replace (2 * String.length (JSON.stringify_channel channel) + 2)%nat
    with (S (S (S (2 * String.length (JSON.stringify_channel channel) - 1)))).
  - by rewrite value_stringify_channel.
  - unfold JSON.stringify_channel. simpl String.length. lia.
Qed.

Lemma decode_state_encode channel :
  decode_state (Some (Base64url.encode (JSON.stringify_channel channel)))
  = Normal (JS.toLowerCase channel).
Proof.
  unfold decode_state. by rewrite decode_encode, parse_stringify_channel.
Qed.

(** ** JSON: the fuel of [JSON.parse] is enough *)

Lemma skip_ws_length s : (String.length (JSON.skip_ws s) ≤ String.length s)%nat.
Proof.
  induction s as [|c s IH]; simpl; [lia|].
  destruct (JSON.is_ws c); simpl; lia.
Qed.

Lemma eat_length c s r :
  JSON.eat c s = Some r → String.length s = S (String.length r).
Proof.
  destruct s as [|x s]; simpl; [discriminate|].
  destruct (Ascii.eqb x c); [|discriminate]. by intros [= ->].
Qed.

Lemma eat_skip_ws_length c s r :
  JSON.eat c (JSON.skip_ws s) = Some r → (String.length r < String.length s)%nat.
Proof.
  intros H. apply eat_length in H. pose proof (skip_ws_length s). lia.
Qed.

Lemma string_items_length_aux n :
  ∀ s l r, (String.length s ≤ n)%nat →
    JSON.string_items s = Some (l, r) → (String.length r < String.length s)%nat.
Proof.
  induction n as [|n IH]; intros s l r Hn H.
  { destruct s; [discriminate|simpl in Hn; lia]. }
  destruct s as [|c rest]; [discriminate|]. simpl in H, Hn.
  destruct (Ascii.eqb c JSON.dquote).
  { injection H as _ <-. simpl. lia. }
  destruct (Ascii.eqb c JSON.backslash).
  - destruct rest as [|e rest1]; [discriminate|]. simpl in Hn.
    destruct (Ascii.eqb e "u").
    + destruct rest1 as [|h1 [|h2 [|h3 [|h4 rest2]]]]; try discriminate.
      simpl in Hn.
      destruct (JSON.hex4 h1 h2 h3 h4); [|discriminate]. simpl in H.
      destruct (JSON.string_items rest2) as [[l' r']|] eqn:Hrec; [|discriminate].
      injection H as _ <-. apply IH in Hrec; [|lia]. simpl. lia.
    + destruct (JSON.simple_escape e); [|discriminate]. simpl in H.
      destruct (JSON.string_items rest1) as [[l' r']|] eqn:Hrec; [|discriminate].
      injection H as _ <-. apply IH in Hrec; [|lia]. simpl. lia.
  - destruct (JS.code c <? 32)%N; [discriminate|].
    destruct (JSON.string_items rest) as [[l' r']|] eqn:Hrec; [|discriminate].
    injection H as _ <-. apply IH in Hrec; [|lia]. simpl. lia.
Qed.

Lemma string_literal_length s str r :
  JSON.string_literal s = Some (str, r) → (String.length r < String.length s)%nat.
Proof.
  unfold JSON.string_literal.
  destruct (JSON.string_items s) as [[l r']|] eqn:H; [|discriminate].
  intros [= _ <-]. by eapply string_items_length_aux.
Qed.

Lemma strip_prefix_length p s r :
  JSON.strip_prefix p s = Some r → (String.length r ≤ String.length s)%nat.
Proof.
  revert s. induction p as [|a p IH]; intros s; simpl.
  - by intros [= ->].
  - destruct s as [|b s]; [discriminate|].
    destruct (Ascii.eqb a b); [|discriminate].
    intros H. apply IH in H. simpl. lia.
Qed.

Lemma span_digits_length s ds r :
  JSON.span_digits s = (ds, r) → (String.length r ≤ String.length s)%nat.
Proof.
  revert ds r. induction s as [|c s IH]; intros ds r; simpl.
  - by intros [= _ <-].
  - destruct (JS.is_digit c).
    + destruct (JSON.span_digits s) as [ds' r'] eqn:H. intros [= _ <-].
      specialize (IH _ _ eq_refl). lia.
    + intros [= _ <-]. simpl. lia.
Qed.

Lemma some_digits_length mark s x r :
  JSON.some_digits mark s = Some (x, r) → (String.length r ≤ String.length s)%nat.
Proof.
  unfold JSON.some_digits.
  destruct (JSON.span_digits s) as [[|d ds] r'] eqn:H; [discriminate|].
  intros [= _ <-]. by eapply span_digits_length.
Qed.

Lemma int_part_length s x r :
  JSON.int_part s = Some (x, r) → (String.length r < String.length s)%nat.
Proof.
  unfold JSON.int_part. destruct s as [|c s]; [discriminate|].
  destruct (Ascii.eqb c "0"); [intros [= _ <-]; simpl; lia|].
  destruct (JS.is_digit c); [|discriminate].
  destruct (JSON.span_digits s) as [ds r'] eqn:H. intros [= _ <-].
  apply span_digits_length in H. simpl. lia.
Qed.

Lemma frac_part_length s x r :
  JSON.frac_part s = Some (x, r) → (String.length r ≤ String.length s)%nat.
Proof.
  unfold JSON.frac_part. destruct (JSON.eat "." s) as [r1|] eqn:He.
  - intros H. apply some_digits_length in H. apply eat_length in He. lia.
  - by intros [= _ <-].
Qed.

Lemma exp_part_length s x r :
  JSON.exp_part s = Some (x, r) → (String.length r ≤ String.length s)%nat.
Proof.
  unfold JSON.exp_part. destruct s as [|c s]; [by intros [= _ <-]|].
  destruct (Ascii.eqb c "e" || Ascii.eqb c "E"); [|by intros [= _ <-]].
  destruct (JSON.eat "+" s) as [r1|] eqn:Hplus.
  { intros H. apply some_digits_length in H. apply eat_length in Hplus. simpl. lia. }
  destruct (JSON.eat "-" s) as [r1|] eqn:Hminus.
  { intros H. apply some_digits_length in H. apply eat_length in Hminus. simpl. lia. }
  intros H. apply some_digits_length in H. simpl. lia.
Qed.

Lemma number_length s x r :
  JSON.number s = Some (x, r) → (String.length r < String.length s)%nat.
Proof.
  unfold JSON.number.
  assert (Hsign : ∀ sign s0,
            match JSON.eat "-" s with
            | Some r0 => ("-", r0)
            | None => (EmptyString, s)
            end = (sign, s0) → (String.length s0 ≤ String.length s)%nat).
  { intros sign s0. destruct (JSON.eat "-" s) as [r0|] eqn:He.
    - intros [= _ <-]. apply eat_length in He. lia.
    - by intros [= _ <-]. }
  destruct (match JSON.eat "-" s with
            | Some r0 => ("-", r0)
            | None => (EmptyString, s)
            end) as [sign s0] eqn:Hs.
  specialize (Hsign _ _ eq_refl).
  destruct (JSON.int_part s0) as [[i s1]|] eqn:Hi; [|discriminate]. simpl.
  destruct (JSON.frac_part s1) as [[f s2]|] eqn:Hf; [|discriminate]. simpl.
  destruct (JSON.exp_part s2) as [[e s3]|] eqn:He; [|discriminate]. simpl.
  intros [= _ <-].
  apply int_part_length in Hi. apply frac_part_length in Hf.
  apply exp_part_length in He. lia.
Qed.

(** Each parser reads at least one character. *)
Lemma parsers_length n :
  (∀ s v r, JSON.value n s = Some (v, r) → (String.length r < String.length s)%nat)
  ∧ (∀ s vs r, JSON.elements n s = Some (vs, r) →
       (String.length r < String.length s)%nat)
  ∧ (∀ s ms r, JSON.members n s = Some (ms, r) →
       (String.length r < String.length s)%nat).
Proof.
  induction n as [|n (IHv & IHe & IHm)]; [by repeat split|].
  split; [|split].
  - intros s v r. rewrite value_unfold. pose proof (skip_ws_length s) as Hws.
    destruct (JSON.skip_ws s) as [|c t]; [discriminate|]. simpl in Hws.
    destruct (Ascii.eqb c "{").
    { destruct (JSON.eat "}" (JSON.skip_ws t)) as [r'|] eqn:He.
      - intros [= _ <-]. apply eat_skip_ws_length in He. lia.
      - destruct (JSON.members n t) as [[ms r']|] eqn:Hm; [|discriminate].
        intros [= _ <-]. apply IHm in Hm. lia. }
    destruct (Ascii.eqb c "[").
    { destruct (JSON.eat "]" (JSON.skip_ws t)) as [r'|] eqn:He.
      - intros [= _ <-]. apply eat_skip_ws_length in He. lia.
      - destruct (JSON.elements n t) as [[vs r']|] eqn:Hm; [|discriminate].
        intros [= _ <-]. apply IHe in Hm. lia. }
    destruct (Ascii.eqb c JSON.dquote).
    { destruct (JSON.string_literal t) as [[str r']|] eqn:Hl; [|discriminate].
      intros [= _ <-]. apply string_literal_length in Hl. lia. }
    destruct (Ascii.eqb c "t").
    { destruct (JSON.strip_prefix "rue" t) as [r'|] eqn:Hp; [|discriminate].
      intros [= _ <-]. apply strip_prefix_length in Hp. lia. }
    destruct (Ascii.eqb c "f").
    { destruct (JSON.strip_prefix "alse" t) as [r'|] eqn:Hp; [|discriminate].
      intros [= _ <-]. apply strip_prefix_length in Hp. lia. }
    destruct (Ascii.eqb c "n").
    { destruct (JSON.strip_prefix "ull" t) as [r'|] eqn:Hp; [|discriminate].
      intros [= _ <-]. apply strip_prefix_length in Hp. lia. }
    destruct (JSON.number (String c t)) as [[lexeme r']|] eqn:Hnum; [|discriminate].
    intros [= _ <-]. apply number_length in Hnum. simpl in Hnum. lia.
  - intros s vs r. rewrite elements_unfold.
    destruct (JSON.value n s) as [[v r1]|] eqn:Hv; [|discriminate]. simpl.
    apply IHv in Hv.
    destruct (JSON.eat "," (JSON.skip_ws r1)) as [r2|] eqn:Hcomma.
    { apply eat_skip_ws_length in Hcomma.
      destruct (JSON.elements n r2) as [[vs' r3]|] eqn:Hrest; [|discriminate].
      intros [= _ <-]. apply IHe in Hrest. lia. }
    destruct (JSON.eat "]" (JSON.skip_ws r1)) as [r2|] eqn:Hclose; [|discriminate].
    intros [= _ <-]. apply eat_skip_ws_length in Hclose. lia.
  - intros s ms r. rewrite members_unfold.
    destruct (JSON.eat JSON.dquote (JSON.skip_ws s)) as [t|] eqn:Hq; [|discriminate].
    simpl. apply eat_skip_ws_length in Hq.
    destruct (JSON.string_literal t) as [[k r1]|] eqn:Hk; [|discriminate]. simpl.
    apply string_literal_length in Hk.
    destruct (JSON.eat ":" (JSON.skip_ws r1)) as [r2|] eqn:Hcolon; [|discriminate].
    simpl. apply eat_skip_ws_length in Hcolon.
    destruct (JSON.value n r2) as [[v r3]|] eqn:Hv; [|discriminate]. simpl.
    apply IHv in Hv.
    destruct (JSON.eat "," (JSON.skip_ws r3)) as [r4|] eqn:Hcomma.
    { apply eat_skip_ws_length in Hcomma.
      destruct (JSON.members n r4) as [[ms' r5]|] eqn:Hrest; [|discriminate].
      intros [= _ <-]. apply IHm in Hrest. lia. }
    destruct (JSON.eat "}" (JSON.skip_ws r3)) as [r4|] eqn:Hclose; [|discriminate].
    intros [= _ <-]. apply eat_skip_ws_length in Hclose. lia.
Qed.

(** With fuel above twice the length of the text, one more unit of fuel
    changes nothing. *)
Lemma parsers_fuel_step n :
  (∀ s, (2 * String.length s + 1 ≤ n)%nat → JSON.value (S n) s = JSON.value n s)
  ∧ (∀ s, (2 * String.length s + 2 ≤ n)%nat →
       JSON.elements (S n) s = JSON.elements n s)
  ∧ (∀ s, (2 * String.length s + 2 ≤ n)%nat →
       JSON.members (S n) s = JSON.members n s).
Proof.
  induction n as [|n (IHv & IHe & IHm)].
  { repeat split; intros s Hs; lia. }
  split; [|split].
  - intros s Hs. rewrite !value_unfold. pose proof (skip_ws_length s) as Hws.
    destruct (JSON.skip_ws s) as [|c t]; [reflexivity|]. cbn [String.length] in Hws.
    rewrite (IHm t) by lia. rewrite (IHe t) by lia. reflexivity.
  - intros s Hs. rewrite !elements_unfold. rewrite (IHv s) by lia.
    destruct (JSON.value n s) as [[v r1]|] eqn:Hv; [|reflexivity]. cbn [mbind option_bind].
    apply (proj1 (parsers_length n)) in Hv.
    destruct (JSON.eat "," (JSON.skip_ws r1)) as [r2|] eqn:Hcomma; [|reflexivity].
    apply eat_skip_ws_length in Hcomma. rewrite (IHe r2) by lia. reflexivity.
  - intros s Hs. rewrite !members_unfold.
    destruct (JSON.eat JSON.dquote (JSON.skip_ws s)) as [t|] eqn:Hq; [|reflexivity].
    cbn [mbind option_bind]. apply eat_skip_ws_length in Hq.
    destruct (JSON.string_literal t) as [[k r1]|] eqn:Hk; [|reflexivity]. cbn [mbind option_bind].
    apply string_literal_length in Hk.
    destruct (JSON.eat ":" (JSON.skip_ws r1)) as [r2|] eqn:Hcolon; [|reflexivity].
    cbn [mbind option_bind]. apply eat_skip_ws_length in Hcolon. rewrite (IHv r2) by lia.
    destruct (JSON.value n r2) as [[v r3]|] eqn:Hv; [|reflexivity]. cbn [mbind option_bind].
    apply (proj1 (parsers_length n)) in Hv.
    destruct (JSON.eat "," (JSON.skip_ws r3)) as [r4|] eqn:Hcomma; [|reflexivity].
    apply eat_skip_ws_length in Hcomma. rewrite (IHm r4) by lia. reflexivity.
Qed.

(** The fuel that [JSON.parse] gives is enough: no larger amount makes
    the parser answer differently. *)
Lemma value_fuel_enough s n :
  (2 * String.length s + 2 ≤ n)%nat →
  JSON.value n s = JSON.value (2 * String.length s + 2) s.
Proof.
  intros Hn. induction Hn as [|n Hn IH]; [reflexivity|].
  rewrite <- IH. apply (proj1 (parsers_fuel_step n)). lia.
Qed.

(** ** Reading and writing the stores *)

Section Objects.

Context {R : Type} `{Obj.Literal R}.

Implicit Types (obj : gmap string R) (key k : string) (r : R).

(** A read gives a literal exactly when one was written under the key. *)
Lemma get_Lit obj key r : Obj.get obj key = Obj.Lit r ↔ obj !! key = Some r.
Proof.
  unfold Obj.get. destruct (obj !! key) as [r'|].
  - split; intros [= ->]; reflexivity.
  - split; [|discriminate].
    destruct (obj !! Obj.proto ≫= λ p, Obj.property p key); [discriminate|].
    by destruct (String.eqb key Obj.proto || Obj.is_method key).
Qed.

Lemma get_insert_eq obj key r : Obj.get (<[key := r]> obj) key = Obj.Lit r.
Proof. apply get_Lit, lookup_insert_eq. Qed.

(** A write under a key other than [__proto__] is seen under that key
    only. *)
Lemma get_insert_ne obj key r k :
  k ≠ key → key ≠ Obj.proto → Obj.get (<[key := r]> obj) k = Obj.get obj k.
Proof.
  intros Hk Hkey. unfold Obj.get.
  rewrite (lookup_insert_ne obj key k) by done.
  by rewrite (lookup_insert_ne obj key Obj.proto) by done.
Qed.

(** A write under [__proto__] is seen under that key and under the
    names of the properties of the literals. *)
Lemma get_insert_proto obj r k :
  k ≠ Obj.proto →
  Obj.property r k = None →
  (∀ p, obj !! Obj.proto = Some p → Obj.property p k = None) →
  Obj.get (<[Obj.proto := r]> obj) k = Obj.get obj k.
Proof.
  intros Hk Hr Hold. unfold Obj.get.
  rewrite (lookup_insert_ne obj Obj.proto k) by done.
  rewrite lookup_insert_eq. simpl. rewrite Hr.
  destruct (obj !! Obj.proto) as [p|] eqn:Hp; simpl; [|reflexivity].
  by rewrite (Hold p eq_refl).
Qed.

(** Where no literal was written, there is no field of a literal to
    read. *)
Lemma field_get_None {A} (f : R → option A) obj key :
  obj !! key = None → Obj.field f (Obj.get obj key) = None.
Proof.
  intros Hnone. unfold Obj.get. rewrite Hnone.
  destruct (obj !! Obj.proto ≫= λ p, Obj.property p key); [reflexivity|].
  by destruct (String.eqb key Obj.proto || Obj.is_method key).
Qed.

Lemma field_get {A} (f : R → option A) obj key :
  Obj.field f (Obj.get obj key) = obj !! key ≫= f.
Proof.
  destruct (obj !! key) as [r|] eqn:Hr.
  - apply get_Lit in Hr. by rewrite Hr.
  - by rewrite field_get_None.
Qed.

End Objects.

Lemma token_property_None (r : TokenInfo) k :
  Obj.property r k = None ↔ token_property k = false.
Proof.
  unfold Obj.property, token_literal, token_property. simpl.
  destruct (String.eqb k "access_token"); [by split|].
  destruct (String.eqb k "refresh_token"); [by split|].
  destruct (String.eqb k "broadcaster_id"); by split.
Qed.

(** A write to [tokensByChannel] is not seen under the keys apart from
    the one written. *)
Lemma get_tokens_apart (tokens : gmap string TokenInfo) key r k :
  reads_apart key k → Obj.get (<[key := r]> tokens) k = Obj.get tokens k.
Proof.
  intros [Hk Hproto]. destruct (decide (key = Obj.proto)) as [->|Hkey].
  - apply get_insert_proto; [exact Hk| |intros p _];
      by apply token_property_None, Hproto.
  - by apply get_insert_ne.
Qed.

(** Reads that go through the prototype. *)
Example get_inherited :
  let installed : gmap string TokenInfo :=
    <["__proto__" := mkTokenInfo (Some "a") (Some "r") None]> ∅ in
  Obj.get (∅ : gmap string TokenInfo) "constructor" = Obj.Builtin
  ∧ Obj.get (∅ : gmap string TokenInfo) "__proto__" = Obj.Builtin
  ∧ Obj.get (∅ : gmap string TokenInfo) "foo" = Obj.Primitive Obj.Undefined
  ∧ Obj.get installed "__proto__" = Obj.Lit (mkTokenInfo (Some "a") (Some "r") None)
  ∧ Obj.get installed "access_token" = Obj.Primitive (Obj.Str "a")
  ∧ Obj.get installed "broadcaster_id" = Obj.Primitive Obj.Undefined
  ∧ Obj.get installed "constructor" = Obj.Builtin
  ∧ Obj.get (<["__proto__" := 7]> ∅ : gmap string Z) "goal"
    = Obj.Primitive (Obj.Num 7).
Proof. repeat split; reflexivity. Qed.

(** ** Effects of the primitives *)

Section Effects.

Variable env : Env.

Lemma axios_run r st :
  axios env r st
  = (match provider env (log st) r with
     | Status s data =>
         if (200 <=? s) && (s <? 300) then Normal data
         else Throw (AxiosError (Some s))
     | NetworkError => Throw (AxiosError None)
     end, record (Http r) st).
Proof.
  unfold axios. destruct (provider env (log st) r) as [s data|]; [|reflexivity].
  by destruct ((200 <=? s) && (s <? 300)).
Qed.

Lemma metric_requests_app l1 l2 :
  metric_requests (l1 ++ l2) = (metric_requests l1 + metric_requests l2)%nat.
Proof. unfold metric_requests. by rewrite List.filter_app, length_app. Qed.

Lemma refresh_requests_app l1 l2 :
  refresh_requests (l1 ++ l2) = (refresh_requests l1 + refresh_requests l2)%nat.
Proof. unfold refresh_requests. by rewrite List.filter_app, length_app. Qed.

Lemma emits_ret {A} (a : A) : emits (ret a) 0 0.
Proof. intros st. exists []. simpl. rewrite app_nil_r. auto. Qed.

Lemma emits_throw {A} e : emits (@throw A e) 0 0.
Proof. intros st. exists []. simpl. rewrite app_nil_r. auto. Qed.

Lemma emits_get : emits get 0 0.
Proof. intros st. exists []. simpl. rewrite app_nil_r. auto. Qed.

Lemma emits_modify f : (∀ st, log (f st) = log st) → emits (modify f) 0 0.
Proof. intros Hf st. exists []. simpl. rewrite app_nil_r, Hf. auto. Qed.

Lemma emits_weaken {A} (c : M A) m r m' r' :
  emits c m r → (m ≤ m')%nat → (r ≤ r')%nat → emits c m' r'.
Proof.
  intros Hc Hm Hr st. destruct (Hc st) as (new & Hlog & ? & ?).
  exists new. split; [done|]. split; lia.
Qed.

Lemma emits_bind {A B} (c : M A) (k : A → M B) m r m' r' :
  emits c m r → (∀ a, emits (k a) m' r') → emits (bind c k) (m + m') (r + r').
Proof.
  intros Hc Hk st. unfold bind.
  destruct (Hc st) as (new & Hlog & Hm & Hr).
  destruct (c st) as [[a|e] st1]; simpl in Hlog.
  - destruct (Hk a st1) as (new' & Hlog' & Hm' & Hr').
    exists (new ++ new'). rewrite Hlog', Hlog, <- app_assoc.
    rewrite metric_requests_app, refresh_requests_app. split; [done|]. split; lia.
  - exists new. simpl. split; [done|]. split; lia.
Qed.

Lemma emits_try_catch {A} (c : M A) (h : Exn → M A) m r m' r' :
  emits c m r → (∀ e, emits (h e) m' r') → emits (try_catch c h) (m + m') (r + r').
Proof.
  intros Hc Hh st. unfold try_catch.
  destruct (Hc st) as (new & Hlog & Hm & Hr).
  destruct (c st) as [[a|e] st1]; simpl in Hlog.
  - exists new. simpl. split; [done|]. split; lia.
  - destruct (Hh e st1) as (new' & Hlog' & Hm' & Hr').
    exists (new ++ new'). rewrite Hlog', Hlog, <- app_assoc.
    rewrite metric_requests_app, refresh_requests_app. split; [done|]. split; lia.
Qed.

Lemma emits_axios r :
  emits (axios env r)
    (if is_metric_request (Http r) then 1 else 0)
    (if is_refresh_request (Http r) then 1 else 0).
Proof.
  intros st. exists [Http r]. rewrite axios_run. simpl.
  split; [done|]. unfold metric_requests, refresh_requests. simpl.
  destruct r as [[]| |]; simpl; lia.
Qed.

Lemma emits_query q : emits (query env q) 0 0.
Proof.
  intros st. unfold query.
  destruct (twitch_tokens st) as [t|]; [|exists []; simpl; by rewrite app_nil_r].
  exists [Sql q].
  destruct (db_up env (log st) q); [destruct (exec q t) as [[t' rows]|]|];
    simpl; auto.
Qed.

Lemma emits_when_db c m r : emits c m r → emits (when_db c) m r.
Proof.
  intros Hc st. unfold when_db. destruct (DATABASE_URL st); [apply Hc|].
  exists []. simpl. rewrite app_nil_r. split; [done|].
  unfold metric_requests, refresh_requests. simpl. split; lia.
Qed.

Ltac emits_leaf L := eapply emits_weaken; [apply L | simpl; lia | simpl; lia].

Ltac emits_bind_with m r m' r' :=
  eapply emits_weaken;
  [apply (emits_bind _ _ m r m' r') | simpl; lia | simpl; lia].

Ltac emits_catch_with m r m' r' :=
  eapply emits_weaken;
  [apply (emits_try_catch _ _ m r m' r') | simpl; lia | simpl; lia].

Lemma emits_tokens_of data : emits (tokens_of data) 0 0.
Proof. destruct data; [apply emits_ret | apply emits_throw]. Qed.

Lemma emits_total_of data : emits (total_of data) 0 0.
Proof.
  destruct data as [p|]; [|apply emits_throw]. simpl.
  destruct (p_total p); [apply emits_ret|].
  destruct (p_data p); apply emits_ret.
Qed.

Lemma emits_refreshAccessToken channel tokenInfo :
  emits (refreshAccessToken env channel tokenInfo) 0 1.
Proof.
  unfold refreshAccessToken.
  destruct (Obj.field refresh_token tokenInfo) as [[|c s]|];
    try emits_leaf (@emits_ret (Obj.Value TokenInfo)).
  emits_catch_with 0%nat 1%nat 0%nat 0%nat; [|intros; apply emits_ret].
  emits_bind_with 0%nat 1%nat 0%nat 0%nat.
  { emits_leaf (emits_axios (PostToken (RefreshToken (String c s)))). }
  intros res. emits_bind_with 0%nat 0%nat 0%nat 0%nat; [apply emits_tokens_of|].
  intros tokens. emits_bind_with 0%nat 0%nat 0%nat 0%nat; [by apply emits_modify|].
  intros _. emits_bind_with 0%nat 0%nat 0%nat 0%nat.
  { apply emits_when_db.
    emits_bind_with 0%nat 0%nat 0%nat 0%nat; [apply emits_query|intros; apply emits_ret]. }
  intros _.
  emits_bind_with 0%nat 0%nat 0%nat 0%nat; [apply emits_get|intros; apply emits_ret].
Qed.

Lemma emits_doRequest info access : emits (doRequest env info access) 1 0.
Proof.
  unfold doRequest. emits_bind_with 1%nat 0%nat 0%nat 0%nat.
  - emits_leaf (emits_axios (GetSubscriptions (Obj.field broadcaster_id info) access)).
  - intros. apply emits_total_of.
Qed.

Lemma emits_fetch info access :
  emits (let! total := doRequest env info access in ret (Some total)) 1 0.
Proof.
  emits_bind_with 1%nat 0%nat 0%nat 0%nat; [apply emits_doRequest|].
  intros. apply emits_ret.
Qed.

Lemma emits_getCurrentSubsForChannel channel :
  emits (getCurrentSubsForChannel env channel) 2 1.
Proof.
  unfold getCurrentSubsForChannel.
  emits_bind_with 0%nat 0%nat 2%nat 1%nat; [apply emits_get|].
  intros st. cbv zeta.
  destruct (Obj.truthy (Obj.get (tokensByChannel st) (JS.toLowerCase channel)));
    [|emits_leaf (@emits_ret (option Z))].
  emits_catch_with 1%nat 0%nat 1%nat 1%nat; [apply emits_fetch|].
  intros err. destruct (is_unauthorized err); [|emits_leaf (@emits_ret (option Z))].
  emits_bind_with 0%nat 1%nat 1%nat 0%nat; [apply emits_refreshAccessToken|].
  intros refreshed. destruct (Obj.truthy refreshed); [|emits_leaf (@emits_ret (option Z))].
  emits_catch_with 1%nat 0%nat 0%nat 0%nat; [apply emits_fetch|].
  intros. apply emits_ret.
Qed.

End Effects.

(** C1. One call of [getCurrentSubsForChannel] sends at most two metric
    requests, the first one and at most one more after at most one token
    refresh, whatever the provider answers and in whatever state. *)
Theorem getCurrentSubsForChannel_at_most_two_metric_requests
    (env : Env) (channel : string) (st : State) :
  ∃ new,
    log (snd (getCurrentSubsForChannel env channel st)) = log st ++ new
    ∧ (metric_requests new ≤ 2)%nat
    ∧ (refresh_requests new ≤ 1)%nat.
Proof. apply emits_getCurrentSubsForChannel. Qed.

(** ** Computations that never throw *)

Lemma total_ret {A} (a : A) : total (ret a).
Proof. intros st. by exists a, st. Qed.

Lemma total_get : total get.
Proof. intros st. by exists st, st. Qed.

Lemma total_modify f : total (modify f).
Proof. intros st. by exists tt, (f st). Qed.

Lemma total_bind {A B} (c : M A) (k : A → M B) :
  total c → (∀ a, total (k a)) → total (bind c k).
Proof.
  intros Hc Hk st. unfold bind. destruct (Hc st) as (a & st1 & ->). apply Hk.
Qed.

Lemma total_try_catch {A} (c : M A) (h : Exn → M A) :
  (∀ e, total (h e)) → total (try_catch c h).
Proof.
  intros Hh st. unfold try_catch. destruct (c st) as [[a|e] st1].
  - by exists a, st1.
  - apply Hh.
Qed.

Lemma total_refreshAccessToken env channel tokenInfo :
  total (refreshAccessToken env channel tokenInfo).
Proof.
  unfold refreshAccessToken.
  destruct (Obj.field refresh_token tokenInfo) as [[|c s]|]; try apply total_ret.
  apply total_try_catch. intros. apply total_ret.
Qed.

Lemma total_getCurrentSubsForChannel env channel :
  total (getCurrentSubsForChannel env channel).
Proof.
  unfold getCurrentSubsForChannel. apply total_bind; [apply total_get|].
  intros st. cbv zeta.
  destruct (Obj.truthy (Obj.get (tokensByChannel st) (JS.toLowerCase channel)));
    [|apply total_ret].
  apply total_try_catch. intros err.
  destruct (is_unauthorized err); [|apply total_ret].
  apply total_bind; [apply total_refreshAccessToken|].
  intros refreshed. destruct (Obj.truthy refreshed); [|apply total_ret].
  apply total_try_catch. intros. apply total_ret.
Qed.

(** ** Token refresh *)

(** C4. Without a stored record for the channel (no literal was ever
    written under it, whatever a read finds there on the prototype), or
    with a record whose refresh token is missing or empty,
    [refreshAccessToken], given what [tokensByChannel] holds for the
    channel, returns null and leaves the whole state, the log of
    outbound calls included, as it was: no request is sent. *)
Theorem refreshAccessToken_without_refresh_token
    (env : Env) (channel : string) (st : State) :
  tokensByChannel st !! channel = None
  ∨ (∃ info, Obj.get (tokensByChannel st) channel = Obj.Lit info
             ∧ JS.truthy (refresh_token info) = false) →
  refreshAccessToken env channel (Obj.get (tokensByChannel st) channel) st
  = (Normal (Obj.Primitive Obj.Null), st).
Proof.
  intros [Hnone | (info & Hinfo & Hfalsy)]; unfold refreshAccessToken.
  - by rewrite (field_get_None refresh_token _ _ Hnone).
  - rewrite Hinfo. simpl.
    destruct (refresh_token info) as [[|c s]|]; try reflexivity. discriminate.
Qed.

Lemma refreshAccessToken_without_refresh_token_witness :
  ((tokensByChannel sample_state !! "bar" = None
    ∨ (∃ info, Obj.get (tokensByChannel sample_state) "bar" = Obj.Lit info
               ∧ JS.truthy (refresh_token info) = false))
   ∧ refreshAccessToken env_ok "bar" (Obj.get (tokensByChannel sample_state) "bar")
       sample_state
     = (Normal (Obj.Primitive Obj.Null), sample_state))
  ∧ ((tokensByChannel sample_state_no_refresh !! "foo" = None
      ∨ (∃ info, Obj.get (tokensByChannel sample_state_no_refresh) "foo" = Obj.Lit info
                 ∧ JS.truthy (refresh_token info) = false))
     ∧ refreshAccessToken env_ok "foo"
         (Obj.get (tokensByChannel sample_state_no_refresh) "foo")
         sample_state_no_refresh
       = (Normal (Obj.Primitive Obj.Null), sample_state_no_refresh)).
Proof.
  assert (H : tokensByChannel sample_state !! "bar" = None) by reflexivity.
  assert (H' : ∃ info,
             Obj.get (tokensByChannel sample_state_no_refresh) "foo" = Obj.Lit info
             ∧ JS.truthy (refresh_token info) = false).
  { eexists. split; reflexivity. }
  split; (split; [by (left + right)|]).
  - apply (refreshAccessToken_without_refresh_token env_ok "bar" sample_state).
    by left.
  - apply (refreshAccessToken_without_refresh_token env_ok "foo"
             sample_state_no_refresh).
    by right.
Defined.

(** C5, as the specification words it, fails: with no reply at all from
    the provider (a transport-level fault) the refresh of an authorized
    channel returns null; it does not throw. *)
Lemma refreshAccessToken_offline_returns_null :
  Obj.get (tokensByChannel sample_state) "foo" = Obj.Lit sample_info
  ∧ provider env_offline (log sample_state) (PostToken (RefreshToken "refresh-0"))
    = NetworkError
  ∧ fst (refreshAccessToken env_offline "foo" (Obj.Lit sample_info) sample_state)
    = Normal (Obj.Primitive Obj.Null).
Proof. repeat split; reflexivity. Qed.

(** C5, amended. [refreshAccessToken] never throws, and it returns null
    whenever the refresh request does not come back with a 2xx status:
    when the provider rejects it and when the transport fails alike. *)
Theorem refreshAccessToken_never_throws
    (env : Env) (channel : string) (tokenInfo : Obj.Value TokenInfo) (st : State) :
  (∃ r st', refreshAccessToken env channel tokenInfo st = (Normal r, st'))
  ∧ (∀ rt,
       Obj.field refresh_token tokenInfo = Some rt →
       resolves (provider env (log st) (PostToken (RefreshToken rt))) = false →
       fst (refreshAccessToken env channel tokenInfo st)
       = Normal (Obj.Primitive Obj.Null)).
Proof.
  split; [apply total_refreshAccessToken|].
  intros rt Hrt Hreply. unfold refreshAccessToken. rewrite Hrt.
  destruct rt as [|c s]; [reflexivity|].
  unfold try_catch, bind. rewrite axios_run.
  destruct (provider env (log st) (PostToken (RefreshToken (String c s))))
    as [s0 data|]; simpl in Hreply; [|reflexivity].
  by rewrite Hreply.
Qed.

Lemma refreshAccessToken_never_throws_witness :
  (Obj.field refresh_token (Obj.Lit sample_info) = Some "refresh-0"
   ∧ resolves (provider env_rejecting (log sample_state)
                 (PostToken (RefreshToken "refresh-0"))) = false)
  ∧ fst (refreshAccessToken env_rejecting "foo" (Obj.Lit sample_info) sample_state)
    = Normal (Obj.Primitive Obj.Null).
Proof.
  split; [split; reflexivity|].
  apply (proj2 (refreshAccessToken_never_throws env_rejecting "foo"
                  (Obj.Lit sample_info) sample_state) "refresh-0");
    reflexivity.
Defined.

(** C6. A refresh that succeeds for a channel with a stored record puts
    the two tokens of the provider's reply into that record and changes
    nothing else: the broadcaster id stays, in the cache and in the
    table, and so do the goals, what was written under the other keys of
    the cache, and what is read there under every key apart from the
    channel ([reads_apart]: when the channel is [__proto__] the new
    record is the prototype, and is seen under the names of its three
    properties). *)
Theorem refreshAccessToken_replaces_only_tokens
    (env : Env) (channel : string) (info fresh : TokenInfo) (st st' : State) :
  Obj.get (tokensByChannel st) channel = Obj.Lit info →
  refreshAccessToken env channel (Obj.Lit info) st = (Normal (Obj.Lit fresh), st') →
  Obj.get (tokensByChannel st') channel = Obj.Lit fresh
  ∧ broadcaster_id fresh = broadcaster_id info
  ∧ (∃ rt s p,
       refresh_token info = Some rt
       ∧ provider env (log st) (PostToken (RefreshToken rt)) = Status s (Some p)
       ∧ access_token fresh = p_access_token p
       ∧ refresh_token fresh = p_refresh_token p)
  ∧ (∀ other, reads_apart channel other →
       Obj.get (tokensByChannel st') other = Obj.get (tokensByChannel st) other)
  ∧ (∀ other, other ≠ channel →
       tokensByChannel st' !! other = tokensByChannel st !! other)
  ∧ goalsByChannel st' = goalsByChannel st
  ∧ match twitch_tokens st with
    | None => twitch_tokens st' = None
    | Some t =>
        ∃ t', twitch_tokens st' = Some t'
              ∧ (∀ other, other ≠ channel → t' !! other = t !! other)
              ∧ match t !! channel with
                | None => t' !! channel = None
                | Some old =>
                    ∃ a r, access_token fresh = Some a
                           ∧ refresh_token fresh = Some r
                           ∧ t' !! channel = Some (mkRow (row_broadcaster_id old) a r)
                end
    end.
Proof.
  intros Hstored Hrun. unfold refreshAccessToken in Hrun. simpl in Hrun.
  destruct (refresh_token info) as [[|c s]|] eqn:Hrt; try discriminate.
  unfold try_catch, bind in Hrun. rewrite axios_run in Hrun.
  destruct (provider env (log st) (PostToken (RefreshToken (String c s))))
    as [code data|] eqn:Hreply; simpl in Hrun; [|discriminate].
  destruct ((200 <=? code) && (code <? 300)); simpl in Hrun; [|discriminate].
  destruct data as [p|]; simpl in Hrun; [|discriminate].
  unfold when_db, DATABASE_URL, query in Hrun. simpl in Hrun.
  destruct (twitch_tokens st) as [t|] eqn:Ht; simpl in Hrun.
  - destruct (db_up env (log st ++ [Http (PostToken (RefreshToken (String c s)))])
                (UpdateToken channel (p_access_token p) (p_refresh_token p)));
      simpl in Hrun; [|discriminate].
    destruct (t !! channel) as [old|] eqn:Hold; simpl in Hrun.
    + destruct (p_access_token p) as [a|] eqn:Ha; simpl in Hrun; [|discriminate].
      destruct (p_refresh_token p) as [r|] eqn:Hr; simpl in Hrun; [|discriminate].
      rewrite get_insert_eq in Hrun. injection Hrun as <- <-. simpl.
      rewrite get_insert_eq.
      split; [done|]. split; [done|].
      split; [exists (String c s), code, p; by rewrite Ha, Hr|].
      split; [intros; by apply get_tokens_apart|].
      split; [intros; by rewrite lookup_insert_ne|].
      split; [done|].
      eexists. split; [done|]. split; [intros; by rewrite lookup_insert_ne|].
      exists a, r. by rewrite lookup_insert_eq.
    + rewrite get_insert_eq in Hrun. injection Hrun as <- <-. simpl.
      rewrite get_insert_eq.
      split; [done|]. split; [done|].
      split; [by exists (String c s), code, p|].
      split; [intros; by apply get_tokens_apart|].
      split; [intros; by rewrite lookup_insert_ne|].
      split; [done|].
      exists t. by rewrite Hold.
  - rewrite get_insert_eq in Hrun. injection Hrun as <- <-. simpl.
    rewrite get_insert_eq, Ht.
    split; [done|]. split; [done|].
    split; [by exists (String c s), code, p|].
    split; [intros; by apply get_tokens_apart|].
    split; [intros; by rewrite lookup_insert_ne|].
    done.
Qed.

Lemma refreshAccessToken_replaces_only_tokens_witness :
  ∃ fresh st',
    (Obj.get (tokensByChannel sample_state) "foo" = Obj.Lit sample_info
     ∧ refreshAccessToken env_ok "foo" (Obj.Lit sample_info) sample_state
       = (Normal (Obj.Lit fresh), st'))
    ∧ Obj.get (tokensByChannel st') "foo" = Obj.Lit fresh
    ∧ broadcaster_id fresh = broadcaster_id sample_info.
Proof.
  destruct (refreshAccessToken env_ok "foo" (Obj.Lit sample_info) sample_state)
    as [r st'] eqn:Hrun.
  assert (Hr : r = Normal (Obj.Lit (mkTokenInfo (Some "access-1") (Some "refresh-1")
                                      (Some "4242")))).
  { apply (f_equal fst) in Hrun. simpl in Hrun. rewrite <- Hrun. reflexivity. }
  subst r. eexists _, st'.
  assert (Hstored : Obj.get (tokensByChannel sample_state) "foo" = Obj.Lit sample_info)
    by reflexivity.
  split; [split; [exact Hstored | reflexivity]|].
  destruct (refreshAccessToken_replaces_only_tokens env_ok "foo" sample_info _
              sample_state st' Hstored Hrun) as (H1 & H2 & _).
  split; assumption.
Defined.

(** ** OAuth callback *)

(** C2. When the code-for-token exchange succeeds and the identity fetch
    that follows fails, the callback answers 500 and has written nothing:
    the cache, the table and the goals are what they were. *)
Theorem callback_identity_failure_commits_nothing
    (env : Env) (q : CallbackQuery) (st : State)
    (channel : string) (s : Z) (p : Payload) :
  JS.truthy (q_error q) = false →
  decode_state (q_state q) = Normal channel →
  provider env (log st) (PostToken (AuthorizationCode (q_code q)))
  = Status s (Some p) →
  (200 <=? s) && (s <? 300) = true →
  identity_failed
    (provider env (log st ++ [Http (PostToken (AuthorizationCode (q_code q)))])
       (GetUsers (p_access_token p))) = true →
  ∃ st',
    auth_twitch_callback env q st
    = (Normal (mkResponse 500
                 (Text "Failed to complete Twitch OAuth. Check server logs.")), st')
    ∧ tokensByChannel st' = tokensByChannel st
    ∧ twitch_tokens st' = twitch_tokens st
    ∧ goalsByChannel st' = goalsByChannel st.
Proof.
  intros Herror Hstate Hexchange Hok Hidentity.
  unfold auth_twitch_callback. rewrite Herror, Hstate.
  unfold complete_authorization, try_catch, bind.
  rewrite axios_run, Hexchange, Hok. simpl.
  rewrite axios_run. simpl.
  destruct (provider env (log st ++ [Http (PostToken (AuthorizationCode (q_code q)))])
              (GetUsers (p_access_token p))) as [s2 [p2|]|];
    simpl in Hidentity |- *.
  - destruct ((200 <=? s2) && (s2 <? 300)); simpl in Hidentity |- *;
      [|by eexists].
    destruct (p_data p2) as [[|user users]|]; simpl; try discriminate; by eexists.
  - destruct ((200 <=? s2) && (s2 <? 300)); simpl; by eexists.
  - by eexists.
Qed.

Lemma callback_identity_failure_commits_nothing_witness :
  (JS.truthy (q_error sample_callback) = false
   ∧ decode_state (q_state sample_callback) = Normal "foo"
   ∧ provider env_no_identity (log (initial (Some ∅)))
       (PostToken (AuthorizationCode (q_code sample_callback)))
     = Status 200 (Some sample_payload)
   ∧ (200 <=? 200) && (200 <? 300) = true
   ∧ identity_failed
       (provider env_no_identity
          (log (initial (Some ∅))
           ++ [Http (PostToken (AuthorizationCode (q_code sample_callback)))])
          (GetUsers (p_access_token sample_payload))) = true)
  ∧ ∃ st',
      auth_twitch_callback env_no_identity sample_callback (initial (Some ∅))
      = (Normal (mkResponse 500
                   (Text "Failed to complete Twitch OAuth. Check server logs.")), st')
      ∧ tokensByChannel st' = tokensByChannel (initial (Some ∅))
      ∧ twitch_tokens st' = twitch_tokens (initial (Some ∅))
      ∧ goalsByChannel st' = goalsByChannel (initial (Some ∅)).
Proof.
  assert (Hstate : decode_state (q_state sample_callback) = Normal "foo")
    by (vm_compute; reflexivity).
  split; [repeat split; try reflexivity; exact Hstate|].
  apply (callback_identity_failure_commits_nothing env_no_identity sample_callback
           (initial (Some ∅)) "foo" 200 sample_payload);
    try reflexivity; exact Hstate.
Defined.

(** C3, as the specification words it, fails: without [DATABASE_URL] the
    callback succeeds and the cache holds the record, but no durable
    store holds anything. *)
Lemma callback_without_database_counterexample :
  let st' := snd (auth_twitch_callback env_ok sample_callback (initial None)) in
  fst (auth_twitch_callback env_ok sample_callback (initial None))
  = Normal (mkResponse 200 (Connected "foo"))
  ∧ Obj.get (tokensByChannel st') "foo"
    = Obj.Lit (mkTokenInfo (Some "access-1") (Some "refresh-1") (Some "4242"))
  ∧ stored_record st' "foo" = None.
Proof. vm_compute. repeat split; reflexivity. Qed.

(** C3, amended. With a durable store configured ([DATABASE_URL] set),
    after a callback that succeeds the cache and the table hold the same
    record for the channel of the state parameter. *)
Theorem callback_success_write_through
    (env : Env) (q : CallbackQuery) (st st' : State) (resp : Response) :
  DATABASE_URL st = true →
  auth_twitch_callback env q st = (Normal resp, st') →
  status resp = 200 →
  ∃ channel info,
    decode_state (q_state q) = Normal channel
    ∧ body resp = Connected channel
    ∧ Obj.get (tokensByChannel st') channel = Obj.Lit info
    ∧ stored_record st' channel = Some info.
Proof.
  intros Hdb Hrun Hstatus. unfold auth_twitch_callback in Hrun.
  destruct (JS.truthy (q_error q)).
  { injection Hrun as <- <-. discriminate. }
  destruct (decode_state (q_state q)) as [channel|e].
  2: { injection Hrun as <- <-. discriminate. }
  unfold complete_authorization, try_catch, bind in Hrun.
  rewrite axios_run in Hrun.
  destruct (provider env (log st) (PostToken (AuthorizationCode (q_code q))))
    as [s data|]; simpl in Hrun.
  2: { injection Hrun as <- <-. discriminate. }
  destruct ((200 <=? s) && (s <? 300)); simpl in Hrun.
  2: { injection Hrun as <- <-. discriminate. }
  destruct data as [p|]; simpl in Hrun.
  2: { injection Hrun as <- <-. discriminate. }
  rewrite axios_run in Hrun. simpl in Hrun.
  destruct (provider env (log st ++ [Http (PostToken (AuthorizationCode (q_code q)))])
              (GetUsers (p_access_token p))) as [s2 data2|]; simpl in Hrun.
  2: { injection Hrun as <- <-. discriminate. }
  destruct ((200 <=? s2) && (s2 <? 300)); simpl in Hrun.
  2: { injection Hrun as <- <-. discriminate. }
  destruct data2 as [p2|]; simpl in Hrun.
  2: { injection Hrun as <- <-. discriminate. }
  destruct (p_data p2) as [[|user users]|]; simpl in Hrun;
    try (injection Hrun as <- <-; discriminate).
  unfold when_db, DATABASE_URL, query in Hrun, Hdb. simpl in Hrun.
  destruct (twitch_tokens st) as [t|]; [|discriminate]. simpl in Hrun.
  destruct (db_up env _ _); simpl in Hrun.
  2: { injection Hrun as <- <-. discriminate. }
  destruct (id user) as [uid|]; simpl in Hrun.
  2: { injection Hrun as <- <-. discriminate. }
  destruct (p_access_token p) as [a|]; simpl in Hrun.
  2: { injection Hrun as <- <-. discriminate. }
  destruct (p_refresh_token p) as [r|]; simpl in Hrun.
  2: { injection Hrun as <- <-. discriminate. }
  injection Hrun as <- <-.
  exists channel, (mkTokenInfo (Some a) (Some r) (Some uid)).
  split; [done|]. split; [done|].
  unfold stored_record. simpl. by rewrite get_insert_eq, lookup_insert_eq.
Qed.

Lemma callback_success_write_through_witness :
  let run := auth_twitch_callback env_ok sample_callback (initial (Some ∅)) in
  (DATABASE_URL (initial (Some ∅)) = true ∧ status (mkResponse 200 (Connected "foo")) = 200)
  ∧ ∃ channel info,
      decode_state (q_state sample_callback) = Normal channel
      ∧ body (mkResponse 200 (Connected "foo")) = Connected channel
      ∧ Obj.get (tokensByChannel (snd run)) channel = Obj.Lit info
      ∧ stored_record (snd run) channel = Some info.
Proof.
  intros run. split; [split; reflexivity|].
  assert (Hrun : run = (Normal (mkResponse 200 (Connected "foo")), snd run)).
  { rewrite (surjective_pairing run) at 1. f_equal. }
  exact (callback_success_write_through env_ok sample_callback (initial (Some ∅))
           (snd run) (mkResponse 200 (Connected "foo")) eq_refl Hrun eq_refl).
Defined.

(** ** What every reachable state satisfies *)

Lemma preserves_ret {A} I (a : A) : preserves I (ret a).
Proof. by intros st H. Qed.

Lemma preserves_throw {A} I e : preserves I (@throw A e).
Proof. by intros st H. Qed.

Lemma preserves_get I : preserves I get.
Proof. by intros st H. Qed.

Lemma preserves_modify I f : (∀ st, I st → I (f st)) → preserves I (modify f).
Proof. intros Hf st H. by apply Hf. Qed.

Lemma preserves_bind {A B} I (c : M A) (k : A → M B) :
  preserves I c → (∀ a, preserves I (k a)) → preserves I (bind c k).
Proof.
  intros Hc Hk st H. unfold bind. specialize (Hc st H).
  destruct (c st) as [[a|e] st1]; [by apply Hk | exact Hc].
Qed.

Lemma preserves_try_catch {A} I (c : M A) (h : Exn → M A) :
  preserves I c → (∀ e, preserves I (h e)) → preserves I (try_catch c h).
Proof.
  intros Hc Hh st H. unfold try_catch. specialize (Hc st H).
  destruct (c st) as [[a|e] st1]; [exact Hc | by apply Hh].
Qed.

Section Invariant.

Variable env : Env.

Lemma preserves_axios r : preserves stores_ok (axios env r).
Proof. intros st H. rewrite axios_run. exact H. Qed.

Lemma preserves_query q : preserves stores_ok (query env q).
Proof.
  intros st H. unfold query. destruct (twitch_tokens st) as [t|]; [|exact H].
  destruct (db_up env (log st) q); [|exact H].
  destruct (exec q t) as [[t' rows]|]; exact H.
Qed.

Lemma preserves_when_db c : preserves stores_ok c → preserves stores_ok (when_db c).
Proof.
  intros Hc st H. unfold when_db. destruct (DATABASE_URL st); [by apply Hc | exact H].
Qed.

Lemma stores_ok_set_token k v st :
  JS.toLowerCase k = k → stores_ok st → stores_ok (set_tokens <[k := v]> st).
Proof.
  intros Hk (Ht & Hg & Hpos). split; [|by split].
  intros k' Hsome. simpl in Hsome.
  destruct (decide (k = k')) as [<-|Hne]; [exact Hk|].
  rewrite lookup_insert_ne in Hsome by exact Hne. by apply Ht.
Qed.

Lemma stores_ok_set_goal k g st :
  JS.toLowerCase k = k → 0 < g → stores_ok st → stores_ok (set_goals <[k := g]> st).
Proof.
  intros Hk Hg (Ht & Hgoals & Hpos). split; [exact Ht|]. split.
  - intros k' Hsome. simpl in Hsome.
    destruct (decide (k = k')) as [<-|Hne]; [exact Hk|].
    rewrite lookup_insert_ne in Hsome by exact Hne. by apply Hgoals.
  - intros k' g' Hlookup. simpl in Hlookup.
    destruct (decide (k = k')) as [<-|Hne].
    + rewrite lookup_insert_eq in Hlookup. by injection Hlookup as <-.
    + rewrite lookup_insert_ne in Hlookup by exact Hne. by eapply Hpos.
Qed.

Lemma load_rows_lowercase rows (tokens : gmap string TokenInfo) :
  (∀ k, is_Some (tokens !! k) → JS.toLowerCase k = k) →
  ∀ k, is_Some (fold_left load_row rows tokens !! k) → JS.toLowerCase k = k.
Proof.
  revert tokens. induction rows as [|row rows IH]; intros tokens Htokens; [exact Htokens|].
  simpl. apply IH. intros k Hsome. unfold load_row in Hsome.
  destruct (decide (JS.toLowerCase (fst row) = k)) as [<-|Hne].
  - apply toLowerCase_idempotent.
  - rewrite lookup_insert_ne in Hsome by exact Hne. by apply Htokens.
Qed.

Lemma preserves_loadTokens : preserves stores_ok (loadTokens env).
Proof.
  unfold loadTokens. apply preserves_try_catch; [|intros; apply preserves_ret].
  apply preserves_bind; [apply preserves_query|].
  intros rows. apply preserves_modify. intros st (Ht & Hg & Hpos).
  split; [|by split]. simpl. by apply load_rows_lowercase.
Qed.

Lemma preserves_start : preserves stores_ok (start env).
Proof.
  unfold start. apply preserves_when_db.
  apply preserves_try_catch; [|intros; apply preserves_ret].
  apply preserves_bind; [|intros; apply preserves_loadTokens].
  unfold initDb. apply preserves_bind; [apply preserves_query|intros; apply preserves_ret].
Qed.

Lemma preserves_tokens_of data : preserves stores_ok (tokens_of data).
Proof. destruct data; [apply preserves_ret | apply preserves_throw]. Qed.

Lemma preserves_refreshAccessToken key tokenInfo :
  JS.toLowerCase key = key →
  preserves stores_ok (refreshAccessToken env key tokenInfo).
Proof.
  intros Hkey. unfold refreshAccessToken.
  destruct (Obj.field refresh_token tokenInfo) as [[|c s]|]; try apply preserves_ret.
  apply preserves_try_catch; [|intros; apply preserves_ret].
  apply preserves_bind; [apply preserves_axios|].
  intros res. apply preserves_bind; [apply preserves_tokens_of|].
  intros tokens. apply preserves_bind.
  { apply preserves_modify. intros st. by apply stores_ok_set_token. }
  intros _. apply preserves_bind.
  { apply preserves_when_db.
    apply preserves_bind; [apply preserves_query|intros; apply preserves_ret]. }
  intros _. apply preserves_bind; [apply preserves_get|intros; apply preserves_ret].
Qed.

Lemma preserves_fetch info access :
  preserves stores_ok
    (let! total := doRequest env info access in ret (Some total)).
Proof.
  apply preserves_bind; [|intros; apply preserves_ret].
  unfold doRequest. apply preserves_bind; [apply preserves_axios|].
  intros [p|]; [|apply preserves_throw]. simpl.
  destruct (p_total p); [apply preserves_ret|].
  destruct (p_data p); apply preserves_ret.
Qed.

Lemma preserves_getCurrentSubsForChannel channel :
  preserves stores_ok (getCurrentSubsForChannel env channel).
Proof.
  unfold getCurrentSubsForChannel. apply preserves_bind; [apply preserves_get|].
  intros st. cbv zeta.
  destruct (Obj.truthy (Obj.get (tokensByChannel st) (JS.toLowerCase channel)));
    [|apply preserves_ret].
  apply preserves_try_catch; [apply preserves_fetch|].
  intros err. destruct (is_unauthorized err); [|apply preserves_ret].
  apply preserves_bind.
  { apply preserves_refreshAccessToken, toLowerCase_idempotent. }
  intros refreshed. destruct (Obj.truthy refreshed); [|apply preserves_ret].
  apply preserves_try_catch; [apply preserves_fetch|intros; apply preserves_ret].
Qed.

Lemma preserves_api_subgoal channel : preserves stores_ok (api_subgoal env channel).
Proof.
  unfold api_subgoal. apply preserves_bind; [apply preserves_get|].
  intros st. apply preserves_bind; [apply preserves_getCurrentSubsForChannel|].
  intros [current|]; apply preserves_ret.
Qed.

Lemma goal_channel_lowercase req : JS.toLowerCase (goal_channel req) = goal_channel req.
Proof. apply toLowerCase_idempotent. Qed.

Lemma preserves_api_setgoal req : preserves stores_ok (api_setgoal req).
Proof.
  unfold api_setgoal. pose proof (goal_channel_lowercase req) as Hlower.
  destruct (goal_channel req) as [|c s]; [apply preserves_ret|].
  destruct (goal_string req) as [[|g gs]|]; try apply preserves_ret.
  destruct (JS.parseInt (String g gs)) as [goal|]; [|apply preserves_ret].
  destruct (goal <=? 0) eqn:Hgoal; [apply preserves_ret|].
  apply preserves_bind; [|intros; apply preserves_ret].
  apply preserves_modify. intros st. apply stores_ok_set_goal; [exact Hlower|lia].
Qed.

Lemma decode_state_lowercase state channel :
  decode_state state = Normal channel → JS.toLowerCase channel = channel.
Proof.
  unfold decode_state. destruct state as [s|]; [|discriminate].
  destruct (JSON.parse (Base64url.decode s)) as [decoded|]; [|discriminate].
  destruct (get_channel decoded) as [[[]|]|]; try discriminate.
  simpl. intros [= <-]. apply toLowerCase_idempotent.
Qed.

Lemma preserves_complete_authorization code channel :
  JS.toLowerCase channel = channel →
  preserves stores_ok (complete_authorization env code channel).
Proof.
  intros Hlower. unfold complete_authorization.
  apply preserves_try_catch; [|intros; apply preserves_ret].
  apply preserves_bind; [apply preserves_axios|].
  intros tokenRes. apply preserves_bind; [apply preserves_tokens_of|].
  intros tokens. apply preserves_bind; [apply preserves_axios|].
  intros userRes. apply preserves_bind.
  { unfold user_id. destruct userRes as [p|]; [|apply preserves_throw].
    destruct (p_data p) as [[|user users]|];
      (apply preserves_throw || apply preserves_ret). }
  intros uid. apply preserves_bind.
  { apply preserves_modify. intros st. by apply stores_ok_set_token. }
  intros _. apply preserves_bind; [|intros; apply preserves_ret].
  apply preserves_when_db.
  apply preserves_bind; [apply preserves_query|intros; apply preserves_ret].
Qed.

Lemma preserves_auth_twitch_callback q :
  preserves stores_ok (auth_twitch_callback env q).
Proof.
  unfold auth_twitch_callback. destruct (JS.truthy (q_error q)); [apply preserves_ret|].
  destruct (decode_state (q_state q)) as [channel|e] eqn:Hstate; [|apply preserves_ret].
  apply preserves_complete_authorization. by eapply decode_state_lowercase.
Qed.

Lemma stores_ok_step op st : stores_ok st → stores_ok (step env op st).
Proof.
  intros H. destruct op; simpl.
  - by apply preserves_start.
  - exact H.
  - by apply preserves_auth_twitch_callback.
  - by apply preserves_api_setgoal.
  - by apply preserves_api_subgoal.
Qed.

Lemma reachable_stores_ok st : reachable env st → stores_ok st.
Proof.
  induction 1 as [table|op st Hreach IH]; [|by apply stores_ok_step].
  split; [|split]; simpl.
  - intros k [v Hv]. by rewrite lookup_empty in Hv.
  - intros k [v Hv]. by rewrite lookup_empty in Hv.
  - intros k g Hg. by rewrite lookup_empty in Hg.
Qed.

End Invariant.

(** ** Goals *)

Example parseInt_reads_a_prefix :
  JS.parseInt "10" = Some 10 ∧ JS.parseInt "  +12abc" = Some 12
  ∧ JS.parseInt "12.9" = Some 12 ∧ JS.parseInt "-5" = Some (-5)
  ∧ JS.parseInt "abc" = None ∧ JS.parseInt "0" = Some 0.
Proof. repeat split; reflexivity. Qed.


(** Only a literal has a goal: what a read of [goalsByChannel] finds on
    the prototype makes no difference to the goal read. *)
Lemma getGoal_lookup st channel :
  getGoal st channel
  = match goalsByChannel st !! channel with
    | Some goal => if goal =? 0 then 50 else goal
    | None => 50
    end.
Proof.
  unfold getGoal. rewrite field_get. by destruct (goalsByChannel st !! channel).
Qed.

Lemma getGoal_stored st channel :
  stores_ok st → getGoal st channel = default 50 (goalsByChannel st !! channel).
Proof.
  intros (_ & _ & Hpos). rewrite getGoal_lookup.
  destruct (goalsByChannel st !! channel) as [g|] eqn:Hg; [|reflexivity].
  apply Hpos in Hg. simpl. destruct (g =? 0) eqn:Hz; [lia|reflexivity].
Qed.

(** A request without a channel, or with the empty one, is refused
    before its goal is looked at. *)
Example api_setgoal_empty_channel :
  let req := mkGoalRequest None (Some EmptyString) None (Some "10") in
  api_setgoal req (initial None)
  = (Normal (mkResponse 400 (Text "Missing channel")), initial None).
Proof. reflexivity. Qed.



(** ** Subgoal API *)

(** C8 fails on the code for a channel whose name [tokensByChannel]
    inherits from [Object.prototype]. On a process that has just
    started, where no channel has authorized and no goal is set, the
    request for channel constructor reads the function
    [Object.prototype.constructor] as the tokens of the channel: the
    helper sends a metric request without broadcaster id and with the
    bearer undefined and the API reports the count that comes back, 120
    and not 0. (A channel of another name gets 0 and 50 without any
    request; and when the provider rejects the request with 401 the
    answer for constructor is 0 and 50 too, after the request.) *)
Lemma api_subgoal_inherited_channel :
  tokensByChannel (initial None) = ∅
  ∧ goalsByChannel (initial None) = ∅
  ∧ Obj.get (tokensByChannel (initial None)) "constructor" = Obj.Builtin
  ∧ api_subgoal env_ok (Some "constructor") (initial None)
    = (Normal (mkResponse 200 (Json 120 50)),
       record (Http (GetSubscriptions None None)) (initial None))
  ∧ api_subgoal env_unauthorized (Some "constructor") (initial None)
    = (Normal (mkResponse 200 (Json 0 50)),
       record (Http (GetSubscriptions None None)) (initial None))
  ∧ api_subgoal env_ok (Some "x") (initial None)
    = (Normal (mkResponse 200 (Json 0 50)), initial None).
Proof. repeat split; reflexivity. Qed.

(** What the helper does with a key under which a read of
    [tokensByChannel] finds nothing truthy. *)
Lemma getCurrentSubsForChannel_unknown env channel st :
  Obj.truthy (Obj.get (tokensByChannel st) (JS.toLowerCase channel)) = false →
  getCurrentSubsForChannel env channel st = (Normal None, st).
Proof.
  intros Hfalsy. unfold getCurrentSubsForChannel, bind, get. cbv zeta.
  by rewrite Hfalsy.
Qed.

(** X23. In every reachable state the subgoal API answers 200 with an
    object of two integers: [goal] is the goal stored for the lowercased
    channel, 50 when none was set, and [current] is what the sub count
    helper returns for that channel, 0 standing for null. The helper
    always returns; when a read of [tokensByChannel] under the channel
    finds nothing truthy it returns null at once, so that a channel
    that has no goal either gets 0 and 50 and the state is unchanged. *)
Theorem api_subgoal_answers
    (env : Env) (channel : option string) (st : State) :
  reachable env st →
  let key := subgoal_channel channel in
  ∃ count st',
    getCurrentSubsForChannel env key st = (Normal count, st')
    ∧ api_subgoal env channel st
      = (Normal (mkResponse 200
                   (Json (default 0 count) (default 50 (goalsByChannel st !! key)))),
         st')
    ∧ (Obj.truthy (Obj.get (tokensByChannel st) key) = false →
       count = None ∧ st' = st).
Proof.
  intros Hreach key. apply reachable_stores_ok in Hreach.
  destruct (total_getCurrentSubsForChannel env key st) as (count & st' & Hrun).
  exists count, st'. split; [exact Hrun|]. split.
  - unfold api_subgoal, bind, get. fold key.
    rewrite (getGoal_stored _ _ Hreach), Hrun. by destruct count.
  - intros Hfalsy.
    assert (Hkey : JS.toLowerCase key = key) by apply toLowerCase_idempotent.
    rewrite <- Hkey in Hfalsy.
    rewrite (getCurrentSubsForChannel_unknown _ _ _ Hfalsy) in Hrun.
    by injection Hrun as <- <-.
Qed.

Lemma api_subgoal_answers_witness :
  (reachable env_ok (initial None)
   ∧ Obj.truthy (Obj.get (tokensByChannel (initial None)) (subgoal_channel (Some "X")))
     = false)
  ∧ api_subgoal env_ok (Some "X") (initial None)
    = (Normal (mkResponse 200 (Json 0 50)), initial None).
Proof.
  split; [split; [apply reachable_initial|reflexivity]|].
  destruct (api_subgoal_answers env_ok (Some "X") (initial None)
              (reachable_initial env_ok None)) as (count & st' & _ & Hrun & Hnone).
  destruct (Hnone eq_refl) as [-> ->]. exact Hrun.
Defined.

(** ** The OAuth state parameter *)

Lemma bind_normal_inv {A B} (c : M A) (k : A → M B) st b st' :
  bind c k st = (Normal b, st') →
  ∃ a st1, c st = (Normal a, st1) ∧ k a st1 = (Normal b, st').
Proof.
  unfold bind. destruct (c st) as [[a|e] st1]; [|discriminate].
  intros H. by exists a, st1.
Qed.

Lemma complete_authorization_answers env code channel st :
  ∃ resp st',
    complete_authorization env code channel st = (Normal resp, st')
    ∧ (status resp = 200 ∨ status resp = 500).
Proof.
  unfold complete_authorization, try_catch.
  match goal with |- context [bind ?c ?k st] => destruct (bind c k st) as [[a|e] st1] eqn:H end.
  - exists a, st1. split; [reflexivity|]. left.
    do 6 (apply bind_normal_inv in H as (? & ? & _ & H)).
    by injection H as <- <-.
  - eexists _, _. split; [reflexivity|]. by right.
Qed.

Lemma decode_state_Normal_inv state channel :
  decode_state state = Normal channel → well_formed_state state.
Proof.
  unfold decode_state. destruct state as [s|]; [|discriminate].
  destruct (JSON.parse (Base64url.decode s)) as [decoded|] eqn:Hparse; [|discriminate].
  destruct decoded as [| | | | |ms]; try discriminate. simpl.
  destruct (JSON.member "channel" ms) as [[| | |c| |]|] eqn:Hmember; try discriminate.
  intros _. by exists s, ms, c.
Qed.

Lemma decode_state_well_formed state :
  well_formed_state state → ∃ channel, decode_state state = Normal channel.
Proof.
  intros (s & ms & c & -> & Hparse & Hmember).
  exists (JS.toLowerCase c). unfold decode_state. rewrite Hparse. simpl.
  by rewrite Hmember.
Qed.

Lemma decode_state_throws_iff state :
  (∃ e, decode_state state = Throw e) ↔ ¬ well_formed_state state.
Proof.
  split.
  - intros [e He] Hwf. apply decode_state_well_formed in Hwf as [channel Hc].
    rewrite He in Hc. discriminate.
  - intros Hill. destruct (decode_state state) as [channel|e] eqn:Hd; [|by exists e].
    exfalso. apply Hill. by eapply decode_state_Normal_inv.
Qed.

(** C9. The state parameter that [auth_twitch] makes for a non-empty
    channel decodes, in the callback, to that channel in lower case.
    Decoding throws exactly for the states that are not the base64url
    text of a JSON object with a string member [channel], and (when the
    provider reported no error) exactly then the callback answers 400,
    Invalid state. *)
Theorem oauth_state_round_trip (env : Env) (channel : string) :
  channel ≠ EmptyString →
  (∃ state,
     auth_twitch (Some channel) = mkResponse 302 (Redirect state)
     ∧ decode_state (Some state) = Normal (JS.toLowerCase channel))
  ∧ (∀ state, (∃ e, decode_state state = Throw e) ↔ ¬ well_formed_state state)
  ∧ (∀ q st,
       JS.truthy (q_error q) = false →
       auth_twitch_callback env q st
       = (Normal (mkResponse 400 (Text "Invalid state")), st)
       ↔ ¬ well_formed_state (q_state q)).
Proof.
  intros Hchannel. split; [|split].
  - destruct channel as [|c s]; [done|].
    eexists. split; [reflexivity|]. apply decode_state_encode.
  - apply decode_state_throws_iff.
  - intros q st Herror. unfold auth_twitch_callback. rewrite Herror.
    rewrite <- decode_state_throws_iff.
    destruct (decode_state (q_state q)) as [ch|e].
    + destruct (complete_authorization_answers env (q_code q) ch st)
        as (resp & st' & -> & Hstatus).
      split; [|intros [e He]; discriminate].
      intros [= -> _]. simpl in Hstatus. destruct Hstatus; discriminate.
    + split; [by exists e | reflexivity].
Qed.

Lemma oauth_state_round_trip_witness :
  "Foo" ≠ EmptyString
  ∧ ∃ state,
      auth_twitch (Some "Foo") = mkResponse 302 (Redirect state)
      ∧ decode_state (Some state) = Normal (JS.toLowerCase "Foo").
Proof.
  split; [discriminate|].
  apply (proj1 (oauth_state_round_trip env_ok "Foo" ltac:(discriminate))).
Defined.

(** ** Channel names are case-insensitive *)

Lemma same_channel_truthy a b : same_channel a b → JS.truthy a = JS.truthy b.
Proof.
  unfold same_channel. destruct a as [[|x s]|], b as [[|y t]|]; simpl; congruence.
Qed.

Lemma same_channel_or_else a b a' b' :
  same_channel a a' → same_channel b b' →
  same_channel (JS.or_else a b) (JS.or_else a' b').
Proof.
  intros Ha Hb. unfold JS.or_else. rewrite (same_channel_truthy _ _ Ha).
  by destruct (JS.truthy a').
Qed.

Lemma same_channel_default a b :
  same_channel a b →
  JS.toLowerCase (default EmptyString a) = JS.toLowerCase (default EmptyString b).
Proof. unfold same_channel. destruct a, b; simpl; congruence. Qed.

Lemma same_channel_goal_channel req req' :
  same_channel (body_channel req) (body_channel req') →
  same_channel (query_channel req) (query_channel req') →
  goal_channel req = goal_channel req'.
Proof.
  intros Hb Hq. unfold goal_channel. apply same_channel_default.
  apply same_channel_or_else; [by apply same_channel_or_else | reflexivity].
Qed.

Lemma same_channel_subgoal_channel c c' :
  same_channel c c' → subgoal_channel c = subgoal_channel c'.
Proof.
  intros H. unfold subgoal_channel. apply same_channel_default.
  apply same_channel_or_else; [exact H | reflexivity].
Qed.

(** C10. Every key of the two in-memory stores is lowercase in every
    reachable state (startup load, callback, refresh and goal writes
    included), and the operations that take a channel give the same
    answer and the same state for two channel names that differ in
    letter case only. *)
Theorem channels_are_case_insensitive (env : Env) :
  (∀ st, reachable env st →
     keys_lowercase (tokensByChannel st) ∧ keys_lowercase (goalsByChannel st))
  ∧ (∀ req req',
       same_channel (body_channel req) (body_channel req') →
       same_channel (query_channel req) (query_channel req') →
       body_goal req = body_goal req' →
       query_goal req = query_goal req' →
       api_setgoal req = api_setgoal req')
  ∧ (∀ c c', same_channel c c' → api_subgoal env c = api_subgoal env c')
  ∧ (∀ c c',
       JS.toLowerCase c = JS.toLowerCase c' →
       getCurrentSubsForChannel env c = getCurrentSubsForChannel env c')
  ∧ (∀ c c' state state' code,
       auth_twitch (Some c) = mkResponse 302 (Redirect state) →
       auth_twitch (Some c') = mkResponse 302 (Redirect state') →
       JS.toLowerCase c = JS.toLowerCase c' →
       auth_twitch_callback env (mkCallbackQuery code (Some state) None None)
       = auth_twitch_callback env (mkCallbackQuery code (Some state') None None)).
Proof.
  split; [|split; [|split; [|split]]].
  - intros st Hreach. apply reachable_stores_ok in Hreach as (Ht & Hg & _).
    by split.
  - intros req req' Hb Hq Hbg Hqg. unfold api_setgoal, goal_string.
    by rewrite (same_channel_goal_channel _ _ Hb Hq), Hbg, Hqg.
  - intros c c' H. unfold api_subgoal.
    by rewrite (same_channel_subgoal_channel _ _ H).
  - intros c c' H. unfold getCurrentSubsForChannel. by rewrite H.
  - intros c c' state state' code Hs Hs' Hlower.
    destruct c as [|x s]; [discriminate|]. destruct c' as [|y t]; [discriminate|].
    injection Hs as <-. injection Hs' as <-.
    unfold auth_twitch_callback. cbn [q_error q_state q_code JS.truthy].
    by rewrite !decode_state_encode, Hlower.
Qed.

Lemma channels_are_case_insensitive_witness :
  (same_channel (Some "FOO") (Some "foo")
   ∧ reachable env_ok (initial None))
  ∧ api_subgoal env_ok (Some "FOO") = api_subgoal env_ok (Some "foo")
  ∧ keys_lowercase (tokensByChannel (initial None)).
Proof.
  assert (Hsame : same_channel (Some "FOO") (Some "foo")) by reflexivity.
  pose proof (channels_are_case_insensitive env_ok) as (Hkeys & _ & Hsub & _).
  split; [split; [exact Hsame | apply reachable_initial]|].
  split; [exact (Hsub _ _ Hsame)|].
  exact (proj1 (Hkeys _ (reachable_initial env_ok None))).
Defined.

(** * Further properties of the code *)

(** ** The sub count helper, case by case *)

Lemma total_of_run data st :
  total_of data st
  = (match data with
     | Some p => Normal (total_in p)
     | None => Throw TypeError
     end, st).
Proof.
  destruct data as [p|]; [|reflexivity]. unfold total_of, total_in.
  destruct (p_total p); [reflexivity|]. by destruct (p_data p).
Qed.

(** One metric request and what is made of its reply. *)
Lemma fetch_run env info access st :
  (let! total := doRequest env info access in ret (Some total)) st
  = (match provider env (log st)
             (GetSubscriptions (Obj.field broadcaster_id info) access) with
     | Status s data =>
         if (200 <=? s) && (s <? 300)
         then match data with
              | Some p => Normal (Some (total_in p))
              | None => Throw TypeError
              end
         else Throw (AxiosError (Some s))
     | NetworkError => Throw (AxiosError None)
     end,
     record (Http (GetSubscriptions (Obj.field broadcaster_id info) access)) st).
Proof.
  unfold doRequest, bind. rewrite axios_run.
  destruct (provider env (log st)
              (GetSubscriptions (Obj.field broadcaster_id info) access))
    as [s data|]; [|reflexivity].
  destruct ((200 <=? s) && (s <? 300)); [|reflexivity].
  rewrite total_of_run. by destruct data.
Qed.

(** X1. When the first metric request comes back 2xx with a body that
    is not [null], the helper returns the field [total] of the body, the
    length of [data] when there is no total, and 0 when there is
    neither; it has sent that one request and changed nothing else. *)
Theorem getCurrentSubsForChannel_first_reply
    (env : Env) (channel : string) (st : State)
    (info : TokenInfo) (s : Z) (p : Payload) :
  Obj.get (tokensByChannel st) (JS.toLowerCase channel) = Obj.Lit info →
  provider env (log st) (GetSubscriptions (broadcaster_id info) (access_token info))
  = Status s (Some p) →
  (200 <=? s) && (s <? 300) = true →
  getCurrentSubsForChannel env channel st
  = (Normal (Some match p_total p with
                  | Some total => total
                  | None =>
                      match p_data p with
                      | Some items => Z.of_nat (length items)
                      | None => 0
                      end
                  end),
     record (Http (GetSubscriptions (broadcaster_id info) (access_token info))) st).
Proof.
  intros Hinfo Hreply Hok. unfold getCurrentSubsForChannel, bind at 1, get.
  cbv zeta. rewrite Hinfo. cbn [Obj.truthy Obj.field].
  unfold try_catch. rewrite fetch_run. cbn [Obj.field]. by rewrite Hreply, Hok.
Qed.

Lemma getCurrentSubsForChannel_first_reply_witness :
  (Obj.get (tokensByChannel sample_state) (JS.toLowerCase "FOO") = Obj.Lit sample_info
   ∧ provider env_ok (log sample_state)
       (GetSubscriptions (broadcaster_id sample_info) (access_token sample_info))
     = Status 200 (Some sample_payload)
   ∧ (200 <=? 200) && (200 <? 300) = true)
  ∧ fst (getCurrentSubsForChannel env_ok "FOO" sample_state) = Normal (Some 120).
Proof.
  assert (H : Obj.get (tokensByChannel sample_state) (JS.toLowerCase "FOO")
              = Obj.Lit sample_info) by reflexivity.
  split; [repeat split; try reflexivity; exact H|].
  by rewrite (getCurrentSubsForChannel_first_reply env_ok "FOO" sample_state
                sample_info 200 sample_payload H eq_refl eq_refl).
Defined.

(** A 2xx reply without a body counts as no subscribers: it is no
    failure. *)
Example getCurrentSubsForChannel_no_body :
  getCurrentSubsForChannel env_no_body "foo" sample_state
  = (Normal (Some 0),
     record (Http (GetSubscriptions (Some "4242") (Some "access-0"))) sample_state).
Proof. reflexivity. Qed.

(** X2. When the first metric request fails with anything but a 401 (a
    transport fault, a status that is neither 2xx nor 401, or a 2xx
    reply whose body is [null], on which reading the total throws) the
    helper returns null after that single request: no refresh, no
    retry. *)
Theorem getCurrentSubsForChannel_other_failure
    (env : Env) (channel : string) (st : State) (info : TokenInfo) :
  Obj.get (tokensByChannel st) (JS.toLowerCase channel) = Obj.Lit info →
  fails_otherwise
    (provider env (log st)
       (GetSubscriptions (broadcaster_id info) (access_token info))) = true →
  getCurrentSubsForChannel env channel st
  = (Normal None,
     record (Http (GetSubscriptions (broadcaster_id info) (access_token info))) st).
Proof.
  intros Hinfo Hfail. unfold getCurrentSubsForChannel, bind at 1, get.
  cbv zeta. rewrite Hinfo. cbn [Obj.truthy Obj.field].
  unfold try_catch. rewrite fetch_run. cbn [Obj.field].
  destruct (provider env (log st)
              (GetSubscriptions (broadcaster_id info) (access_token info)))
    as [s data|]; simpl in Hfail |- *; [|reflexivity].
  destruct ((200 <=? s) && (s <? 300)).
  - by destruct data.
  - simpl. apply negb_true_iff in Hfail. by rewrite Hfail.
Qed.

Lemma getCurrentSubsForChannel_other_failure_witness :
  (Obj.get (tokensByChannel sample_state) (JS.toLowerCase "foo") = Obj.Lit sample_info
   ∧ fails_otherwise
       (provider env_offline (log sample_state)
          (GetSubscriptions (broadcaster_id sample_info) (access_token sample_info)))
     = true)
  ∧ getCurrentSubsForChannel env_offline "foo" sample_state
    = (Normal None,
       record (Http (GetSubscriptions (broadcaster_id sample_info)
                       (access_token sample_info))) sample_state).
Proof.
  assert (H : Obj.get (tokensByChannel sample_state) (JS.toLowerCase "foo")
              = Obj.Lit sample_info) by reflexivity.
  split; [split; [exact H|reflexivity]|].
  exact (getCurrentSubsForChannel_other_failure env_offline "foo" sample_state
           sample_info H eq_refl).
Defined.

(** A metric request inside [try]/[catch]: the count or null. *)
Lemma retry_run env info access st :
  try_catch (let! total := doRequest env info access in ret (Some total))
    (fun _ => ret None) st
  = (Normal (metric_outcome
               (provider env (log st)
                  (GetSubscriptions (Obj.field broadcaster_id info) access))),
     record (Http (GetSubscriptions (Obj.field broadcaster_id info) access)) st).
Proof.
  unfold try_catch. rewrite fetch_run. unfold metric_outcome.
  destruct (provider env (log st)
              (GetSubscriptions (Obj.field broadcaster_id info) access))
    as [s [p|]|]; [| |reflexivity];
    by destruct ((200 <=? s) && (s <? 300)).
Qed.

(** After a first reply 401 the helper goes on with the refresh. *)
Lemma getCurrentSubsForChannel_unauthorized env channel st info d :
  Obj.get (tokensByChannel st) (JS.toLowerCase channel) = Obj.Lit info →
  provider env (log st) (GetSubscriptions (broadcaster_id info) (access_token info))
  = Status 401 d →
  getCurrentSubsForChannel env channel st
  = (let! refreshed :=
       refreshAccessToken env (JS.toLowerCase channel) (Obj.Lit info) in
     if Obj.truthy refreshed then
       try_catch
         (let! total :=
            doRequest env (Obj.Lit info) (Obj.field access_token refreshed) in
          ret (Some total))
         (fun _ => ret None)
     else ret None)
      (record (Http (GetSubscriptions (broadcaster_id info) (access_token info))) st).
Proof.
  intros Hinfo Hreply. unfold getCurrentSubsForChannel, bind at 1, get.
  cbv zeta. rewrite Hinfo. cbn [Obj.truthy Obj.field].
  unfold try_catch at 1. rewrite fetch_run. cbn [Obj.field]. by rewrite Hreply.
Qed.

(** X3. When the first metric request is answered 401 and the token
    cannot be refreshed, the helper returns null without a second metric
    request: at once when the record has no refresh token, after the one
    refresh request when that request does not come back 2xx. *)
Theorem getCurrentSubsForChannel_refresh_fails
    (env : Env) (channel : string) (st : State) (info : TokenInfo)
    (d : option Payload) :
  Obj.get (tokensByChannel st) (JS.toLowerCase channel) = Obj.Lit info →
  provider env (log st) (GetSubscriptions (broadcaster_id info) (access_token info))
  = Status 401 d →
  let st1 :=
    record (Http (GetSubscriptions (broadcaster_id info) (access_token info))) st in
  (JS.truthy (refresh_token info) = false →
   getCurrentSubsForChannel env channel st = (Normal None, st1))
  ∧ (∀ rt,
       refresh_token info = Some rt →
       JS.truthy (Some rt) = true →
       resolves (provider env (log st1) (PostToken (RefreshToken rt))) = false →
       getCurrentSubsForChannel env channel st
       = (Normal None, record (Http (PostToken (RefreshToken rt))) st1)).
Proof.
  intros Hinfo Hreply st1.
  rewrite (getCurrentSubsForChannel_unauthorized _ _ _ _ _ Hinfo Hreply).
  fold st1. unfold bind at 1. split.
  - intros Hfalsy. unfold refreshAccessToken. cbn [Obj.field].
    by destruct (refresh_token info) as [[|c s]|].
  - intros rt Hrt Htruthy Hrejected. unfold refreshAccessToken. cbn [Obj.field].
    rewrite Hrt. destruct rt as [|c s]; [discriminate|].
    unfold try_catch, bind. rewrite axios_run.
    destruct (provider env (log st1) (PostToken (RefreshToken (String c s))))
      as [s0 data|]; simpl in Hrejected; [|reflexivity].
    by rewrite Hrejected.
Qed.

(** Both cases: a record without refresh token, and a refresh that the
    provider answers 400. *)
Lemma getCurrentSubsForChannel_refresh_fails_witness :
  let bare := mkTokenInfo (Some "access-0") None (Some "4242") in
  let metric := GetSubscriptions (Some "4242") (Some "access-0") in
  ((Obj.get (tokensByChannel sample_state_no_refresh) (JS.toLowerCase "foo")
    = Obj.Lit bare
    ∧ provider env_unauthorized (log sample_state_no_refresh) metric = Status 401 None
    ∧ JS.truthy (refresh_token bare) = false)
   ∧ getCurrentSubsForChannel env_unauthorized "foo" sample_state_no_refresh
     = (Normal None, record (Http metric) sample_state_no_refresh))
  ∧ ((Obj.get (tokensByChannel sample_state) (JS.toLowerCase "foo")
      = Obj.Lit sample_info
      ∧ provider env_revoked (log sample_state) metric = Status 401 None
      ∧ refresh_token sample_info = Some "refresh-0"
      ∧ JS.truthy (Some "refresh-0") = true
      ∧ resolves (provider env_revoked (log (record (Http metric) sample_state))
                    (PostToken (RefreshToken "refresh-0"))) = false)
     ∧ getCurrentSubsForChannel env_revoked "foo" sample_state
       = (Normal None,
          record (Http (PostToken (RefreshToken "refresh-0")))
            (record (Http metric) sample_state))).
Proof.
  intros bare metric.
  assert (H : Obj.get (tokensByChannel sample_state_no_refresh) (JS.toLowerCase "foo")
              = Obj.Lit bare) by reflexivity.
  assert (H' : Obj.get (tokensByChannel sample_state) (JS.toLowerCase "foo")
               = Obj.Lit sample_info) by reflexivity.
  split; (split; [repeat split; try reflexivity; assumption|]).
  - exact (proj1 (getCurrentSubsForChannel_refresh_fails env_unauthorized "foo"
                    sample_state_no_refresh bare None H eq_refl) eq_refl).
  - exact (proj2 (getCurrentSubsForChannel_refresh_fails env_revoked "foo"
                    sample_state sample_info None H' eq_refl)
             "refresh-0" eq_refl eq_refl eq_refl).
Defined.

(** X4. When the first metric request is answered 401 and the refresh
    gives a fresh record, the helper sends exactly one more metric
    request, with the fresh access token and the broadcaster id it read
    at the start, and returns what that request gives: the count, or
    null on any failure, a second 401 included. *)
Theorem getCurrentSubsForChannel_retries_once
    (env : Env) (channel : string) (st st2 : State) (info fresh : TokenInfo)
    (d : option Payload) :
  Obj.get (tokensByChannel st) (JS.toLowerCase channel) = Obj.Lit info →
  provider env (log st) (GetSubscriptions (broadcaster_id info) (access_token info))
  = Status 401 d →
  refreshAccessToken env (JS.toLowerCase channel) (Obj.Lit info)
    (record (Http (GetSubscriptions (broadcaster_id info) (access_token info))) st)
  = (Normal (Obj.Lit fresh), st2) →
  getCurrentSubsForChannel env channel st
  = (Normal (metric_outcome
               (provider env (log st2)
                  (GetSubscriptions (broadcaster_id info) (access_token fresh)))),
     record (Http (GetSubscriptions (broadcaster_id info) (access_token fresh))) st2).
Proof.
  intros Hinfo Hreply Hrefresh.
  rewrite (getCurrentSubsForChannel_unauthorized _ _ _ _ _ Hinfo Hreply).
  unfold bind at 1. rewrite Hrefresh. cbn [Obj.truthy Obj.field].
  apply (retry_run env (Obj.Lit info)).
Qed.

Lemma getCurrentSubsForChannel_retries_once_witness :
  let m := GetSubscriptions (broadcaster_id sample_info) (access_token sample_info) in
  let run := refreshAccessToken env_expired_once (JS.toLowerCase "foo")
               (Obj.Lit sample_info) (record (Http m) sample_state) in
  let fresh := mkTokenInfo (Some "access-1") (Some "refresh-1") (Some "4242") in
  (Obj.get (tokensByChannel sample_state) (JS.toLowerCase "foo") = Obj.Lit sample_info
   ∧ provider env_expired_once (log sample_state) m = Status 401 None
   ∧ fst run = Normal (Obj.Lit fresh))
  ∧ fst (getCurrentSubsForChannel env_expired_once "foo" sample_state)
    = Normal (Some 120).
Proof.
  intros m run fresh.
  assert (H : Obj.get (tokensByChannel sample_state) (JS.toLowerCase "foo")
              = Obj.Lit sample_info) by reflexivity.
  assert (Hrun : run = (Normal (Obj.Lit fresh), snd run)).
  { rewrite (surjective_pairing run) at 1. f_equal. }
  split; [repeat split; try reflexivity; exact H|].
  by rewrite (getCurrentSubsForChannel_retries_once env_expired_once "foo"
                sample_state (snd run) sample_info fresh None H eq_refl Hrun).
Defined.

(** ** What a metric fetch leaves alone *)

Lemma refresh_frame_refl key st : refresh_frame key st st.
Proof.
  split; [done|]. split; [done|]. split; [done|]. split; [by eauto|].
  destruct (twitch_tokens st) as [t|]; [|done].
  split; [done|]. split; [done|]. by intros old new -> [= ->].
Qed.

Lemma refresh_frame_cache key st st' v :
  tokensByChannel st' = <[key := v]> (tokensByChannel st) →
  (∀ k, reads_apart key k →
     Obj.get (tokensByChannel st') k = Obj.get (tokensByChannel st) k)
  ∧ (∀ k, k ≠ key → tokensByChannel st' !! k = tokensByChannel st !! k)
  ∧ (∀ info, Obj.get (tokensByChannel st) key = Obj.Lit info →
       ∃ info', Obj.get (tokensByChannel st') key = Obj.Lit info').
Proof.
  intros ->. split; [intros k Hk; by apply get_tokens_apart|].
  split; [intros k Hk; by rewrite lookup_insert_ne|].
  intros _ _. exists v. apply get_insert_eq.
Qed.

Lemma refresh_frame_same_table key st st' v :
  tokensByChannel st' = <[key := v]> (tokensByChannel st) →
  goalsByChannel st' = goalsByChannel st →
  twitch_tokens st' = twitch_tokens st →
  refresh_frame key st st'.
Proof.
  intros Htokens Hgoals Htable. split; [exact Hgoals|].
  destruct (refresh_frame_cache _ _ _ _ Htokens) as (Hreads & Hown & Hkept).
  split; [exact Hreads|]. split; [exact Hown|]. split; [exact Hkept|].
  rewrite Htable. destruct (twitch_tokens st) as [t|]; [|done].
  split; [done|]. split; [done|]. by intros old new -> [= ->].
Qed.

Lemma refresh_frame_updated_row key st st' v t old a r :
  tokensByChannel st' = <[key := v]> (tokensByChannel st) →
  goalsByChannel st' = goalsByChannel st →
  twitch_tokens st = Some t →
  t !! key = Some old →
  twitch_tokens st' = Some (<[key := mkRow (row_broadcaster_id old) a r]> t) →
  refresh_frame key st st'.
Proof.
  intros Htokens Hgoals Ht Hold Ht'. split; [exact Hgoals|].
  destruct (refresh_frame_cache _ _ _ _ Htokens) as (Hreads & Hown & Hkept).
  split; [exact Hreads|]. split; [exact Hown|]. split; [exact Hkept|].
  rewrite Ht, Ht'.
  split; [apply dom_insert_lookup_L; by rewrite Hold|].
  split; [intros k Hk; by rewrite lookup_insert_ne|].
  intros old' new. rewrite Hold, lookup_insert_eq. by intros [= <-] [= <-].
Qed.

Lemma refreshAccessToken_frame env key tokenInfo st :
  refresh_frame key st (snd (refreshAccessToken env key tokenInfo st)).
Proof.
  unfold refreshAccessToken.
  destruct (Obj.field refresh_token tokenInfo) as [[|c s]|];
    try apply refresh_frame_refl.
  unfold try_catch, bind. rewrite axios_run.
  destruct (provider env (log st) (PostToken (RefreshToken (String c s))))
    as [code data|]; [|exact (refresh_frame_refl key st)].
  destruct ((200 <=? code) && (code <? 300)); [|exact (refresh_frame_refl key st)].
  destruct data as [p|]; [|exact (refresh_frame_refl key st)]. simpl.
  unfold when_db, DATABASE_URL, query. simpl.
  destruct (twitch_tokens st) as [t|] eqn:Ht; simpl.
  2: { by eapply refresh_frame_same_table. }
  destruct (db_up env _ _); simpl; [|by eapply refresh_frame_same_table].
  destruct (t !! key) as [old|] eqn:Hold; simpl.
  - destruct (p_access_token p) as [a|]; simpl;
      [|by eapply refresh_frame_same_table].
    destruct (p_refresh_token p) as [r|]; simpl;
      [|by eapply refresh_frame_same_table].
    by eapply refresh_frame_updated_row.
  - by eapply refresh_frame_same_table.
Qed.

(** X5. The sub count helper never throws, and whatever the provider and
    the database do it leaves alone: the goals; the records written
    under all other keys of the cache, and what is read there under
    every key apart from its channel ([reads_apart]: a refresh for the
    channel [__proto__] installs the fresh record as prototype, where it
    is seen under the names of its three properties); the rows of the
    other channels and the broadcaster id of the row of its channel. It
    keeps a cached record cached and it never adds or removes a row. *)
Theorem getCurrentSubsForChannel_frame
    (env : Env) (channel : string) (st : State) :
  (∃ r, fst (getCurrentSubsForChannel env channel st) = Normal r)
  ∧ refresh_frame (JS.toLowerCase channel) st
      (snd (getCurrentSubsForChannel env channel st)).
Proof.
  split.
  { destruct (total_getCurrentSubsForChannel env channel st) as (r & st' & ->).
    by exists r. }
  unfold getCurrentSubsForChannel, bind at 1, get. cbv zeta.
  set (key := JS.toLowerCase channel).
  set (tokenInfo := Obj.get (tokensByChannel st) key).
  destruct (Obj.truthy tokenInfo); [|apply refresh_frame_refl].
  unfold try_catch at 1. rewrite fetch_run.
  set (st1 := record (Http (GetSubscriptions (Obj.field broadcaster_id tokenInfo)
                              (Obj.field access_token tokenInfo))) st).
  assert (Hnull : refresh_frame key st (snd (@ret (option Z) None st1)))
    by exact (refresh_frame_refl key st).
  assert (Hrefresh : ∀ err, refresh_frame key st
            (snd ((if is_unauthorized err
                   then
                     let! refreshed := refreshAccessToken env key tokenInfo in
                     if Obj.truthy refreshed then
                       try_catch
                         (let! total :=
                            doRequest env tokenInfo (Obj.field access_token refreshed) in
                          ret (Some total))
                         (fun _ => ret None)
                     else ret None
                   else ret None) st1))).
  { intros err. destruct (is_unauthorized err); [|exact Hnull].
    unfold bind at 1.
    pose proof (refreshAccessToken_frame env key tokenInfo st1) as Hframe.
    destruct (refreshAccessToken env key tokenInfo st1)
      as [[refreshed|e] st2]; simpl in Hframe; [|exact Hframe].
    destruct (Obj.truthy refreshed); [|exact Hframe].
    rewrite retry_run. exact Hframe. }
  destruct (provider env (log st)
              (GetSubscriptions (Obj.field broadcaster_id tokenInfo)
                 (Obj.field access_token tokenInfo)))
    as [s data|]; [|apply Hrefresh].
  destruct ((200 <=? s) && (s <? 300)); [|apply Hrefresh].
  destruct data as [p|]; [exact (refresh_frame_refl key st)|apply Hrefresh].
Qed.

(** The exception is real: after a callback for the channel [__proto__]
    and a refresh for it, the read under access_token, a key that no
    channel was ever authorized for, has changed with the token. *)
Example refresh_seen_through_prototype :
  let st := mkState {["__proto__" := sample_info]} ∅ None [] in
  let st' := snd (getCurrentSubsForChannel env_expired_once "__proto__" st) in
  Obj.get (tokensByChannel st) "access_token" = Obj.Primitive (Obj.Str "access-0")
  ∧ Obj.get (tokensByChannel st') "access_token" = Obj.Primitive (Obj.Str "access-1")
  ∧ Obj.get (tokensByChannel st') "bar" = Obj.get (tokensByChannel st) "bar".
Proof. repeat split; reflexivity. Qed.

(** ** Token refresh and the two stores *)

(** The refresh once the provider has answered 2xx with a body other
    than [null]. *)
Lemma refreshAccessToken_resolved env channel info st c s code p :
  refresh_token info = Some (String c s) →
  provider env (log st) (PostToken (RefreshToken (String c s))) = Status code (Some p) →
  (200 <=? code) && (code <? 300) = true →
  let merged :=
    mkTokenInfo (p_access_token p) (p_refresh_token p) (broadcaster_id info) in
  let update := UpdateToken channel (p_access_token p) (p_refresh_token p) in
  let st1 :=
    set_tokens <[channel := merged]>
      (record (Http (PostToken (RefreshToken (String c s)))) st) in
  refreshAccessToken env channel (Obj.Lit info) st
  = match twitch_tokens st with
    | None => (Normal (Obj.Lit merged), st1)
    | Some t =>
        if db_up env (log st1) update then
          match exec update t with
          | Some (t', _) =>
              (Normal (Obj.Lit merged), set_table t' (record (Sql update) st1))
          | None => (Normal (Obj.Primitive Obj.Null), record (Sql update) st1)
          end
        else (Normal (Obj.Primitive Obj.Null), record (Sql update) st1)
    end.
Proof.
  intros Hrt Hreply Hok merged update st1. unfold refreshAccessToken.
  cbn [Obj.field]. rewrite Hrt.
  unfold try_catch, bind. rewrite axios_run, Hreply, Hok.
  unfold when_db, DATABASE_URL, query. subst merged update st1. simpl.
  destruct (twitch_tokens st) as [t|]; simpl; [|by rewrite get_insert_eq].
  destruct (db_up env _ _); [|reflexivity].
  destruct (t !! channel); simpl;
    [destruct (p_access_token p); simpl; [destruct (p_refresh_token p); simpl|]|];
    rewrite ?get_insert_eq; reflexivity.
Qed.

(** X6. The refresh writes the cache before the table: when the provider
    has issued new tokens but the UPDATE fails (the database does not
    answer, or a token is missing for an existing row), the refresh
    returns null although the cache already holds the new tokens, and
    the table keeps the old ones. *)
Theorem refreshAccessToken_database_failure
    (env : Env) (channel : string) (info : TokenInfo) (st : State)
    (t : gmap string Row) (c : ascii) (s : string) (code : Z) (p : Payload) :
  refresh_token info = Some (String c s) →
  twitch_tokens st = Some t →
  provider env (log st) (PostToken (RefreshToken (String c s))) = Status code (Some p) →
  (200 <=? code) && (code <? 300) = true →
  db_up env (log st ++ [Http (PostToken (RefreshToken (String c s)))])
    (UpdateToken channel (p_access_token p) (p_refresh_token p)) = false
  ∨ (is_Some (t !! channel)
     ∧ (p_access_token p = None ∨ p_refresh_token p = None)) →
  ∃ st',
    refreshAccessToken env channel (Obj.Lit info) st
    = (Normal (Obj.Primitive Obj.Null), st')
    ∧ Obj.get (tokensByChannel st') channel
      = Obj.Lit (mkTokenInfo (p_access_token p) (p_refresh_token p)
                   (broadcaster_id info))
    ∧ twitch_tokens st' = Some t.
Proof.
  intros Hrt Ht Hreply Hok Hfail.
  rewrite (refreshAccessToken_resolved _ _ _ _ _ _ _ _ Hrt Hreply Hok), Ht. simpl.
  destruct Hfail as [-> | ([old Hold] & Hmissing)].
  { eexists. split; [reflexivity|]. simpl. by rewrite get_insert_eq. }
  destruct (db_up env _ _).
  2: { eexists. split; [reflexivity|]. simpl. by rewrite get_insert_eq. }
  rewrite Hold.
  destruct Hmissing as [-> | ->]; [|destruct (p_access_token p)];
    (eexists; split; [reflexivity|]; simpl; by rewrite get_insert_eq).
Qed.

Lemma refreshAccessToken_database_failure_witness :
  let env := mkEnv (fun _ _ => Status 200 (Some sample_payload)) (fun _ _ => false) in
  ∃ st',
    refreshAccessToken env "foo" (Obj.Lit sample_info) sample_state
    = (Normal (Obj.Primitive Obj.Null), st')
    ∧ Obj.get (tokensByChannel st') "foo"
      = Obj.Lit (mkTokenInfo (Some "access-1") (Some "refresh-1") (Some "4242"))
    ∧ twitch_tokens st' = Some {["foo" := sample_row]}.
Proof.
  intros env.
  exact (refreshAccessToken_database_failure env "foo" sample_info sample_state
           {["foo" := sample_row]} "r" "efresh-0" 200 sample_payload
           eq_refl eq_refl eq_refl eq_refl (or_introl eq_refl)).
Defined.

(** X7. A refresh that succeeds keeps the two stores in step: when the
    table holds the record the refresh starts from, afterwards the cache
    and the table hold the same fresh record for the channel. *)
Theorem refreshAccessToken_keeps_write_through
    (env : Env) (channel : string) (info fresh : TokenInfo) (st st' : State) :
  stored_record st channel = Some info →
  refreshAccessToken env channel (Obj.Lit info) st = (Normal (Obj.Lit fresh), st') →
  Obj.get (tokensByChannel st') channel = Obj.Lit fresh
  ∧ stored_record st' channel = Some fresh.
Proof.
  intros Hstored Hrun. unfold stored_record in Hstored.
  destruct (twitch_tokens st) as [t|] eqn:Ht; [|discriminate]. simpl in Hstored.
  destruct (t !! channel) as [old|] eqn:Hold; [|discriminate].
  injection Hstored as <-.
  unfold refreshAccessToken in Hrun. simpl in Hrun.
  destruct (row_refresh_token old) as [|c s] eqn:Hrt; [discriminate|].
  unfold try_catch, bind in Hrun. rewrite axios_run in Hrun.
  destruct (provider env (log st) (PostToken (RefreshToken (String c s))))
    as [code data|]; simpl in Hrun; [|discriminate].
  destruct ((200 <=? code) && (code <? 300)); simpl in Hrun; [|discriminate].
  destruct data as [p|]; simpl in Hrun; [|discriminate].
  unfold when_db, DATABASE_URL, query in Hrun. simpl in Hrun.
  rewrite Ht in Hrun. simpl in Hrun.
  destruct (db_up env _ _); simpl in Hrun; [|discriminate].
  rewrite Hold in Hrun.
  destruct (p_access_token p) as [a|]; simpl in Hrun; [|discriminate].
  destruct (p_refresh_token p) as [r|]; simpl in Hrun; [|discriminate].
  rewrite get_insert_eq in Hrun. injection Hrun as <- <-.
  unfold stored_record. simpl. by rewrite get_insert_eq, lookup_insert_eq.
Qed.

Lemma refreshAccessToken_keeps_write_through_witness :
  let run := refreshAccessToken env_ok "foo" (Obj.Lit sample_info) sample_state in
  let fresh := mkTokenInfo (Some "access-1") (Some "refresh-1") (Some "4242") in
  (stored_record sample_state "foo" = Some sample_info
   ∧ fst run = Normal (Obj.Lit fresh))
  ∧ Obj.get (tokensByChannel (snd run)) "foo" = Obj.Lit fresh
  ∧ stored_record (snd run) "foo" = Some fresh.
Proof.
  intros run fresh.
  assert (Hstored : stored_record sample_state "foo" = Some sample_info)
    by reflexivity.
  assert (Hrun : run = (Normal (Obj.Lit fresh), snd run)).
  { rewrite (surjective_pairing run) at 1. f_equal. }
  split; [split; [exact Hstored|reflexivity]|].
  exact (refreshAccessToken_keeps_write_through env_ok "foo" sample_info fresh
           sample_state (snd run) Hstored Hrun).
Defined.

(** ** The OAuth callback, case by case *)

(** The callback once both provider calls have answered 2xx and the
    identity reply has a first user. *)
Lemma complete_authorization_resolved env code channel st s p s2 p2 user users :
  provider env (log st) (PostToken (AuthorizationCode code)) = Status s (Some p) →
  (200 <=? s) && (s <? 300) = true →
  provider env (log st ++ [Http (PostToken (AuthorizationCode code))])
    (GetUsers (p_access_token p)) = Status s2 (Some p2) →
  (200 <=? s2) && (s2 <? 300) = true →
  p_data p2 = Some (user :: users) →
  let info := mkTokenInfo (p_access_token p) (p_refresh_token p) (id user) in
  let upsert := UpsertToken channel (id user) (p_access_token p) (p_refresh_token p) in
  let st1 :=
    set_tokens <[channel := info]>
      (record (Http (GetUsers (p_access_token p)))
         (record (Http (PostToken (AuthorizationCode code))) st)) in
  let failed :=
    mkResponse 500 (Text "Failed to complete Twitch OAuth. Check server logs.") in
  complete_authorization env code channel st
  = match twitch_tokens st with
    | None => (Normal (mkResponse 200 (Connected channel)), st1)
    | Some t =>
        if db_up env (log st1) upsert then
          match exec upsert t with
          | Some (t', _) =>
              (Normal (mkResponse 200 (Connected channel)),
               set_table t' (record (Sql upsert) st1))
          | None => (Normal failed, record (Sql upsert) st1)
          end
        else (Normal failed, record (Sql upsert) st1)
    end.
Proof.
  intros Hr1 Hok1 Hr2 Hok2 Huser info upsert st1 failed.
  unfold complete_authorization, try_catch, bind.
  rewrite axios_run, Hr1, Hok1. simpl. rewrite axios_run. simpl.
  rewrite Hr2, Hok2. simpl. rewrite Huser. simpl.
  unfold when_db, DATABASE_URL, query. simpl.
  subst info upsert st1 failed.
  destruct (twitch_tokens st) as [t|]; simpl; [|reflexivity].
  destruct (db_up env _ _); [|reflexivity].
  destruct (id user); simpl; [|reflexivity].
  destruct (p_access_token p); simpl; [|reflexivity].
  destruct (p_refresh_token p); reflexivity.
Qed.

(** What a callback that answers 200 has gone through. *)
Lemma callback_success_inv env q st resp st1 :
  auth_twitch_callback env q st = (Normal resp, st1) →
  status resp = 200 →
  ∃ channel info,
    JS.truthy (q_error q) = false
    ∧ decode_state (q_state q) = Normal channel
    ∧ resp = mkResponse 200 (Connected channel)
    ∧ tokensByChannel st1 = <[channel := info]> (tokensByChannel st)
    ∧ goalsByChannel st1 = goalsByChannel st
    ∧ match twitch_tokens st with
      | None => twitch_tokens st1 = None
      | Some t =>
          ∃ row, twitch_tokens st1 = Some (<[channel := row]> t)
                 ∧ info = info_of_row row
      end
    ∧ authorized_record env st (q_code q) = Some info.
Proof.
  intros Hrun Hstatus. unfold auth_twitch_callback in Hrun.
  destruct (JS.truthy (q_error q)).
  { injection Hrun as <- <-. discriminate. }
  destruct (decode_state (q_state q)) as [channel|e].
  2: { injection Hrun as <- <-. discriminate. }
  unfold complete_authorization, try_catch, bind in Hrun.
  rewrite axios_run in Hrun. unfold authorized_record. cbv zeta.
  destruct (provider env (log st) (PostToken (AuthorizationCode (q_code q))))
    as [s data|]; simpl in Hrun.
  2: { injection Hrun as <- <-. discriminate. }
  destruct ((200 <=? s) && (s <? 300)); simpl in Hrun.
  2: { injection Hrun as <- <-. discriminate. }
  destruct data as [p|]; simpl in Hrun.
  2: { injection Hrun as <- <-. discriminate. }
  rewrite axios_run in Hrun. simpl in Hrun. cbn [reply_body].
  destruct (provider env (log st ++ [Http (PostToken (AuthorizationCode (q_code q)))])
              (GetUsers (p_access_token p))) as [s2 data2|]; simpl in Hrun.
  2: { injection Hrun as <- <-. discriminate. }
  destruct ((200 <=? s2) && (s2 <? 300)); simpl in Hrun.
  2: { injection Hrun as <- <-. discriminate. }
  destruct data2 as [p2|]; simpl in Hrun.
  2: { injection Hrun as <- <-. discriminate. }
  cbn [reply_body].
  destruct (p_data p2) as [[|user users]|]; simpl in Hrun;
    try (injection Hrun as <- <-; discriminate).
  unfold when_db, DATABASE_URL, query in Hrun. simpl in Hrun.
  destruct (twitch_tokens st) as [t|] eqn:Ht; simpl in Hrun.
  2: { injection Hrun as <- <-. eexists channel, _. by do 6 (split; [done|]). }
  destruct (db_up env _ _); simpl in Hrun.
  2: { injection Hrun as <- <-. discriminate. }
  destruct (id user) as [uid|]; simpl in Hrun.
  2: { injection Hrun as <- <-. discriminate. }
  destruct (p_access_token p) as [a|]; simpl in Hrun.
  2: { injection Hrun as <- <-. discriminate. }
  destruct (p_refresh_token p) as [r|]; simpl in Hrun.
  2: { injection Hrun as <- <-. discriminate. }
  injection Hrun as <- <-.
  exists channel, (mkTokenInfo (Some a) (Some r) (Some uid)).
  do 5 (split; [done|]). split; [by exists (mkRow uid a r)|done].
Qed.

(** The second [try] block of the callback answers 200 or 500, and its
    effects are a prefix, never empty, of the exchange, the identity
    fetch and the upsert that [callback_trace] reads off the replies. *)
Lemma complete_authorization_effects env code channel st :
  ∃ resp st' k,
    complete_authorization env code channel st = (Normal resp, st')
    ∧ (1 ≤ k ≤ 3)%nat
    ∧ (k = 3%nat → DATABASE_URL st = true)
    ∧ (status resp = 200 ∨ status resp = 500)
    ∧ (status resp = 200 → (2 ≤ k)%nat)
    ∧ (status resp = 200 → DATABASE_URL st = true → k = 3%nat)
    ∧ log st' = log st ++ take k (callback_trace env st code channel).
Proof.
  remember (DATABASE_URL st) as db eqn:Hflag.
  pose (failed := mkResponse 500
                    (Text "Failed to complete Twitch OAuth. Check server logs.")).
  assert (Hone : ∀ st0 more,
            log st0 = log st ++ [Http (PostToken (AuthorizationCode code))] →
            ∃ resp st' k,
              (Normal failed, st0) = (Normal resp, st')
              ∧ (1 ≤ k ≤ 3)%nat
              ∧ (k = 3%nat → db = true)
              ∧ (status resp = 200 ∨ status resp = 500)
              ∧ (status resp = 200 → (2 ≤ k)%nat)
              ∧ (status resp = 200 → db = true → k = 3%nat)
              ∧ log st'
                = log st ++ take k (Http (PostToken (AuthorizationCode code)) :: more)).
  { intros st0 more Hlog. exists failed, st0, 1%nat.
    split; [done|]. split; [lia|]. split; [discriminate|]. split; [by right|].
    split; [discriminate|]. split; [discriminate|]. exact Hlog. }
  assert (Htwo : ∀ resp st0 second more,
            resp = failed ∨ (status resp = 200 ∧ db = false) →
            log st0 = log st ++ [Http (PostToken (AuthorizationCode code)); second] →
            ∃ resp' st' k,
              (Normal resp, st0) = (Normal resp', st')
              ∧ (1 ≤ k ≤ 3)%nat
              ∧ (k = 3%nat → db = true)
              ∧ (status resp' = 200 ∨ status resp' = 500)
              ∧ (status resp' = 200 → (2 ≤ k)%nat)
              ∧ (status resp' = 200 → db = true → k = 3%nat)
              ∧ log st'
                = log st ++ take k (Http (PostToken (AuthorizationCode code))
                                    :: second :: more)).
  { intros resp st0 second more Hresp Hlog. exists resp, st0, 2%nat.
    split; [done|]. split; [lia|]. split; [discriminate|].
    split; [destruct Hresp as [-> | [-> _]]; by (left + right)|].
    split; [intros _; lia|].
    split; [|exact Hlog].
    destruct Hresp as [-> | [_ ->]]; [discriminate|]. intros _ H. discriminate H. }
  assert (Hthree : ∀ resp st0 second third,
            db = true →
            status resp = 200 ∨ status resp = 500 →
            log st0 = log st ++ [Http (PostToken (AuthorizationCode code));
                                 second; third] →
            ∃ resp' st' k,
              (Normal resp, st0) = (Normal resp', st')
              ∧ (1 ≤ k ≤ 3)%nat
              ∧ (k = 3%nat → db = true)
              ∧ (status resp' = 200 ∨ status resp' = 500)
              ∧ (status resp' = 200 → (2 ≤ k)%nat)
              ∧ (status resp' = 200 → db = true → k = 3%nat)
              ∧ log st'
                = log st ++ take k [Http (PostToken (AuthorizationCode code));
                                    second; third]).
  { intros resp st0 second third Hdb Hstatus Hlog. exists resp, st0, 3%nat.
    split; [done|]. split; [lia|]. split; [done|]. split; [done|].
    split; [intros _; lia|]. split; [done|]. exact Hlog. }
  unfold complete_authorization, try_catch, bind, callback_trace. cbv zeta.
  rewrite axios_run.
  destruct (provider env (log st) (PostToken (AuthorizationCode code)))
    as [s data|]; cbn; [|by apply Hone].
  destruct ((200 <=? s) && (s <? 300)); cbn; [|by apply Hone].
  destruct data as [p|]; cbn; [|by apply Hone].
  rewrite axios_run. cbn.
  destruct (provider env (log st ++ [Http (PostToken (AuthorizationCode code))])
              (GetUsers (p_access_token p))) as [s2 data2|]; cbn.
  2: { apply Htwo; [by left|]. cbn. by rewrite <- app_assoc. }
  destruct ((200 <=? s2) && (s2 <? 300)); cbn.
  2: { apply Htwo; [by left|]. cbn. by rewrite <- app_assoc. }
  destruct data2 as [p2|]; cbn.
  2: { apply Htwo; [by left|]. cbn. by rewrite <- app_assoc. }
  unfold first_user_id.
  destruct (p_data p2) as [[|user users]|]; cbn;
    try (apply Htwo; [by left|]; cbn; by rewrite <- app_assoc).
  unfold when_db, DATABASE_URL, query. cbn.
  destruct (twitch_tokens st) as [t|] eqn:Ht; cbn.
  2: { apply Htwo; [right; split; [done|]|cbn; by rewrite <- app_assoc].
       rewrite Hflag. unfold DATABASE_URL. by rewrite Ht. }
  assert (Hup : db = true) by (rewrite Hflag; unfold DATABASE_URL; by rewrite Ht).
  destruct (db_up env _ _); cbn.
  2: { apply Hthree; [done|by right|]. cbn. by rewrite <- !app_assoc. }
  destruct (id user) as [uid|] eqn:Hid; cbn.
  2: { apply Hthree; [done|by right|]. cbn. by rewrite <- !app_assoc. }
  destruct (p_access_token p) as [a|] eqn:Ha; cbn.
  2: { apply Hthree; [done|by right|]. cbn. by rewrite <- !app_assoc. }
  destruct (p_refresh_token p) as [r|] eqn:Hr; cbn.
  2: { apply Hthree; [done|by right|]. cbn. by rewrite <- !app_assoc. }
  apply Hthree; [done|by left|]. simpl. by rewrite <- !app_assoc.
Qed.

(** X8. The callback never throws. It answers 400, 200 or 500; 400
    exactly when the provider reported an error or the state is
    ill-formed, and then it has sent nothing and changed nothing.
    Otherwise its outbound effects are the first one, two or three of:
    the exchange of the code; the identity fetch, with the access token
    that the reply to the exchange carries; the upsert, for the channel
    of the state, of the id of the first user of the reply to the
    identity fetch and of the two tokens of the reply to the exchange
    ([callback_trace]). It stops at the first failure, reaches the
    identity fetch whenever it answers 200, and sends SQL only with a
    database configured, and then always before it answers 200. *)
Theorem auth_twitch_callback_effects (env : Env) (q : CallbackQuery) (st : State) :
  ∃ resp st' k,
    auth_twitch_callback env q st = (Normal resp, st')
    ∧ (status resp = 400 ∨ status resp = 200 ∨ status resp = 500)
    ∧ (status resp = 400
       ↔ JS.truthy (q_error q) = true ∨ ¬ well_formed_state (q_state q))
    ∧ (status resp = 400 → st' = st)
    ∧ (k ≤ 3)%nat
    ∧ (status resp = 400 ↔ k = 0%nat)
    ∧ (status resp = 200 → (2 ≤ k)%nat)
    ∧ (k = 3%nat → DATABASE_URL st = true)
    ∧ (status resp = 200 → DATABASE_URL st = true → k = 3%nat)
    ∧ ∀ channel,
        decode_state (q_state q) = Normal channel →
        log st' = log st ++ take k (callback_trace env st (q_code q) channel).
Proof.
  unfold auth_twitch_callback.
  destruct (JS.truthy (q_error q)) eqn:Herror.
  { eexists _, st, 0%nat.
    split; [reflexivity|]. split; [by left|]. split; [split; [by left|done]|].
    split; [done|]. split; [lia|]. split; [done|]. split; [discriminate|].
    split; [discriminate|]. split; [discriminate|].
    intros channel _. simpl. by rewrite app_nil_r. }
  destruct (decode_state (q_state q)) as [channel|e] eqn:Hstate.
  2: { eexists _, st, 0%nat.
       split; [reflexivity|]. split; [by left|].
       split; [split; [intros _; right; apply decode_state_throws_iff; by exists e|done]|].
       split; [done|]. split; [lia|]. split; [done|]. split; [discriminate|].
       split; [discriminate|]. split; [discriminate|].
       intros channel H. discriminate H. }
  destruct (complete_authorization_effects env (q_code q) channel st)
    as (resp & st' & k & -> & Hk & Hdb & Hstatus & Htwo & Hall & Hlog).
  exists resp, st', k.
  split; [reflexivity|]. split; [by right|].
  assert (Hnot : status resp ≠ 400) by (destruct Hstatus as [-> | ->]; discriminate).
  split.
  { split; [done|]. intros [Hbad | Hill]; [discriminate|].
    apply decode_state_throws_iff in Hill as [e He]. rewrite Hstate in He.
    discriminate. }
  split; [done|]. split; [lia|]. split; [split; [done|lia]|].
  split; [exact Htwo|]. split; [exact Hdb|]. split; [exact Hall|].
  by intros channel' [= <-].
Qed.

(** The trace of a successful callback with a database. *)
Example callback_trace_sample :
  log (snd (auth_twitch_callback env_ok sample_callback (initial (Some ∅))))
  = [Http (PostToken (AuthorizationCode (Some "code-1")));
     Http (GetUsers (Some "access-1"));
     Sql (UpsertToken "foo" (Some "4242") (Some "access-1") (Some "refresh-1"))].
Proof. vm_compute. reflexivity. Qed.

(** X9. When the code-for-token exchange fails (no reply, a status
    outside 2xx, or a 2xx reply whose body is [null], so that reading
    the tokens throws), the callback answers 500 after that single
    request: no identity fetch, and nothing is written to the cache, the
    table or the goals. *)
Theorem callback_exchange_failure
    (env : Env) (q : CallbackQuery) (st : State) (channel : string) :
  JS.truthy (q_error q) = false →
  decode_state (q_state q) = Normal channel →
  exchange_failed
    (provider env (log st) (PostToken (AuthorizationCode (q_code q)))) = true →
  auth_twitch_callback env q st
  = (Normal (mkResponse 500
               (Text "Failed to complete Twitch OAuth. Check server logs.")),
     record (Http (PostToken (AuthorizationCode (q_code q)))) st).
Proof.
  intros Herror Hstate Hfail. unfold auth_twitch_callback. rewrite Herror, Hstate.
  unfold complete_authorization, try_catch, bind. rewrite axios_run.
  destruct (provider env (log st) (PostToken (AuthorizationCode (q_code q))))
    as [s [p|]|]; simpl in Hfail |- *; [| |reflexivity].
  - apply negb_true_iff in Hfail. by rewrite Hfail.
  - by destruct ((200 <=? s) && (s <? 300)).
Qed.

Lemma callback_exchange_failure_witness :
  (JS.truthy (q_error sample_callback) = false
   ∧ decode_state (q_state sample_callback) = Normal "foo"
   ∧ exchange_failed
       (provider env_rejecting (log sample_state)
          (PostToken (AuthorizationCode (q_code sample_callback)))) = true)
  ∧ auth_twitch_callback env_rejecting sample_callback sample_state
    = (Normal (mkResponse 500
                 (Text "Failed to complete Twitch OAuth. Check server logs.")),
       record (Http (PostToken (AuthorizationCode (q_code sample_callback))))
         sample_state).
Proof.
  assert (Hstate : decode_state (q_state sample_callback) = Normal "foo")
    by (vm_compute; reflexivity).
  split; [repeat split; try reflexivity; exact Hstate|].
  exact (callback_exchange_failure env_rejecting sample_callback sample_state "foo"
           eq_refl Hstate eq_refl).
Defined.

(** A 2xx reply without a body is no failed exchange: the callback goes
    on to the identity fetch, with the bearer undefined, and fails
    there, on the reply without a body that has no first user. *)
Example callback_no_body :
  auth_twitch_callback env_no_body sample_callback sample_state
  = (Normal (mkResponse 500
               (Text "Failed to complete Twitch OAuth. Check server logs.")),
     record (Http (GetUsers None))
       (record (Http (PostToken (AuthorizationCode (Some "code-1")))) sample_state)).
Proof. vm_compute. reflexivity. Qed.

(** X10. The callback writes the cache before the table: when both
    provider calls succeed but the upsert fails (the database does not
    answer, or a token or the user id is missing), the callback answers
    500 although the cache already holds the new record, and the table
    is unchanged. *)
Theorem callback_database_failure
    (env : Env) (q : CallbackQuery) (st : State) (channel : string)
    (t : gmap string Row) (s s2 : Z) (p p2 : Payload) (user : Item)
    (users : list Item) :
  JS.truthy (q_error q) = false →
  decode_state (q_state q) = Normal channel →
  twitch_tokens st = Some t →
  provider env (log st) (PostToken (AuthorizationCode (q_code q)))
  = Status s (Some p) →
  (200 <=? s) && (s <? 300) = true →
  provider env (log st ++ [Http (PostToken (AuthorizationCode (q_code q)))])
    (GetUsers (p_access_token p)) = Status s2 (Some p2) →
  (200 <=? s2) && (s2 <? 300) = true →
  p_data p2 = Some (user :: users) →
  db_up env
    (log st ++ [Http (PostToken (AuthorizationCode (q_code q)));
                Http (GetUsers (p_access_token p))])
    (UpsertToken channel (id user) (p_access_token p) (p_refresh_token p)) = false
  ∨ id user = None ∨ p_access_token p = None ∨ p_refresh_token p = None →
  ∃ st',
    auth_twitch_callback env q st
    = (Normal (mkResponse 500
                 (Text "Failed to complete Twitch OAuth. Check server logs.")), st')
    ∧ Obj.get (tokensByChannel st') channel
      = Obj.Lit (mkTokenInfo (p_access_token p) (p_refresh_token p) (id user))
    ∧ twitch_tokens st' = Some t.
Proof.
  intros Herror Hstate Ht Hr1 Hok1 Hr2 Hok2 Huser Hfail.
  unfold auth_twitch_callback. rewrite Herror, Hstate.
  rewrite (complete_authorization_resolved _ _ _ _ _ _ _ _ _ _ Hr1 Hok1 Hr2 Hok2 Huser).
  rewrite Ht. simpl. rewrite <- app_assoc. simpl.
  destruct (db_up env _ _) eqn:Hup.
  2: { eexists. split; [reflexivity|]. simpl. by rewrite get_insert_eq. }
  destruct Hfail as [Hdown | Hmissing]; [discriminate|].
  destruct (id user) as [uid|], (p_access_token p) as [a|],
    (p_refresh_token p) as [r|];
    try (eexists; split; [reflexivity|]; simpl; by rewrite get_insert_eq).
  destruct Hmissing as [? | [? | ?]]; discriminate.
Qed.

Lemma callback_database_failure_witness :
  ∃ st',
    auth_twitch_callback env_database_down sample_callback (initial (Some ∅))
    = (Normal (mkResponse 500
                 (Text "Failed to complete Twitch OAuth. Check server logs.")), st')
    ∧ Obj.get (tokensByChannel st') "foo"
      = Obj.Lit (mkTokenInfo (Some "access-1") (Some "refresh-1") (Some "4242"))
    ∧ twitch_tokens st' = Some ∅.
Proof.
  assert (Hstate : decode_state (q_state sample_callback) = Normal "foo")
    by (vm_compute; reflexivity).
  exact (callback_database_failure env_database_down sample_callback
           (initial (Some ∅)) "foo" ∅ 200 200 sample_payload sample_payload
           (mkItem (Some "4242")) [] eq_refl Hstate eq_refl eq_refl eq_refl
           eq_refl eq_refl eq_refl (or_introl eq_refl)).
Defined.

(** X11. A callback that answers 200 replaces the cached record of the
    channel of its state, whatever was there, by the record made of the
    provider's replies (the two tokens of the reply to the exchange, the
    id of the first user of the reply to the identity fetch), and with a
    database the row of that channel by the same data. The goals, the
    rows of all other channels and the records written under all other
    keys of the cache are untouched, and so is what is read from the
    cache under every key apart from the channel ([reads_apart]: for the
    channel [__proto__] the record becomes the prototype, and is seen
    under the names of its three properties). *)
Theorem callback_success_frame
    (env : Env) (q : CallbackQuery) (st st' : State) (resp : Response) :
  auth_twitch_callback env q st = (Normal resp, st') →
  status resp = 200 →
  ∃ channel info,
    decode_state (q_state q) = Normal channel
    ∧ authorized_record env st (q_code q) = Some info
    ∧ Obj.get (tokensByChannel st') channel = Obj.Lit info
    ∧ (∀ other, reads_apart channel other →
         Obj.get (tokensByChannel st') other = Obj.get (tokensByChannel st) other)
    ∧ (∀ other, other ≠ channel →
         tokensByChannel st' !! other = tokensByChannel st !! other)
    ∧ goalsByChannel st' = goalsByChannel st
    ∧ match twitch_tokens st with
      | None => twitch_tokens st' = None
      | Some t =>
          ∃ t', twitch_tokens st' = Some t'
                ∧ info_of_row <$> t' !! channel = Some info
                ∧ ∀ other, other ≠ channel → t' !! other = t !! other
      end.
Proof.
  intros Hrun Hstatus.
  destruct (callback_success_inv _ _ _ _ _ Hrun Hstatus)
    as (channel & info & _ & Hstate & _ & Htokens & Hgoals & Htable & Hmade).
  exists channel, info. split; [exact Hstate|]. split; [exact Hmade|].
  split; [rewrite Htokens; apply get_insert_eq|].
  split; [intros other Hother; rewrite Htokens; by apply get_tokens_apart|].
  split; [intros other Hother; by rewrite Htokens, lookup_insert_ne|].
  split; [exact Hgoals|].
  destruct (twitch_tokens st) as [t|]; [|exact Htable].
  destruct Htable as (row & -> & ->). eexists. split; [reflexivity|].
  split; [by rewrite lookup_insert_eq|].
  intros other Hother. by rewrite lookup_insert_ne.
Qed.

Lemma callback_success_frame_witness :
  let run := auth_twitch_callback env_ok sample_callback sample_state in
  let info := mkTokenInfo (Some "access-1") (Some "refresh-1") (Some "4242") in
  (fst run = Normal (mkResponse 200 (Connected "foo"))
   ∧ status (mkResponse 200 (Connected "foo")) = 200)
  ∧ decode_state (q_state sample_callback) = Normal "foo"
  ∧ authorized_record env_ok sample_state (q_code sample_callback) = Some info
  ∧ Obj.get (tokensByChannel (snd run)) "foo" = Obj.Lit info
  ∧ (∀ other, reads_apart "foo" other →
       Obj.get (tokensByChannel (snd run)) other
       = Obj.get (tokensByChannel sample_state) other)
  ∧ goalsByChannel (snd run) = goalsByChannel sample_state.
Proof.
  intros run info.
  assert (Hfst : fst run = Normal (mkResponse 200 (Connected "foo")))
    by (vm_compute; reflexivity).
  assert (Hrun : run = (Normal (mkResponse 200 (Connected "foo")), snd run)).
  { rewrite (surjective_pairing run) at 1. by rewrite Hfst. }
  assert (Hstate : decode_state (q_state sample_callback) = Normal "foo")
    by (vm_compute; reflexivity).
  assert (Hmade : authorized_record env_ok sample_state (q_code sample_callback)
                  = Some info) by reflexivity.
  split; [split; [exact Hfst|reflexivity]|].
  destruct (callback_success_frame env_ok sample_callback sample_state (snd run)
              (mkResponse 200 (Connected "foo")) Hrun eq_refl)
    as (channel & info' & H1 & H2 & H3 & H4 & _ & H6 & _).
  rewrite Hstate in H1. injection H1 as <-.
  rewrite Hmade in H2. injection H2 as <-.
  by repeat split.
Defined.

(** The exception is real: a callback for the channel [__proto__],
    which [auth_twitch] accepts as any other, is seen under
    access_token. *)
Example callback_seen_through_prototype :
  let state := Base64url.encode (JSON.stringify_channel "__proto__") in
  let q := mkCallbackQuery (Some "code-1") (Some state) None None in
  let st' := snd (auth_twitch_callback env_ok q (initial None)) in
  auth_twitch (Some "__proto__") = mkResponse 302 (Redirect state)
  ∧ fst (auth_twitch_callback env_ok q (initial None))
    = Normal (mkResponse 200 (Connected "__proto__"))
  ∧ Obj.get (tokensByChannel (initial None)) "access_token"
    = Obj.Primitive Obj.Undefined
  ∧ Obj.get (tokensByChannel st') "access_token" = Obj.Primitive (Obj.Str "access-1")
  ∧ fst (getCurrentSubsForChannel env_ok "access_token" st') = Normal (Some 120).
Proof. vm_compute. repeat split; reflexivity. Qed.

(** X12. From authorization to the overlay: after [auth_twitch] made
    the state for a channel and the callback for that state answered
    200, a subgoal request for the channel, in any letter case, sends
    the metric request with the stored broadcaster id and access token,
    and when that is answered 2xx with a body other than [null] the API
    answers 200 with the count of the body as [current]. *)
Theorem authorization_then_subgoal
    (env : Env) (channel state : string) (code : option string)
    (st st1 : State) (resp : Response) :
  auth_twitch (Some channel) = mkResponse 302 (Redirect state) →
  auth_twitch_callback env (mkCallbackQuery code (Some state) None None) st
  = (Normal resp, st1) →
  status resp = 200 →
  ∃ info,
    Obj.get (tokensByChannel st1) (JS.toLowerCase channel) = Obj.Lit info
    ∧ ∀ other s p,
        JS.toLowerCase other = JS.toLowerCase channel →
        provider env (log st1)
          (GetSubscriptions (broadcaster_id info) (access_token info))
        = Status s (Some p) →
        (200 <=? s) && (s <? 300) = true →
        api_subgoal env (Some other) st1
        = (Normal (mkResponse 200
                     (Json (total_in p) (getGoal st1 (JS.toLowerCase channel)))),
           record (Http (GetSubscriptions (broadcaster_id info) (access_token info)))
             st1).
Proof.
  intros Hstart Hrun Hstatus.
  destruct channel as [|c s0]; [discriminate|]. injection Hstart as <-.
  destruct (callback_success_inv _ _ _ _ _ Hrun Hstatus)
    as (ch & info & _ & Hstate & _ & Htokens & _).
  cbn [q_state] in Hstate. rewrite decode_state_encode in Hstate.
  injection Hstate as <-.
  exists info. split; [rewrite Htokens; apply get_insert_eq|].
  intros other s p Hother Hreply Hok.
  assert (Hkey : subgoal_channel (Some other) = JS.toLowerCase (String c s0)).
  { rewrite <- Hother. by destruct other. }
  unfold api_subgoal, bind at 1, get. rewrite Hkey. unfold bind at 1.
  unfold getCurrentSubsForChannel, bind at 1, get. cbv zeta.
  rewrite toLowerCase_idempotent, Htokens, get_insert_eq.
  cbn [Obj.truthy Obj.field].
  unfold try_catch. rewrite fetch_run. cbn [Obj.field].
  rewrite Hreply, Hok. reflexivity.
Qed.

Lemma authorization_then_subgoal_witness :
  let run := auth_twitch_callback env_ok
               (mkCallbackQuery (Some "code-1") (Some sample_oauth_state) None None)
               (initial None) in
  (auth_twitch (Some "Foo") = mkResponse 302 (Redirect sample_oauth_state)
   ∧ fst run = Normal (mkResponse 200 (Connected "foo")))
  ∧ ∃ info,
      Obj.get (tokensByChannel (snd run)) (JS.toLowerCase "Foo") = Obj.Lit info
      ∧ fst (api_subgoal env_ok (Some "FOO") (snd run))
        = Normal (mkResponse 200 (Json 120 50)).
Proof.
  intros run.
  assert (Hstart : auth_twitch (Some "Foo") = mkResponse 302 (Redirect sample_oauth_state))
    by (vm_compute; reflexivity).
  assert (Hfst : fst run = Normal (mkResponse 200 (Connected "foo")))
    by (vm_compute; reflexivity).
  assert (Hrun : run = (Normal (mkResponse 200 (Connected "foo")), snd run)).
  { rewrite (surjective_pairing run) at 1. by rewrite Hfst. }
  split; [split; [exact Hstart|exact Hfst]|].
  destruct (authorization_then_subgoal env_ok "Foo" sample_oauth_state (Some "code-1")
              (initial None) (snd run) (mkResponse 200 (Connected "foo"))
              Hstart Hrun eq_refl) as (info & Hinfo & Hsub).
  exists info. split; [exact Hinfo|].
  rewrite (Hsub "FOO" 200 sample_payload eq_refl).
  - vm_compute. reflexivity.
  - assert (Hi : info = mkTokenInfo (Some "access-1") (Some "refresh-1") (Some "4242")).
    { assert (Hl : Obj.get (tokensByChannel (snd run)) (JS.toLowerCase "Foo")
                   = Obj.Lit (mkTokenInfo (Some "access-1") (Some "refresh-1")
                                (Some "4242"))) by (vm_compute; reflexivity).
      rewrite Hl in Hinfo. by injection Hinfo. }
    rewrite Hi. reflexivity.
  - reflexivity.
Defined.

(** ** Startup *)

Lemma load_rows_lookup (rows : list (string * Row)) (tokens : gmap string TokenInfo) k :
  NoDup rows.*1 →
  (∀ kv, kv ∈ rows → JS.toLowerCase kv.1 = kv.1) →
  fold_left load_row rows tokens !! k
  = match (list_to_map rows : gmap string Row) !! k with
    | Some row => Some (info_of_row row)
    | None => tokens !! k
    end.
Proof.
  revert tokens. induction rows as [|[k0 r0] rows IH]; intros tokens Hnodup Hlower.
  { simpl. by rewrite lookup_empty. }
  apply NoDup_cons in Hnodup as [Hfresh Hnodup].
  assert (Hk0 : JS.toLowerCase k0 = k0) by (apply (Hlower (k0, r0)); left).
  simpl fold_left. rewrite IH; [|exact Hnodup|intros kv Hkv; apply Hlower; by right].
  simpl list_to_map. unfold load_row. simpl fst. simpl snd. rewrite Hk0.
  destruct (decide (k0 = k)) as [<-|Hne].
  - rewrite lookup_insert_eq.
    rewrite (not_elem_of_list_to_map_1 (M := gmap string) rows k0 Hfresh).
    by rewrite lookup_insert_eq.
  - rewrite !lookup_insert_ne by exact Hne. reflexivity.
Qed.

Lemma load_table_lookup (t : gmap string Row) (tokens : gmap string TokenInfo) k :
  keys_lowercase t →
  fold_left load_row (map_to_list t) tokens !! k
  = match t !! k with
    | Some row => Some (info_of_row row)
    | None => tokens !! k
    end.
Proof.
  intros Hlower. rewrite load_rows_lookup.
  - by rewrite list_to_map_to_list.
  - apply NoDup_fst_map_to_list.
  - intros [k' row] Hin. apply elem_of_map_to_list in Hin. apply Hlower. by exists row.
Qed.

(** [start] with a database that answers both statements. *)
Lemma start_run_up env st t :
  twitch_tokens st = Some t →
  db_up env (log st) CreateTable = true →
  db_up env (log st ++ [Sql CreateTable]) SelectTokens = true →
  start env st
  = (Normal tt,
     mkState (fold_left load_row (map_to_list t) (tokensByChannel st))
       (goalsByChannel st) (Some t)
       ((log st ++ [Sql CreateTable]) ++ [Sql SelectTokens])).
Proof.
  intros Ht Hcreate Hselect.
  unfold start, when_db, DATABASE_URL, initDb, loadTokens, try_catch, bind, query.
  rewrite Ht, Hcreate. simpl. rewrite Hselect. reflexivity.
Qed.

(** X13. Startup with a database that answers loads the table into the
    cache: every row (the server writes them under lowercase keys)
    becomes the cached record of its channel, replacing what was cached.
    Under a channel without a row, what was written in the cache stays;
    what is read there stays too, unless the table has a row for the
    channel [__proto__], whose record becomes the prototype, and the key
    read names one of the three properties of a record. The table and
    the goals are not changed. *)
Theorem start_loads_table (env : Env) (st : State) (t : gmap string Row) :
  twitch_tokens st = Some t →
  keys_lowercase t →
  db_up env (log st) CreateTable = true →
  db_up env (log st ++ [Sql CreateTable]) SelectTokens = true →
  ∃ st',
    start env st = (Normal tt, st')
    ∧ (∀ k row,
         t !! k = Some row →
         Obj.get (tokensByChannel st') k
         = Obj.Lit (mkTokenInfo (Some (row_access_token row))
                      (Some (row_refresh_token row))
                      (Some (row_broadcaster_id row))))
    ∧ (∀ k, t !! k = None → tokensByChannel st' !! k = tokensByChannel st !! k)
    ∧ (∀ k,
         t !! k = None →
         t !! Obj.proto = None ∨ token_property k = false →
         Obj.get (tokensByChannel st') k = Obj.get (tokensByChannel st) k)
    ∧ twitch_tokens st' = Some t
    ∧ goalsByChannel st' = goalsByChannel st.
Proof.
  intros Ht Hlower Hcreate Hselect.
  rewrite (start_run_up _ _ _ Ht Hcreate Hselect). eexists. split; [reflexivity|].
  simpl.
  split; [intros k row Hrow; apply get_Lit; by rewrite load_table_lookup, Hrow|].
  split; [intros k Hk; by rewrite load_table_lookup, Hk|].
  split; [|by split].
  intros k Hk Hproto. unfold Obj.get.
  rewrite !load_table_lookup by exact Hlower. rewrite Hk.
  destruct (tokensByChannel st !! k) as [r|]; [reflexivity|].
  destruct (t !! Obj.proto) as [row|] eqn:Hrow; [|reflexivity].
  destruct Hproto as [Hnone | Hname]; [discriminate|].
  cbn [mbind option_bind].
  rewrite (proj2 (token_property_None (info_of_row row) k) Hname).
  destruct (tokensByChannel st !! Obj.proto) as [p|]; cbn [mbind option_bind];
    [|reflexivity].
  by rewrite (proj2 (token_property_None p k) Hname).
Qed.

Lemma start_loads_table_witness :
  (twitch_tokens (initial (Some {["foo" := sample_row]})) = Some {["foo" := sample_row]}
   ∧ keys_lowercase ({["foo" := sample_row]} : gmap string Row))
  ∧ ∃ st',
      start env_ok (initial (Some {["foo" := sample_row]})) = (Normal tt, st')
      ∧ Obj.get (tokensByChannel st') "foo" = Obj.Lit sample_info
      ∧ Obj.get (tokensByChannel st') "bar" = Obj.Primitive Obj.Undefined.
Proof.
  assert (Hlower : keys_lowercase ({["foo" := sample_row]} : gmap string Row)).
  { intros k [row Hk]. apply lookup_singleton_Some in Hk as [<- _]. reflexivity. }
  split; [split; [reflexivity|exact Hlower]|].
  destruct (start_loads_table env_ok (initial (Some {["foo" := sample_row]}))
              {["foo" := sample_row]} eq_refl Hlower eq_refl eq_refl)
    as (st' & Hrun & Hload & _ & Hrest & _).
  exists st'. split; [exact Hrun|]. split.
  - exact (Hload "foo" sample_row eq_refl).
  - rewrite (Hrest "bar" eq_refl (or_introl eq_refl)). reflexivity.
Defined.

(** X14. Startup never throws and never changes the table or the goals.
    Without [DATABASE_URL] it does nothing at all; when the database
    fails on either statement the cache stays as it was and the process
    goes on in memory. *)
Theorem start_degrades (env : Env) (st : State) :
  ∃ st',
    start env st = (Normal tt, st')
    ∧ twitch_tokens st' = twitch_tokens st
    ∧ goalsByChannel st' = goalsByChannel st
    ∧ (twitch_tokens st = None → st' = st)
    ∧ (db_up env (log st) CreateTable = false
       ∨ db_up env (log st ++ [Sql CreateTable]) SelectTokens = false →
       tokensByChannel st' = tokensByChannel st).
Proof.
  unfold start, when_db, DATABASE_URL, initDb, loadTokens, try_catch, bind, query.
  destruct (twitch_tokens st) as [t|] eqn:Ht.
  2: { exists st. by split. }
  destruct (db_up env (log st) CreateTable) eqn:Hcreate; simpl.
  2: { eexists. split; [reflexivity|]. simpl. by rewrite Ht. }
  destruct (db_up env (log st ++ [Sql CreateTable]) SelectTokens) eqn:Hselect; simpl.
  2: { eexists. split; [reflexivity|]. simpl. by rewrite ?Ht. }
  eexists. split; [reflexivity|]. simpl.
  split; [done|]. split; [done|]. split; [done|]. by intros [?|?].
Qed.

(** X15. Tokens survive a restart: after a callback that answered 200
    with a database configured (its keys lowercase, as the server writes
    them), a new process that starts on the table left behind, with the
    database answering, has in its cache the very record the callback
    cached for the channel. *)
Theorem tokens_survive_restart
    (env env' : Env) (q : CallbackQuery) (st st1 : State) (resp : Response)
    (t : gmap string Row) :
  twitch_tokens st = Some t →
  keys_lowercase t →
  auth_twitch_callback env q st = (Normal resp, st1) →
  status resp = 200 →
  db_up env' [] CreateTable = true →
  db_up env' [Sql CreateTable] SelectTokens = true →
  ∃ channel info st2,
    decode_state (q_state q) = Normal channel
    ∧ Obj.get (tokensByChannel st1) channel = Obj.Lit info
    ∧ start env' (initial (twitch_tokens st1)) = (Normal tt, st2)
    ∧ Obj.get (tokensByChannel st2) channel = Obj.Lit info.
Proof.
  intros Ht Hlower Hrun Hstatus Hcreate Hselect.
  destruct (callback_success_inv _ _ _ _ _ Hrun Hstatus)
    as (channel & info & _ & Hstate & _ & Htokens & _ & Htable & _).
  rewrite Ht in Htable. destruct Htable as (row & Ht1 & ->).
  exists channel, (info_of_row row). eexists.
  split; [exact Hstate|]. split; [rewrite Htokens; apply get_insert_eq|].
  rewrite Ht1.
  rewrite (start_run_up env' (initial (Some (<[channel := row]> t)))
             (<[channel := row]> t) eq_refl Hcreate Hselect).
  split; [reflexivity|]. simpl. apply get_Lit. rewrite load_table_lookup.
  - by rewrite lookup_insert_eq.
  - intros k Hk. destruct (decide (channel = k)) as [<-|Hne].
    + by eapply decode_state_lowercase.
    + rewrite lookup_insert_ne in Hk by exact Hne. by apply Hlower.
Qed.

Lemma tokens_survive_restart_witness :
  let run := auth_twitch_callback env_ok sample_callback (initial (Some ∅)) in
  (twitch_tokens (initial (Some ∅)) = Some ∅
   ∧ keys_lowercase (∅ : gmap string Row)
   ∧ fst run = Normal (mkResponse 200 (Connected "foo")))
  ∧ ∃ channel info st2,
      decode_state (q_state sample_callback) = Normal channel
      ∧ Obj.get (tokensByChannel (snd run)) channel = Obj.Lit info
      ∧ start env_ok (initial (twitch_tokens (snd run))) = (Normal tt, st2)
      ∧ Obj.get (tokensByChannel st2) channel = Obj.Lit info.
Proof.
  intros run.
  assert (Hlower : keys_lowercase (∅ : gmap string Row)).
  { intros k [row Hk]. by rewrite lookup_empty in Hk. }
  assert (Hfst : fst run = Normal (mkResponse 200 (Connected "foo")))
    by (vm_compute; reflexivity).
  assert (Hrun : run = (Normal (mkResponse 200 (Connected "foo")), snd run)).
  { rewrite (surjective_pairing run) at 1. by rewrite Hfst. }
  split; [split; [reflexivity|split; [exact Hlower|exact Hfst]]|].
  exact (tokens_survive_restart env_ok env_ok sample_callback (initial (Some ∅))
           (snd run) (mkResponse 200 (Connected "foo")) ∅
           eq_refl Hlower Hrun eq_refl eq_refl eq_refl).
Defined.

(** ** The table keeps lowercase keys *)

Section TableInvariant.

Variable env : Env.

Lemma table_axios r : preserves table_keys_lowercase (axios env r).
Proof. intros st H. rewrite axios_run. exact H. Qed.

Lemma table_query q :
  match q with
  | UpsertToken channel _ _ _ => JS.toLowerCase channel = channel
  | _ => True
  end →
  preserves table_keys_lowercase (query env q).
Proof.
  intros Hq st H. unfold query.
  destruct (twitch_tokens st) as [t|] eqn:Ht; [|exact H].
  destruct (db_up env (log st) q); [|exact H].
  assert (Hsame : table_keys_lowercase (set_table t (record (Sql q) st))).
  { intros t0 k [= <-]. by apply H. }
  assert (Hins : ∀ channel row, JS.toLowerCase channel = channel →
            table_keys_lowercase (set_table (<[channel := row]> t) (record (Sql q) st))).
  { intros channel row Hc t0 k [= <-] Hk.
    destruct (decide (channel = k)) as [<-|Hne]; [exact Hc|].
    rewrite lookup_insert_ne in Hk by exact Hne. by eapply H. }
  destruct q as [| |channel b a r|channel a r]; simpl.
  - exact Hsame.
  - exact Hsame.
  - destruct b, a, r; simpl; try exact H. by apply Hins.
  - destruct (t !! channel) as [old|] eqn:Hold; simpl; [|exact Hsame].
    destruct a, r; simpl; try exact H.
    apply Hins. eapply H; [exact Ht|]. by rewrite Hold.
Qed.

Lemma table_when_db c :
  preserves table_keys_lowercase c → preserves table_keys_lowercase (when_db c).
Proof.
  intros Hc st H. unfold when_db. destruct (DATABASE_URL st); [by apply Hc|exact H].
Qed.

Lemma table_modify_tokens f : preserves table_keys_lowercase (modify (set_tokens f)).
Proof. by intros st H. Qed.

Lemma table_modify_goals f : preserves table_keys_lowercase (modify (set_goals f)).
Proof. by intros st H. Qed.

Lemma table_start : preserves table_keys_lowercase (start env).
Proof.
  unfold start. apply table_when_db.
  apply preserves_try_catch; [|intros; apply preserves_ret].
  apply preserves_bind.
  { unfold initDb. apply preserves_bind; [by apply table_query|intros; apply preserves_ret]. }
  intros _. unfold loadTokens.
  apply preserves_try_catch; [|intros; apply preserves_ret].
  apply preserves_bind; [by apply table_query|intros; apply table_modify_tokens].
Qed.

Lemma table_tokens_of data : preserves table_keys_lowercase (tokens_of data).
Proof. destruct data; [apply preserves_ret | apply preserves_throw]. Qed.

Lemma table_refreshAccessToken key tokenInfo :
  preserves table_keys_lowercase (refreshAccessToken env key tokenInfo).
Proof.
  unfold refreshAccessToken.
  destruct (Obj.field refresh_token tokenInfo) as [[|c s]|]; try apply preserves_ret.
  apply preserves_try_catch; [|intros; apply preserves_ret].
  apply preserves_bind; [apply table_axios|].
  intros res. apply preserves_bind; [apply table_tokens_of|].
  intros tokens. apply preserves_bind; [apply table_modify_tokens|].
  intros _. apply preserves_bind.
  { apply table_when_db.
    apply preserves_bind; [by apply table_query|intros; apply preserves_ret]. }
  intros _. apply preserves_bind; [apply preserves_get|intros; apply preserves_ret].
Qed.

Lemma table_fetch info access :
  preserves table_keys_lowercase
    (let! total := doRequest env info access in ret (Some total)).
Proof.
  apply preserves_bind; [|intros; apply preserves_ret].
  unfold doRequest. apply preserves_bind; [apply table_axios|].
  intros [p|]; [|apply preserves_throw]. simpl.
  destruct (p_total p); [apply preserves_ret|].
  destruct (p_data p); apply preserves_ret.
Qed.

Lemma table_getCurrentSubsForChannel channel :
  preserves table_keys_lowercase (getCurrentSubsForChannel env channel).
Proof.
  unfold getCurrentSubsForChannel. apply preserves_bind; [apply preserves_get|].
  intros st. cbv zeta.
  destruct (Obj.truthy (Obj.get (tokensByChannel st) (JS.toLowerCase channel)));
    [|apply preserves_ret].
  apply preserves_try_catch; [apply table_fetch|].
  intros err. destruct (is_unauthorized err); [|apply preserves_ret].
  apply preserves_bind; [apply table_refreshAccessToken|].
  intros refreshed. destruct (Obj.truthy refreshed); [|apply preserves_ret].
  apply preserves_try_catch; [apply table_fetch|intros; apply preserves_ret].
Qed.

Lemma table_auth_twitch_callback q :
  preserves table_keys_lowercase (auth_twitch_callback env q).
Proof.
  unfold auth_twitch_callback. destruct (JS.truthy (q_error q)); [apply preserves_ret|].
  destruct (decode_state (q_state q)) as [channel|e] eqn:Hstate; [|apply preserves_ret].
  apply decode_state_lowercase in Hstate.
  unfold complete_authorization.
  apply preserves_try_catch; [|intros; apply preserves_ret].
  apply preserves_bind; [apply table_axios|].
  intros tokenRes. apply preserves_bind; [apply table_tokens_of|].
  intros tokens. apply preserves_bind; [apply table_axios|].
  intros userRes. apply preserves_bind.
  { unfold user_id. destruct userRes as [p|]; [|apply preserves_throw].
    destruct (p_data p) as [[|user users]|];
      (apply preserves_throw || apply preserves_ret). }
  intros uid. apply preserves_bind; [apply table_modify_tokens|].
  intros _. apply preserves_bind; [|intros; apply preserves_ret].
  apply table_when_db.
  apply preserves_bind; [by apply table_query|intros; apply preserves_ret].
Qed.

Lemma table_api_setgoal req : preserves table_keys_lowercase (api_setgoal req).
Proof.
  unfold api_setgoal. destruct (goal_channel req) as [|c s]; [apply preserves_ret|].
  destruct (goal_string req) as [[|g gs]|]; try apply preserves_ret.
  destruct (JS.parseInt (String g gs)) as [goal|]; [|apply preserves_ret].
  destruct (goal <=? 0); [apply preserves_ret|].
  apply preserves_bind; [apply table_modify_goals|intros; apply preserves_ret].
Qed.

Lemma table_api_subgoal channel : preserves table_keys_lowercase (api_subgoal env channel).
Proof.
  unfold api_subgoal. apply preserves_bind; [apply preserves_get|].
  intros st. apply preserves_bind; [apply table_getCurrentSubsForChannel|].
  intros [current|]; apply preserves_ret.
Qed.

Lemma table_step op st :
  table_keys_lowercase st → table_keys_lowercase (step env op st).
Proof.
  intros H. destruct op; simpl.
  - by apply table_start.
  - exact H.
  - by apply table_auth_twitch_callback.
  - by apply table_api_setgoal.
  - by apply table_api_subgoal.
Qed.

End TableInvariant.

(** X16. The server writes rows under lowercase channels only: when the
    keys of the table are lowercase as the process begins, they are
    lowercase after any sequence of operations, whatever the provider
    and the database do. (This is what makes the startup load faithful:
    no two rows can fall on one cache key.) *)
Theorem table_keys_stay_lowercase
    (env : Env) (ops : list Op) (table : gmap string Row) :
  keys_lowercase table →
  table_keys_lowercase (run_ops env ops (initial (Some table))).
Proof.
  intros Hlower.
  assert (Hinit : table_keys_lowercase (initial (Some table))).
  { intros t k [= <-]. apply Hlower. }
  unfold run_ops. revert Hinit. generalize (initial (Some table)).
  induction ops as [|op ops IH]; intros st Hst; [exact Hst|].
  simpl. apply IH. by apply table_step.
Qed.

Lemma table_keys_stay_lowercase_witness :
  keys_lowercase ({["foo" := sample_row]} : gmap string Row)
  ∧ table_keys_lowercase
      (run_ops env_ok [OpStart; OpAuthCallback sample_callback; OpSubGoal (Some "Foo")]
         (initial (Some {["foo" := sample_row]}))).
Proof.
  assert (Hlower : keys_lowercase ({["foo" := sample_row]} : gmap string Row)).
  { intros k [row Hk]. apply lookup_singleton_Some in Hk as [<- _]. reflexivity. }
  split; [exact Hlower|].
  exact (table_keys_stay_lowercase env_ok _ _ Hlower).
Defined.

(** ** The earlier server and the present one *)

(** X17. Moving the [try]/[catch] into [loadTokens] changed nothing at
    startup: the startup of src/server.js and the present one end in the
    same state and neither throws, although the earlier [loadTokens]
    alone throws when the database fails and the present one never does. *)
Theorem start_same_as_legacy (env : Env) (st : State) :
  Legacy.start env st = start env st
  ∧ (∃ st', loadTokens env st = (Normal tt, st'))
  ∧ (twitch_tokens st ≠ None →
     db_up env (log st) SelectTokens = false →
     ∃ st', Legacy.loadTokens env st = (Throw DbError, st')).
Proof.
  split; [|split].
  - unfold Legacy.start, start, when_db. destruct (DATABASE_URL st); [|reflexivity].
    unfold Legacy.loadTokens, loadTokens, try_catch, bind.
    destruct (initDb env st) as [[[]|e] st1]; [|reflexivity].
    by destruct (query env SelectTokens st1) as [[rows|e] st2].
  - unfold loadTokens, try_catch.
    match goal with |- context [bind ?c ?k st] => destruct (bind c k st) as [[[]|e] st1] end;
      by eexists.
  - intros Hdb Hdown. unfold Legacy.loadTokens, bind, query.
    destruct (twitch_tokens st) as [t|]; [|done]. rewrite Hdown. by eexists.
Qed.

(** The helper of src/server.js once it has read something truthy. *)
Lemma legacy_run env channel st :
  let tokenInfo := Obj.get (tokensByChannel st) (JS.toLowerCase channel) in
  let metric :=
    GetSubscriptions (Obj.field broadcaster_id tokenInfo)
      (Obj.field access_token tokenInfo) in
  Obj.truthy tokenInfo = true →
  Legacy.getCurrentSubsForChannel env channel st
  = (Normal (metric_outcome (provider env (log st) metric)), record (Http metric) st).
Proof.
  intros tokenInfo metric Htruthy.
  unfold Legacy.getCurrentSubsForChannel, bind at 1, get. cbv zeta.
  fold tokenInfo. rewrite Htruthy. fold metric.
  unfold try_catch, bind. rewrite axios_run. unfold metric_outcome.
  destruct (provider env (log st) metric) as [s [p|]|]; [| |reflexivity];
    destruct ((200 <=? s) && (s <? 300)); try reflexivity.
  by rewrite total_of_run.
Qed.

(** X18. The sub count helper of src/server.js sends at most one request
    and never refreshes; it answers as the present helper does, and
    leaves the same state, unless the channel has a cached record and
    the provider answers the request made for it with 401, and then it
    returns null at once. *)
Theorem legacy_getCurrentSubsForChannel
    (env : Env) (channel : string) (st : State) :
  (∃ new,
     log (snd (Legacy.getCurrentSubsForChannel env channel st)) = log st ++ new
     ∧ (length new ≤ 1)%nat ∧ refresh_requests new = 0%nat)
  ∧ ((∀ info d,
        Obj.get (tokensByChannel st) (JS.toLowerCase channel) = Obj.Lit info →
        provider env (log st)
          (GetSubscriptions (broadcaster_id info) (access_token info))
        ≠ Status 401 d) →
     Legacy.getCurrentSubsForChannel env channel st
     = getCurrentSubsForChannel env channel st)
  ∧ (∀ info d,
       Obj.get (tokensByChannel st) (JS.toLowerCase channel) = Obj.Lit info →
       provider env (log st)
         (GetSubscriptions (broadcaster_id info) (access_token info))
       = Status 401 d →
       Legacy.getCurrentSubsForChannel env channel st
       = (Normal None,
          record (Http (GetSubscriptions (broadcaster_id info) (access_token info)))
            st)).
Proof.
  pose proof (legacy_run env channel st) as Hrun. cbv zeta in Hrun.
  split; [|split].
  - destruct (Obj.truthy (Obj.get (tokensByChannel st) (JS.toLowerCase channel)))
      eqn:Htruthy.
    + rewrite (Hrun eq_refl). eexists [_].
      simpl. split; [done|]. split; [lia|reflexivity].
    + unfold Legacy.getCurrentSubsForChannel, bind, get. cbv zeta. rewrite Htruthy.
      exists []. simpl. rewrite app_nil_r. split; [done|]. split; [lia|reflexivity].
  - intros Hnot.
    destruct (Obj.truthy (Obj.get (tokensByChannel st) (JS.toLowerCase channel)))
      eqn:Htruthy.
    2: { unfold Legacy.getCurrentSubsForChannel, getCurrentSubsForChannel, bind, get.
         cbv zeta. by rewrite Htruthy. }
    rewrite (Hrun eq_refl).
    unfold getCurrentSubsForChannel, bind at 1, get. cbv zeta. rewrite Htruthy.
    unfold try_catch at 1. rewrite fetch_run. unfold metric_outcome.
    destruct (Obj.get (tokensByChannel st) (JS.toLowerCase channel))
      as [prim|info|] eqn:Hinfo; cbn [Obj.field] in *.
    + destruct (provider env (log st) (GetSubscriptions None None)) as [s [p|]|];
        [| |reflexivity];
        (destruct ((200 <=? s) && (s <? 300)); [reflexivity|]; simpl;
         by destruct (s =? 401)).
    + specialize (Hnot info).
      destruct (provider env (log st)
                  (GetSubscriptions (broadcaster_id info) (access_token info)))
        as [s [p|]|]; [| |reflexivity].
      * destruct ((200 <=? s) && (s <? 300)); [reflexivity|]. simpl.
        destruct (s =? 401) eqn:Hs; [|reflexivity].
        apply Z.eqb_eq in Hs. subst s. by destruct (Hnot (Some p)).
      * destruct ((200 <=? s) && (s <? 300)); [reflexivity|]. simpl.
        destruct (s =? 401) eqn:Hs; [|reflexivity].
        apply Z.eqb_eq in Hs. subst s. by destruct (Hnot None).
    + destruct (provider env (log st) (GetSubscriptions None None)) as [s [p|]|];
        [| |reflexivity];
        (destruct ((200 <=? s) && (s <? 300)); [reflexivity|]; simpl;
         by destruct (s =? 401)).
  - intros info d Hinfo Hreply. rewrite Hinfo in Hrun. cbn [Obj.field] in Hrun.
    rewrite (Hrun eq_refl), Hreply. by destruct d.
Qed.

(** ** Setting and reading goals *)

(** What a goal request does, in one equation. *)
Lemma api_setgoal_run req st :
  api_setgoal req st
  = match goal_channel req with
    | EmptyString => (Normal (mkResponse 400 (Text "Missing channel")), st)
    | String _ _ =>
        match goal_string req with
        | Some (String c s) =>
            match positive_goal (goal_string req) with
            | Some n =>
                (Normal (mkResponse 200 (GoalUpdated n)),
                 set_goals <[goal_channel req := n]> st)
            | None =>
                (Normal (mkResponse 400 (Text "Goal must be a positive integer")), st)
            end
        | _ => (Normal (mkResponse 400 (Text "Missing goal")), st)
        end
    end.
Proof.
  unfold api_setgoal, positive_goal.
  destruct (goal_channel req) as [|c0 s0]; [reflexivity|].
  destruct (goal_string req) as [[|c s]|]; try reflexivity.
  destruct (JS.parseInt (String c s)) as [n|]; [|reflexivity].
  destruct (n <=? 0) eqn:Hle.
  - assert ((0 <? n) = false) as -> by lia. reflexivity.
  - assert ((0 <? n) = true) as -> by lia. reflexivity.
Qed.

(** X19. Setting a goal twice is setting it once: the second identical
    request gets the same answer and leaves the state of the first. *)
Theorem api_setgoal_idempotent (req : GoalRequest) (st : State) :
  api_setgoal req (snd (api_setgoal req st))
  = (fst (api_setgoal req st), snd (api_setgoal req st)).
Proof.
  rewrite !api_setgoal_run.
  destruct (goal_channel req) as [|c0 s0]; [reflexivity|].
  destruct (goal_string req) as [[|c s]|]; try reflexivity.
  destruct (positive_goal (Some (String c s))) as [n|]; [|reflexivity].
  simpl. unfold set_goals. simpl. by rewrite insert_insert_eq.
Qed.

(** X20. A goal request touches nothing but the goal of its own
    lowercased channel: tokens, table and log stay, and so do the goals
    of the other channels, as written and as read. The last accepted
    write wins whatever was stored before, and a refused request keeps
    the goal that was there. *)
Theorem api_setgoal_frame (req : GoalRequest) (st : State) :
  let st' := snd (api_setgoal req st) in
  only_goals_change st st'
  ∧ (∀ k, k ≠ goal_channel req → goalsByChannel st' !! k = goalsByChannel st !! k)
  ∧ (∀ k, k ≠ goal_channel req → getGoal st' k = getGoal st k)
  ∧ (positive_goal (goal_string req) = None → st' = st)
  ∧ (∀ before n,
       positive_goal (goal_string req) = Some n →
       goal_channel before = goal_channel req →
       snd (api_setgoal req (snd (api_setgoal before st))) = st').
Proof.
  intros st'. subst st'. rewrite api_setgoal_run.
  assert (Hothers : ∀ k, k ≠ goal_channel req →
            goalsByChannel
              (snd match goal_channel req with
                   | EmptyString => (Normal (mkResponse 400 (Text "Missing channel")), st)
                   | String _ _ =>
                       match goal_string req with
                       | Some (String c s) =>
                           match positive_goal (goal_string req) with
                           | Some n =>
                               (Normal (mkResponse 200 (GoalUpdated n)),
                                set_goals <[goal_channel req := n]> st)
                           | None =>
                               (Normal (mkResponse 400
                                          (Text "Goal must be a positive integer")), st)
                           end
                       | _ => (Normal (mkResponse 400 (Text "Missing goal")), st)
                       end
                   end) !! k
            = goalsByChannel st !! k).
  { intros k Hk.
    destruct (goal_channel req) as [|c0 s0]; [done|].
    destruct (goal_string req) as [[|c s]|]; try done.
    destruct (positive_goal (Some (String c s))); [|done].
    simpl. by rewrite lookup_insert_ne. }
  split; [|split; [|split; [|split]]].
  - destruct (goal_channel req) as [|c0 s0]; [done|].
    destruct (goal_string req) as [[|c s]|]; try done.
    by destruct (positive_goal (Some (String c s))).
  - exact Hothers.
  - intros k Hk. by rewrite !getGoal_lookup, Hothers.
  - intros Hbad. rewrite Hbad.
    destruct (goal_channel req) as [|c0 s0]; [done|].
    by destruct (goal_string req) as [[|c s]|].
  - intros before n Hgood Hsame. rewrite !api_setgoal_run, Hsame, Hgood.
    destruct (goal_channel req) as [|c0 s0] eqn:Hc; [reflexivity|].
    destruct (goal_string req) as [[|c s]|] eqn:Hg; try discriminate.
    destruct (goal_string before) as [[|c' s']|]; try reflexivity.
    destruct (positive_goal (Some (String c' s'))) as [m|]; [|reflexivity].
    simpl. unfold set_goals. simpl. by rewrite insert_insert_eq.
Qed.

Lemma api_setgoal_frame_witness :
  let req := mkGoalRequest (Some "Abc") None (Some "25") None in
  let before := mkGoalRequest None (Some "ABC") None (Some "10") in
  (positive_goal (goal_string req) = Some 25
   ∧ goal_channel before = goal_channel req)
  ∧ snd (api_setgoal req (snd (api_setgoal before sample_state)))
    = snd (api_setgoal req sample_state).
Proof.
  intros req before. split; [split; reflexivity|].
  exact (proj2 (proj2 (proj2 (proj2 (api_setgoal_frame req sample_state))))
           before 25 eq_refl eq_refl).
Defined.

(** X21. The goal that the subgoal API reports is positive in every
    reachable state: a stored goal was validated when it was set, and
    the default is 50. *)
Theorem api_subgoal_goal_positive
    (env : Env) (channel : option string) (st : State) :
  reachable env st →
  ∃ current goal st',
    api_subgoal env channel st = (Normal (mkResponse 200 (Json current goal)), st')
    ∧ 0 < goal.
Proof.
  intros Hreach. apply reachable_stores_ok in Hreach.
  unfold api_subgoal, bind at 1, get. unfold bind.
  assert (Hgoal : 0 < getGoal st (subgoal_channel channel)).
  { rewrite (getGoal_stored _ _ Hreach).
    destruct Hreach as (_ & _ & Hpos).
    destruct (goalsByChannel st !! subgoal_channel channel) as [g|] eqn:Hg; simpl;
      [by eapply Hpos|lia]. }
  destruct (total_getCurrentSubsForChannel env (subgoal_channel channel) st)
    as ([current|] & st' & ->); by eexists _, _, _.
Qed.

Lemma api_subgoal_goal_positive_witness :
  reachable env_ok (step env_ok (OpSetGoal (mkGoalRequest None (Some "x") None (Some "7")))
                      (initial None))
  ∧ ∃ current goal st',
      api_subgoal env_ok (Some "x")
        (step env_ok (OpSetGoal (mkGoalRequest None (Some "x") None (Some "7")))
           (initial None))
      = (Normal (mkResponse 200 (Json current goal)), st')
      ∧ 0 < goal.
Proof.
  assert (H : reachable env_ok
                (step env_ok (OpSetGoal (mkGoalRequest None (Some "x") None (Some "7")))
                   (initial None))).
  { apply reachable_step, reachable_initial. }
  split; [exact H|].
  exact (api_subgoal_goal_positive env_ok (Some "x") _ H).
Defined.

(** ** Starting an authorization *)

Lemma encode_inj a b : Base64url.encode a = Base64url.encode b → a = b.
Proof.
  intros H. apply (f_equal Base64url.decode) in H. by rewrite !decode_encode in H.
Qed.

Lemma stringify_channel_inj a b :
  JSON.stringify_channel a = JSON.stringify_channel b → a = b.
Proof.
  intros H. apply (f_equal JSON.parse) in H.
  rewrite !parse_stringify_channel in H. by injection H.
Qed.

Lemma redirect_inj a b : mkResponse 302 (Redirect a) = mkResponse 302 (Redirect b) → a = b.
Proof. by intros [=]. Qed.

(** X22. [auth_twitch] answers 400 exactly when the channel is missing
    or empty and redirects otherwise, and two channels never share a
    state parameter: equal states come from equal channels, letter case
    included. *)
Theorem auth_twitch_states_distinct (channel channel' : option string) :
  (status (auth_twitch channel) = 400 ↔ JS.truthy channel = false)
  ∧ (status (auth_twitch channel) = 302 ↔ JS.truthy channel = true)
  ∧ (∀ state,
       auth_twitch channel = mkResponse 302 (Redirect state) →
       auth_twitch channel' = mkResponse 302 (Redirect state) →
       channel = channel').
Proof.
  split; [|split].
  - destruct channel as [[|c s]|]; simpl; split; (done || discriminate).
  - destruct channel as [[|c s]|]; simpl; split; (done || discriminate).
  - intros state H H'.
    destruct channel as [[|c s]|]; try discriminate.
    destruct channel' as [[|c' s']|]; try discriminate.
    apply (redirect_inj (Base64url.encode (JSON.stringify_channel (String c s)))) in H.
    apply (redirect_inj (Base64url.encode (JSON.stringify_channel (String c' s')))) in H'.
    rewrite <- H' in H. apply encode_inj, stringify_channel_inj in H. by rewrite H.
Qed.
